(** * DataRecoveryTool: drive classification and partition discovery

    A shallow embedding of [src/DriveHandler.cpp] (class [DriveHandler]) and of
    the [SectorReader] interface it reads through, followed by the properties
    of drive classification, partition-scheme detection, partition-table
    extraction and boot-sector interpretation.

    Conventions.
    - Fixed-width unsigned integers are [Z] values; every place where the C++
      arithmetic wraps is written with [wrap32] / [wrap64].
    - Raw storage (sectors, packed structs read with [readSector]) is a
      [list byte]; struct members are accessor functions over the image.
    - Member functions are computations in the monad [M]: they take the
      object state and give back an [outcome] together with the new state.
      A C++ exception is [Thrown]; behaviour the language leaves undefined
      (division by zero, a call through a null reader, a copy that runs
      past the object it fills) is [Fault]; a loop that has not finished
      within the fuel it was given is [OutOfFuel]. *)

From Stdlib Require Import ZArith List Lia Bool.
From Stdlib.Strings Require Import String Ascii Byte.
Import ListNotations.
Local Open Scope Z_scope.

(** ** Machine integers *)

Definition wrap32 (z : Z) : Z := z mod 2 ^ 32.
Definition wrap64 (z : Z) : Z := z mod 2 ^ 64.

(** ** Raw bytes and little-endian fields *)

Module Raw.

Definition byte_val (b : byte) : Z := Z.of_N (Byte.to_N b).

(** [bytes_at img off n]: the [n] bytes of a fixed-size object [img]
    starting at offset [off]. Positions outside the image read as zero. *)
Definition bytes_at (img : list byte) (off n : nat) : list byte :=
  map (fun k => nth (off + k) img x00) (seq 0 n).

Fixpoint le_uint (bs : list byte) : Z :=
  match bs with
  | [] => 0
  | b :: rest => byte_val b + 256 * le_uint rest
  end.

Definition u8  (img : list byte) (off : nat) : Z := le_uint (bytes_at img off 1).
Definition u16 (img : list byte) (off : nat) : Z := le_uint (bytes_at img off 2).
Definition u32 (img : list byte) (off : nat) : Z := le_uint (bytes_at img off 4).
Definition u64 (img : list byte) (off : nat) : Z := le_uint (bytes_at img off 8).

(** [slice buf off len]: [len] bytes of a buffer from offset [off]
    (what [memcpy(dst, buf + off, len)] copies). *)
Definition slice (buf : list byte) (off len : Z) : list byte :=
  firstn (Z.to_nat len) (skipn (Z.to_nat off) buf).

Definition byte_eqb (a b : byte) : bool := Byte.eqb a b.

Fixpoint bytes_eqb (a b : list byte) : bool :=
  match a, b with
  | [], [] => true
  | x :: a', y :: b' => byte_eqb x y && bytes_eqb a' b'
  | _, _ => false
  end.

Definition of_string (s : string) : list byte := list_byte_of_string s.

End Raw.

(** ** Wide strings ([std::wstring]) *)

Module Wide.

(** A [wchar_t] code unit. *)
Definition wchar_t := Z.
Definition wstring := list wchar_t.

(** A wide literal [L"..."] of ASCII characters. *)
Definition L (s : string) : wstring :=
  map (fun a => Z.of_N (N_of_ascii a)) (list_ascii_of_string s).

(** [std::isdigit] on a code unit: the decimal digits '0'..'9'. (For a
    code unit above 255 the C function is undefined; the model answers
    [false].) *)
Definition isdigit (c : wchar_t) : bool := (48 <=? c) && (c <=? 57).

Fixpoint starts_with (pat s : wstring) : bool :=
  match pat, s with
  | [], _ => true
  | p :: pat', c :: s' => (p =? c) && starts_with pat' s'
  | _ :: _, [] => false
  end.

(** [s.find(pat)]: position of the first occurrence, [None] for [npos]. *)
Fixpoint find (s pat : wstring) : option nat :=
  if starts_with pat s then Some 0%nat
  else match s with
       | [] => None
       | _ :: s' => option_map S (find s' pat)
       end.

Definition is_npos (r : option nat) : bool :=
  match r with None => true | Some _ => false end.

Definition size (s : wstring) : nat := List.length s.

(** [s[i]]; the terminating NUL for [i = size()]. *)
Definition at_ (s : wstring) (i : nat) : wchar_t := nth i s 0.

(** The "C" locale's [towupper] and [iswalpha], used to instantiate the
    locale-dependent parameters of [determineDriveType]. *)
Definition towupper_C (c : wchar_t) : wchar_t :=
  if (97 <=? c) && (c <=? 122) then c - 32 else c.
Definition iswalpha_C (c : wchar_t) : bool :=
  ((65 <=? c) && (c <=? 90)) || ((97 <=? c) && (c <=? 122)).

End Wide.
Import Wide.

(** ** Enumerations *)

Inductive DriveType := UNKNOWN_DRIVE | LOGICAL_DRIVE | PHYSICAL_DRIVE.
Inductive PartitionScheme := UNKNOWN_SCHEME | MBR_SCHEME | GPT_SCHEME.
Inductive FilesystemType := FAT32_TYPE | NTFS_TYPE | EXFAT_TYPE | EXT4_TYPE | UNKNOWN_TYPE.

Definition FilesystemType_eqb (a b : FilesystemType) : bool :=
  match a, b with
  | FAT32_TYPE, FAT32_TYPE | NTFS_TYPE, NTFS_TYPE | EXFAT_TYPE, EXFAT_TYPE
  | EXT4_TYPE, EXT4_TYPE | UNKNOWN_TYPE, UNKNOWN_TYPE => true
  | _, _ => false
  end.

(** ** [struct Config] (Structures.h) *)

Record Config := {
  drivePath : wstring;
  inputFolder : wstring;
  outputFolder : wstring;
  logFolder : wstring;
  logFile : wstring;
  targetCluster : Z;
  targetFileSize : Z;
  createFileDataLog : bool;
  recover : bool;
  analyze : bool
}.

Definition with_drivePath (p : wstring) (c : Config) : Config :=
  {| drivePath := p; inputFolder := inputFolder c; outputFolder := outputFolder c;
     logFolder := logFolder c; logFile := logFile c; targetCluster := targetCluster c;
     targetFileSize := targetFileSize c; createFileDataLog := createFileDataLog c;
     recover := recover c; analyze := analyze c |}.

(** ** The [SectorReader] interface (SectorReader.h)

    The two virtual functions [DriveHandler] calls; it owns the reader and
    destroys it in [closeDrive], and never calls [getFilesystemType],
    [isOpen], [reopen] or [close]. [readSector sector size]
    is [None] when the C++ function returns [false] and the bytes stored in
    the caller's buffer when it returns [true]; [getBytesPerSector] likewise
    yields the value written through the reference. *)

Module SectorReader.
Record t := {
  readSector : Z -> Z -> option (list byte);
  getBytesPerSector : option Z
}.
End SectorReader.

(** The two implementations the handler instantiates, by their constructor
    arguments. *)
Inductive ReaderSpec :=
| LogicalDriveReader (path : wstring)
| PhysicalDriveReader (path : wstring) (startSector : Z).

(** ** On-disk records

    The packed structs [MBRHeader], [MBRPartitionEntry], [GPTHeader],
    [GPTPartitionEntry] and [BootSector] are declared in DriveHandler.h,
    which is not among the sources; DriveHandler.cpp reads whole sectors
    into them and uses the members below. *)

Record MBRPartitionEntry := {
  BootIndicator : Z;
  StartHead : Z;
  StartSector : Z;
  StartCylinder : Z;
  Type_ : Z;
  EndHead : Z;
  EndSector : Z;
  EndCylinder : Z;
  StartLBA : Z;
  TotalSectors : Z
}.

(** Modelled from the spec: the layout of [struct MBRPartitionEntry]
    (DriveHandler.h), a 16-byte partition-table entry with the members in
    the order [printMBRPartitionEntry] lists them: eight single bytes, then
    the 32-bit start LBA and the 32-bit sector count. *)
Definition parse_MBRPartitionEntry (img : list byte) : MBRPartitionEntry :=
  {| BootIndicator := Raw.u8 img 0;
     StartHead := Raw.u8 img 1;
     StartSector := Raw.u8 img 2;
     StartCylinder := Raw.u8 img 3;
     Type_ := Raw.u8 img 4;
     EndHead := Raw.u8 img 5;
     EndSector := Raw.u8 img 6;
     EndCylinder := Raw.u8 img 7;
     StartLBA := Raw.u32 img 8;
     TotalSectors := Raw.u32 img 12 |}.

Module MBRHeader.

(** Modelled from the spec: [sizeof(MBRHeader)] (DriveHandler.h), the
    512-byte sector of section 6. *)
Definition sizeof : Z := 512.

(** Modelled from the spec: [mbr.PartitionTable[i]] (DriveHandler.h), four
    16-byte entries at the legacy offset 446, after the boot code. *)
Definition PartitionTable (mbr : list byte) (i : nat) : MBRPartitionEntry :=
  parse_MBRPartitionEntry (Raw.bytes_at mbr (446 + 16 * i) 16).

(** Modelled from the spec: [mbr.signature] (DriveHandler.h), the 16-bit
    little-endian value in the final two bytes of the sector. *)
Definition signature (mbr : list byte) : Z := Raw.u16 mbr 510.

End MBRHeader.

Module GPTHeader.

(** Modelled from the spec: [sizeof(GPTHeader)] (DriveHandler.h), the
    512-byte sector at LBA 1 of section 6. *)
Definition sizeof : Z := 512.

(** Modelled from the spec: the members of [struct GPTHeader]
    (DriveHandler.h) that extraction uses, at their offsets in the on-disk
    header: the 8-byte signature first, the entry-array start LBA at 72,
    the entry count at 80 and the entry size at 84. *)
Definition Signature (gpt : list byte) : list byte := Raw.bytes_at gpt 0 8.
Definition PartitionEntryLBA (gpt : list byte) : Z := Raw.u64 gpt 72.
Definition NumberOfEntries (gpt : list byte) : Z := Raw.u32 gpt 80.
Definition SizeOfEntry (gpt : list byte) : Z := Raw.u32 gpt 84.

End GPTHeader.

Record GPTPartitionEntry := {
  PartitionTypeGUID : list byte;
  UniquePartitionGUID : list byte;
  StartingLBA : Z;
  EndingLBA : Z;
  Attributes : Z;
  PartitionName : list Z
}.

(** Modelled from the spec: [sizeof(GPTPartitionEntry)] (DriveHandler.h):
    two 16-byte GUIDs, three 8-byte fields and 36 UTF-16 code units. *)
Definition sizeof_GPTPartitionEntry : Z := 128.

(** Modelled from the spec: the layout of [struct GPTPartitionEntry]
    (DriveHandler.h), with the members in the order [printGPTEntry] lists
    them. *)
Definition parse_GPTPartitionEntry (img : list byte) : GPTPartitionEntry :=
  {| PartitionTypeGUID := Raw.bytes_at img 0 16;
     UniquePartitionGUID := Raw.bytes_at img 16 16;
     StartingLBA := Raw.u64 img 32;
     EndingLBA := Raw.u64 img 40;
     Attributes := Raw.u64 img 48;
     PartitionName := map (fun k => Raw.u16 img (56 + 2 * k)) (seq 0 36) |}.

Module BootSector.

(** Modelled from the spec: the members of [struct BootSector]
    (DriveHandler.h) that the parser uses, at their offsets in the FAT32
    boot sector, following the member order of [printBootSector]. *)
Definition ReservedSectorCount (bs : list byte) : Z := Raw.u16 bs 14.
Definition NumFATs (bs : list byte) : Z := Raw.u8 bs 16.
Definition FATSize32 (bs : list byte) : Z := Raw.u32 bs 36.
Definition RootCluster (bs : list byte) : Z := Raw.u32 bs 44.
Definition FileSystemType (bs : list byte) : list byte := Raw.bytes_at bs 82 8.

End BootSector.

(** ** Observable actions

    What the handler does to the outside world, in order: reader
    construction, calls through the reader, and runs of the FAT32 recovery
    engine. The log is a ghost member used to state which I/O happened. *)

Inductive Event :=
| EvOpen (r : ReaderSpec)
| EvReadSector (sector size : Z)
| EvGetBytesPerSector
| EvClose
| EvFAT32Recovery (r : ReaderSpec).

(** ** Object state of [DriveHandler]

    The members of the class, the log [io], and a second ghost member,
    [uninitialized]: [uninitialized h i j] stands for the bytes that the
    storage of the automatic object [partitionEntry] of [getGPTPartitions]
    holds when the loop body at indices [i], [j] declares it. The object is
    declared without an initializer, so the language leaves these bytes
    indeterminate; no member function writes [uninitialized], and every
    statement that quantifies over the handler holds for whatever it is. *)

Record DriveHandler := {
  config : Config;
  driveType : DriveType;
  sectorReader : option SectorReader.t;
  bytesPerSector : Z;
  mbr : list byte;
  gpt : list byte;
  bootSector : list byte;
  fatStartSector : Z;
  dataStartSector : Z;
  rootDirCluster : Z;
  partitionsMBR : list MBRPartitionEntry;
  partitionsGPT : list GPTPartitionEntry;
  io : list Event;
  uninitialized : Z -> Z -> list byte
}.

Definition set_config v h :=
  {| config := v; driveType := driveType h; sectorReader := sectorReader h;
     bytesPerSector := bytesPerSector h; mbr := mbr h; gpt := gpt h;
     bootSector := bootSector h; fatStartSector := fatStartSector h;
     dataStartSector := dataStartSector h; rootDirCluster := rootDirCluster h;
     partitionsMBR := partitionsMBR h; partitionsGPT := partitionsGPT h; io := io h;
     uninitialized := uninitialized h |}.
Definition set_driveType v h :=
  {| config := config h; driveType := v; sectorReader := sectorReader h;
     bytesPerSector := bytesPerSector h; mbr := mbr h; gpt := gpt h;
     bootSector := bootSector h; fatStartSector := fatStartSector h;
     dataStartSector := dataStartSector h; rootDirCluster := rootDirCluster h;
     partitionsMBR := partitionsMBR h; partitionsGPT := partitionsGPT h; io := io h;
     uninitialized := uninitialized h |}.
Definition set_sectorReader v h :=
  {| config := config h; driveType := driveType h; sectorReader := v;
     bytesPerSector := bytesPerSector h; mbr := mbr h; gpt := gpt h;
     bootSector := bootSector h; fatStartSector := fatStartSector h;
     dataStartSector := dataStartSector h; rootDirCluster := rootDirCluster h;
     partitionsMBR := partitionsMBR h; partitionsGPT := partitionsGPT h; io := io h;
     uninitialized := uninitialized h |}.
Definition set_bytesPerSector v h :=
  {| config := config h; driveType := driveType h; sectorReader := sectorReader h;
     bytesPerSector := v; mbr := mbr h; gpt := gpt h;
     bootSector := bootSector h; fatStartSector := fatStartSector h;
     dataStartSector := dataStartSector h; rootDirCluster := rootDirCluster h;
     partitionsMBR := partitionsMBR h; partitionsGPT := partitionsGPT h; io := io h;
     uninitialized := uninitialized h |}.
Definition set_mbr v h :=
  {| config := config h; driveType := driveType h; sectorReader := sectorReader h;
     bytesPerSector := bytesPerSector h; mbr := v; gpt := gpt h;
     bootSector := bootSector h; fatStartSector := fatStartSector h;
     dataStartSector := dataStartSector h; rootDirCluster := rootDirCluster h;
     partitionsMBR := partitionsMBR h; partitionsGPT := partitionsGPT h; io := io h;
     uninitialized := uninitialized h |}.
Definition set_gpt v h :=
  {| config := config h; driveType := driveType h; sectorReader := sectorReader h;
     bytesPerSector := bytesPerSector h; mbr := mbr h; gpt := v;
     bootSector := bootSector h; fatStartSector := fatStartSector h;
     dataStartSector := dataStartSector h; rootDirCluster := rootDirCluster h;
     partitionsMBR := partitionsMBR h; partitionsGPT := partitionsGPT h; io := io h;
     uninitialized := uninitialized h |}.
Definition set_bootSector v h :=
  {| config := config h; driveType := driveType h; sectorReader := sectorReader h;
     bytesPerSector := bytesPerSector h; mbr := mbr h; gpt := gpt h;
     bootSector := v; fatStartSector := fatStartSector h;
     dataStartSector := dataStartSector h; rootDirCluster := rootDirCluster h;
     partitionsMBR := partitionsMBR h; partitionsGPT := partitionsGPT h; io := io h;
     uninitialized := uninitialized h |}.
Definition set_geometry fat data root h :=
  {| config := config h; driveType := driveType h; sectorReader := sectorReader h;
     bytesPerSector := bytesPerSector h; mbr := mbr h; gpt := gpt h;
     bootSector := bootSector h; fatStartSector := fat;
     dataStartSector := data; rootDirCluster := root;
     partitionsMBR := partitionsMBR h; partitionsGPT := partitionsGPT h; io := io h;
     uninitialized := uninitialized h |}.
Definition set_partitionsMBR v h :=
  {| config := config h; driveType := driveType h; sectorReader := sectorReader h;
     bytesPerSector := bytesPerSector h; mbr := mbr h; gpt := gpt h;
     bootSector := bootSector h; fatStartSector := fatStartSector h;
     dataStartSector := dataStartSector h; rootDirCluster := rootDirCluster h;
     partitionsMBR := v; partitionsGPT := partitionsGPT h; io := io h;
     uninitialized := uninitialized h |}.
Definition set_partitionsGPT v h :=
  {| config := config h; driveType := driveType h; sectorReader := sectorReader h;
     bytesPerSector := bytesPerSector h; mbr := mbr h; gpt := gpt h;
     bootSector := bootSector h; fatStartSector := fatStartSector h;
     dataStartSector := dataStartSector h; rootDirCluster := rootDirCluster h;
     partitionsMBR := partitionsMBR h; partitionsGPT := v; io := io h;
     uninitialized := uninitialized h |}.
Definition set_io v h :=
  {| config := config h; driveType := driveType h; sectorReader := sectorReader h;
     bytesPerSector := bytesPerSector h; mbr := mbr h; gpt := gpt h;
     bootSector := bootSector h; fatStartSector := fatStartSector h;
     dataStartSector := dataStartSector h; rootDirCluster := rootDirCluster h;
     partitionsMBR := partitionsMBR h; partitionsGPT := partitionsGPT h; io := v;
     uninitialized := uninitialized h |}.

(** ** The monad of member functions *)

Inductive outcome (A : Type) :=
| Returned (a : A)
| Thrown (what : string)
| Fault
| OutOfFuel.
Arguments Returned {A} a.
Arguments Thrown {A} what.
Arguments Fault {A}.
Arguments OutOfFuel {A}.

Definition M (A : Type) : Type := DriveHandler -> outcome A * DriveHandler.

Definition ret {A} (a : A) : M A := fun h => (Returned a, h).

Definition bind {A B} (c : M A) (k : A -> M B) : M B :=
  fun h =>
    match c h with
    | (Returned a, h') => k a h'
    | (Thrown w, h') => (Thrown w, h')
    | (Fault, h') => (Fault, h')
    | (OutOfFuel, h') => (OutOfFuel, h')
    end.

Definition throw {A} (what : string) : M A := fun h => (Thrown what, h).
Definition fault {A} : M A := fun h => (Fault, h).
Definition get {A} (f : DriveHandler -> A) : M A := fun h => (Returned (f h), h).
Definition modify (f : DriveHandler -> DriveHandler) : M unit :=
  fun h => (Returned tt, f h).
Definition emit (e : Event) : M unit := modify (fun h => set_io (io h ++ [e]) h).

Declare Scope handler_scope.
Delimit Scope handler_scope with handler.
Notation "x <- c ;; k" := (bind c (fun x => k))
  (at level 61, c at next level, right associativity) : handler_scope.
Notation "c ;; k" := (bind c (fun _ => k))
  (at level 61, right associativity) : handler_scope.
Local Open Scope handler_scope.


Fixpoint for_each {A} (l : list A) (body : A -> M unit) : M unit :=
  match l with
  | [] => ret tt
  | x :: rest => body x ;; for_each rest body
  end.

(** ** [std::string] operations used on the filesystem label *)

Module Str.

(** The characters of the C string a literal decays to: everything before
    its first NUL. *)
Fixpoint c_str (lit : list byte) : list byte :=
  match lit with
  | [] => []
  | b :: rest => if Raw.byte_eqb b x00 then [] else b :: c_str rest
  end.

(** [s.find_first_of(set)] with [set] given as a [const char*]. *)
Fixpoint find_first_of (s set : list byte) : option nat :=
  match s with
  | [] => None
  | b :: rest =>
      if existsb (Raw.byte_eqb b) set then Some 0%nat
      else option_map S (find_first_of rest set)
  end.

(** [s.substr(0, pos)]; [npos] keeps the whole string. *)
Definition substr0 (s : list byte) (pos : option nat) : list byte :=
  match pos with
  | None => s
  | Some n => firstn n s
  end.

(** [s == lit] for a [std::string] and a string literal. *)
Definition eq_lit (s : list byte) (lit : string) : bool :=
  Raw.bytes_eqb s (c_str (Raw.of_string lit)).

End Str.

(** ** Member functions of [DriveHandler] *)

Section Handler.

(** [std::towupper] and [std::iswalpha] depend on the C library and locale. *)
Variable towupper : wchar_t -> wchar_t.
Variable iswalpha : wchar_t -> bool.

(** The device a reader constructed with the given arguments reads from
    (LogicalDriveReader.h and PhysicalDriveReader.h are platform code). *)
Variable device : ReaderSpec -> SectorReader.t.

(** A run of the recovery engine, [scanForDeletedFiles(0)] followed by
    [recoverAllFiles()], over a freshly constructed reader: [None] when it
    returns, [Some what] when it throws (FAT32Recovery.h is a separate
    component). *)
Variable FAT32Recovery_run : Config -> ReaderSpec -> option string.

(** Constants declared in DriveHandler.h: the numeric value of each
    [FilesystemType] enumerator and the FAT32 partition-type GUID. *)
Variable FilesystemType_value : FilesystemType -> Z.
Variable GUID_FAT32_TYPE : list byte.

(** *** Core drive operations *)

Definition setSectorReader (reader : option SectorReader.t) : M unit :=
  modify (set_sectorReader reader).

Definition initializeSectorReader : M unit :=
  dt <- get driveType ;;
  p <- get (fun h => drivePath (config h)) ;;
  match dt with
  | LOGICAL_DRIVE =>
      emit (EvOpen (LogicalDriveReader p)) ;;
      setSectorReader (Some (device (LogicalDriveReader p)))
  | PHYSICAL_DRIVE =>
      emit (EvOpen (PhysicalDriveReader p 0)) ;;
      setSectorReader (Some (device (PhysicalDriveReader p 0)))
  | UNKNOWN_DRIVE =>
      throw "Could not determine the type of the drive (Physical, Logical). Please make sure to enter the correct drive."
  end ;;
  r <- get sectorReader ;;
  match r with
  | None => throw "Failed to initialize Sector Reader."
  | Some _ => ret tt
  end.

(** [readSector(sector, buffer, size)]: the bytes stored in [buffer]. *)
Definition readSector (sector size : Z) : M (list byte) :=
  r <- get sectorReader ;;
  match r with
  | None => fault
  | Some reader =>
      emit (EvReadSector sector size) ;;
      match SectorReader.readSector reader sector size with
      | None => throw "Cannot read sector."
      | Some buffer => ret buffer
      end
  end.

Definition getBytesPerSector : M unit :=
  r <- get sectorReader ;;
  match r with
  | None => fault
  | Some reader =>
      emit EvGetBytesPerSector ;;
      match SectorReader.getBytesPerSector reader with
      | None => throw "Failed to read BytesPerSector value using DeviceIoControl"
      | Some v => modify (set_bytesPerSector v)
      end
  end.

Definition closeDrive : M unit :=
  r <- get sectorReader ;;
  match r with
  | None => ret tt
  | Some _ => emit EvClose ;; setSectorReader None
  end.

(** *** Drive and partition analysis *)

Definition determineDriveType (drivePath : wstring) : M DriveType :=
  let upperDrivePath := map towupper drivePath in
  let path := L "\\.\" in
  let set_path p := modify (fun h => set_config (with_drivePath p (config h)) h) in
  if (size drivePath =? 1)%nat && isdigit (at_ drivePath 0) then
    set_path (path ++ L "PhysicalDrive" ++ drivePath) ;;
    ret PHYSICAL_DRIVE
  else if negb (is_npos (find upperDrivePath (L "PHYSICALDRIVE")))
          && isdigit (at_ upperDrivePath (size upperDrivePath - 1)) then
    set_path (path ++ L "PhysicalDrive"
                   ++ [at_ upperDrivePath (size upperDrivePath - 1)]) ;;
    ret PHYSICAL_DRIVE
  else if ((size upperDrivePath =? 1)%nat && iswalpha (at_ upperDrivePath 0))
          || ((size upperDrivePath =? 2)%nat && iswalpha (at_ upperDrivePath 0)
              && (at_ upperDrivePath 1 =? 58)) then
    set_path (path ++ upperDrivePath
                   ++ (if (size upperDrivePath =? 1)%nat then L ":" else L "")) ;;
    ret LOGICAL_DRIVE
  else ret UNKNOWN_DRIVE.

Definition readMBR : M unit :=
  buffer <- readSector 0 MBRHeader.sizeof ;;
  modify (set_mbr buffer).

Definition isMBR : M bool :=
  get (fun h => MBRHeader.signature (mbr h) =? 0xAA55).

Definition readGPT : M unit :=
  buffer <- readSector 1 GPTHeader.sizeof ;;
  modify (set_gpt buffer).

Definition isGPT : M bool :=
  let gptSignature := Raw.of_string "EFI PART" in
  get (fun h => Raw.bytes_eqb (GPTHeader.Signature (gpt h)) (firstn 8 gptSignature)).

Definition getPartitionScheme : M PartitionScheme :=
  readMBR ;;
  readGPT ;;
  g <- isGPT ;;
  if g then ret GPT_SCHEME
  else
    m <- isMBR ;;
    if m then ret MBR_SCHEME else ret UNKNOWN_SCHEME.

(** [fatStartSector] and [dataStartSector] are taken to be 32-bit unsigned
    members; the product of the 8-bit [NumFATs] and the 32-bit [FATSize32]
    is computed in 32 bits. *)
Definition readBootSector (sector : Z) : M unit :=
  buffer <- readSector sector 512 ;;
  modify (set_bootSector buffer) ;;
  bs <- get bootSector ;;
  let fat := BootSector.ReservedSectorCount bs in
  let data := wrap32 (fat + wrap32 (BootSector.NumFATs bs * BootSector.FATSize32 bs)) in
  modify (set_geometry fat data (BootSector.RootCluster bs)).

Definition getMBRPartitions : M unit :=
  for_each [0; 1; 2; 3]%nat (fun i =>
    entry <- get (fun h => MBRHeader.PartitionTable (mbr h) i) ;;
    if negb (TotalSectors entry =? 0) then
      modify (fun h => set_partitionsMBR (partitionsMBR h ++ [entry]) h)
    else ret tt).

Definition isEmptyGUID (partitionEntry : GPTPartitionEntry) : bool :=
  forallb (fun b => Raw.byte_eqb b x00) (PartitionTypeGUID partitionEntry).

(** [std::memcpy(&partitionEntry, src, n)] on the 128-byte object
    [partitionEntry] whose storage held [before]: for [n] up to the size of
    the object, the object's bytes afterwards, the [n] copied bytes followed
    by what the storage held beyond them. *)
Definition memcpy_partitionEntry (before src : list byte) (n : Z) : list byte :=
  src ++ skipn (Z.to_nat n)
               (Raw.bytes_at before 0 (Z.to_nat sizeof_GPTPartitionEntry)).

(** The inner loop of [getGPTPartitions] from index [j], with [n] iterations
    left before [j] reaches [entriesPerSector]. The copy into the entry
    object takes [sizeOfEntry] bytes from the header's word, unchecked: a
    [sizeOfEntry] above the size of [GPTPartitionEntry] writes past the
    object, which is undefined behaviour ([Fault]); a smaller one leaves
    the rest of the object as the uninitialized storage had it. *)
Fixpoint getGPTPartitions_entries (n : nat) (i j sizeOfEntry : Z)
         (sectorBuffer : list byte) : M unit :=
  match n with
  | O => ret tt
  | S n' =>
      numberOfEntries <- get (fun h => GPTHeader.NumberOfEntries (gpt h)) ;;
      if wrap32 (i + j) <? numberOfEntries then
        if sizeof_GPTPartitionEntry <? sizeOfEntry then fault
        else
          before <- get (fun h => uninitialized h i j) ;;
          let partitionEntry :=
            parse_GPTPartitionEntry
              (memcpy_partitionEntry before
                 (Raw.slice sectorBuffer (wrap32 (j * sizeOfEntry)) sizeOfEntry)
                 sizeOfEntry) in
          (if negb (isEmptyGUID partitionEntry) then
             modify (fun h => set_partitionsGPT (partitionsGPT h ++ [partitionEntry]) h)
           else ret tt) ;;
          getGPTPartitions_entries n' i (j + 1) sizeOfEntry sectorBuffer
      else ret tt
  end.

(** The outer loop of [getGPTPartitions] from index [i]. *)
Fixpoint getGPTPartitions_sectors (fuel : nat) (i sizeOfEntry entriesPerSector : Z)
  : M unit :=
  match fuel with
  | O => fun h => (OutOfFuel, h)
  | S fuel' =>
      numberOfEntries <- get (fun h => GPTHeader.NumberOfEntries (gpt h)) ;;
      if i <? numberOfEntries then
        bps <- get bytesPerSector ;;
        lba <- get (fun h => GPTHeader.PartitionEntryLBA (gpt h)) ;;
        if bps =? 0 then fault
        else
          let currentLBA := wrap64 (lba + wrap32 (i * sizeOfEntry) / bps) in
          sectorBuffer <- readSector currentLBA bps ;;
          getGPTPartitions_entries (Z.to_nat entriesPerSector) i 0 sizeOfEntry
                                   sectorBuffer ;;
          getGPTPartitions_sectors fuel' (wrap32 (i + entriesPerSector))
                                   sizeOfEntry entriesPerSector
      else ret tt
  end.

Definition getGPTPartitions (fuel : nat) : M unit :=
  sizeOfEntry <- get (fun h => GPTHeader.SizeOfEntry (gpt h)) ;;
  bps <- get bytesPerSector ;;
  if sizeOfEntry =? 0 then fault
  else
    let entriesPerSector := bps / sizeOfEntry in
    getGPTPartitions_sectors fuel 0 sizeOfEntry entriesPerSector.

(** *** Filesystem detection *)

Definition getFSTypeFromBootSector (sector : Z) : M FilesystemType :=
  readBootSector sector ;;
  label <- get (fun h => BootSector.FileSystemType (bootSector h)) ;;
  let fsType := Str.substr0 label (Str.find_first_of label (Str.c_str [x20; x00])) in
  if Str.eq_lit fsType "FAT32" then ret FAT32_TYPE
  else if Str.eq_lit fsType "NTFS" then ret NTFS_TYPE
  else if Str.eq_lit fsType "exFAT" then ret EXFAT_TYPE
  else if Str.eq_lit fsType "EXT4" then ret EXT4_TYPE
  else ret UNKNOWN_TYPE.

(** [static_cast<FilesystemType>(type)]: the enumeration value [type]. *)
Definition getFSTypeFromMBRPartition (type : Z) : Z := type.

Definition getFSTypeFromGPTPartition (partitionTypeGUID : list byte) : FilesystemType :=
  if Raw.bytes_eqb (Raw.bytes_at partitionTypeGUID 0 16)
                   (Raw.bytes_at GUID_FAT32_TYPE 0 16)
  then FAT32_TYPE else UNKNOWN_TYPE.

(** *** Recovery methods *)

Definition runFAT32Recovery (r : ReaderSpec) : M unit :=
  cfg <- get config ;;
  emit (EvOpen r) ;;
  emit (EvFAT32Recovery r) ;;
  match FAT32Recovery_run cfg r with
  | None => ret tt
  | Some what => throw what
  end.

Definition recoverFromLogicalDriveFAT32 : M unit :=
  p <- get (fun h => drivePath (config h)) ;;
  runFAT32Recovery (LogicalDriveReader p).

Definition recoverFromPhysicalDriveFAT32MBR (partition : MBRPartitionEntry) : M unit :=
  p <- get (fun h => drivePath (config h)) ;;
  let startLBA := StartLBA partition in
  runFAT32Recovery (PhysicalDriveReader p startLBA).

Definition recoverFromPhysicalDriveFAT32GPT (partition : GPTPartitionEntry) : M unit :=
  p <- get (fun h => drivePath (config h)) ;;
  let startLBA := StartingLBA partition in
  runFAT32Recovery (PhysicalDriveReader p startLBA).

Definition recoverFromPhysicalDriveFAT32 (partitionScheme : PartitionScheme) : M unit :=
  match partitionScheme with
  | MBR_SCHEME =>
      parts <- get partitionsMBR ;;
      for_each parts (fun partition =>
        let fsType := getFSTypeFromMBRPartition (Type_ partition) in
        if fsType =? FilesystemType_value FAT32_TYPE then
          recoverFromPhysicalDriveFAT32MBR partition
        else ret tt)
  | GPT_SCHEME =>
      parts <- get partitionsGPT ;;
      for_each parts (fun partition =>
        let fsType := getFSTypeFromGPTPartition (PartitionTypeGUID partition) in
        if FilesystemType_eqb fsType FAT32_TYPE then
          recoverFromPhysicalDriveFAT32GPT partition
        else ret tt)
  | UNKNOWN_SCHEME =>
      throw "Partition is neither MBR nor GPT. Please make sure to enter the correct drive."
  end.

(** *** Public interface *)

(** The constructor, run on storage [raw] whose scalar members hold
    indeterminate values. *)
Definition DriveHandler_new (cfg : Config) (raw : DriveHandler)
  : outcome unit * DriveHandler :=
  let h0 :=
    set_io [] (set_partitionsGPT [] (set_partitionsMBR []
      (set_sectorReader None (set_driveType UNKNOWN_DRIVE (set_config cfg raw))))) in
  (p <- get (fun h => drivePath (config h)) ;;
   dt <- determineDriveType p ;;
   modify (set_driveType dt) ;;
   initializeSectorReader) h0.

Definition recoverDrive (fuel : nat) : M unit :=
  dt <- get driveType ;;
  match dt with
  | LOGICAL_DRIVE =>
      fsType <- getFSTypeFromBootSector 0 ;;
      closeDrive ;;
      if FilesystemType_eqb fsType FAT32_TYPE then recoverFromLogicalDriveFAT32
      else ret tt
  | PHYSICAL_DRIVE =>
      partitionScheme <- getPartitionScheme ;;
      match partitionScheme with
      | MBR_SCHEME =>
          getMBRPartitions ;;
          closeDrive ;;
          recoverFromPhysicalDriveFAT32 partitionScheme
      | GPT_SCHEME =>
          getBytesPerSector ;;
          getGPTPartitions fuel ;;
          closeDrive ;;
          recoverFromPhysicalDriveFAT32 partitionScheme
      | UNKNOWN_SCHEME => ret tt
      end
  | UNKNOWN_DRIVE => ret tt
  end.

End Handler.


(** ** String conversion utilities *)

(** Stream formatting as [guidToString] uses it: an [int] printed under
    [std::hex] and padded by [std::setw] with the fill character. *)
Module Fmt.

Definition hex_digit (d : Z) : byte :=
  nth (Z.to_nat d) (Raw.of_string "0123456789abcdef") x00.

(** The hexadecimal digits of [n], most significant first, in front of
    [acc]; a 32-bit [int] has at most eight. *)
Fixpoint hex_digits (fuel : nat) (n : Z) (acc : list byte) : list byte :=
  match fuel with
  | O => acc
  | S fuel' =>
      let acc' := hex_digit (n mod 16) :: acc in
      if n / 16 =? 0 then acc' else hex_digits fuel' (n / 16) acc'
  end.

Definition hex (n : Z) : list byte := hex_digits 8 n [].

Definition setw (width : nat) (fill : byte) (s : list byte) : list byte :=
  repeat fill (width - List.length s) ++ s.

End Fmt.

(** [guidToString(guid)] for the 16-byte array [guid]. *)
Definition guidToString (guid : list byte) : list byte :=
  flat_map (fun i =>
      Fmt.setw 2 x30 (Fmt.hex (Raw.byte_val (nth i guid x00)))
      ++ (if (i =? 3)%nat || (i =? 5)%nat || (i =? 7)%nat || (i =? 9)%nat
          then Raw.of_string "-" else []))
    (seq 0 16).
(** * Specification vocabulary

    The input shapes of drive classification, as the caller sees them. *)

Definition single_digit (p : wstring) : Prop :=
  exists d, p = [d] /\ isdigit d = true.

Definition mentions (pat u : wstring) : Prop :=
  exists pre post, u = pre ++ pat ++ post.

Definition ends_in_digit (u : wstring) : Prop :=
  exists pre d, u = pre ++ [d] /\ isdigit d = true.

Definition letter_or_letter_colon (iswalpha : wchar_t -> bool) (u : wstring) : Prop :=
  exists c, iswalpha c = true /\ (u = [c] \/ u = [c; 58]).

(** A non-empty run of decimal digits. *)
Definition bare_number (p : wstring) : Prop :=
  p <> [] /\ forall c, In c p -> isdigit c = true.

(** Fixtures for concrete evaluation: zero-filled raw storage (the
    uninitialized storage reads as zero bytes too), a device whose every
    sector is zero-filled. *)
Definition raw_storage : DriveHandler :=
  {| config := {| drivePath := []; inputFolder := []; outputFolder := [];
                  logFolder := []; logFile := []; targetCluster := 0;
                  targetFileSize := 0; createFileDataLog := false;
                  recover := false; analyze := false |};
     driveType := UNKNOWN_DRIVE; sectorReader := None; bytesPerSector := 0;
     mbr := []; gpt := []; bootSector := []; fatStartSector := 0;
     dataStartSector := 0; rootDirCluster := 0; partitionsMBR := [];
     partitionsGPT := []; io := []; uninitialized := fun _ _ => [] |}.

Definition zero_reader : SectorReader.t :=
  {| SectorReader.readSector := fun _ size => Some (repeat x00 (Z.to_nat size));
     SectorReader.getBytesPerSector := Some 512 |}.

Definition zero_device (_ : ReaderSpec) : SectorReader.t := zero_reader.

Definition with_path (p : wstring) (h : DriveHandler) : DriveHandler :=
  set_config (with_drivePath p (config h)) h.

Definition unknown_drive_message : string :=
  "Could not determine the type of the drive (Physical, Logical). Please make sure to enter the correct drive.".
Definition config_for (p : wstring) : Config := with_drivePath p (config raw_storage).


(** Partition-scheme signatures, on the raw sectors: the last two bytes of
    sector 0 are 55 AA, the first eight bytes of sector 1 are the ASCII
    text EFI PART. *)
Definition MBR_signature_valid (sector0 : list byte) : Prop :=
  nth 510 sector0 x00 = x55 /\ nth 511 sector0 x00 = xaa.

Definition GPT_signature_valid (sector1 : list byte) : Prop :=
  firstn 8 sector1 = Raw.of_string "EFI PART".

(** The four slots of the MBR partition table, in table order. *)
Definition MBR_slots (sector0 : list byte) : list MBRPartitionEntry :=
  map (MBRHeader.PartitionTable sector0) [0; 1; 2; 3]%nat.

Definition MBR_slot_present (e : MBRPartitionEntry) : bool :=
  negb (TotalSectors e =? 0).

Fixpoint count_present (slots : list MBRPartitionEntry) : nat :=
  match slots with
  | [] => 0%nat
  | e :: rest =>
      if Z.eq_dec (TotalSectors e) 0 then count_present rest
      else S (count_present rest)
  end.

Fixpoint count_absent (slots : list MBRPartitionEntry) : nat :=
  match slots with
  | [] => 0%nat
  | e :: rest =>
      if Z.eq_dec (TotalSectors e) 0 then S (count_absent rest)
      else count_absent rest
  end.

(** The reads and the recovery runs recorded in a log. *)
Definition sectors_read (log : list Event) : list Z :=
  flat_map (fun e => match e with EvReadSector s _ => [s] | _ => [] end) log.

Definition recovery_runs (log : list Event) : list ReaderSpec :=
  flat_map (fun e => match e with EvFAT32Recovery r => [r] | _ => [] end) log.

Definition readers_opened (log : list Event) : list ReaderSpec :=
  flat_map (fun e => match e with EvOpen r => [r] | _ => [] end) log.

Definition failing_reader : SectorReader.t :=
  {| SectorReader.readSector := fun _ _ => None;
     SectorReader.getBytesPerSector := None |}.

(** The handler after both probe reads of scheme detection. *)
Definition after_probe (h : DriveHandler) (sector0 sector1 : list byte) : DriveHandler :=
  set_gpt sector1 (set_mbr sector0
    (set_io (io h ++ [EvReadSector 0 MBRHeader.sizeof;
                      EvReadSector 1 GPTHeader.sizeof]) h)).

(** A disk with a protective MBR and a GPT header announcing eight 128-byte
    entries from LBA 2, two of them in use; and an MBR-only disk with
    partitions in slots 0 and 2. *)
Definition sample_mbr_entry (type : byte) (startLBA totalSectors : byte) : list byte :=
  [x00; x00; x00; x00; type; x00; x00; x00;
   startLBA; x00; x00; x00; totalSectors; x00; x00; x00].

Definition sample_protective_mbr : list byte :=
  repeat x00 446 ++ sample_mbr_entry xee x01 xff ++ repeat x00 48 ++ [x55; xaa].

Definition sample_mbr_sector : list byte :=
  repeat x00 446
  ++ sample_mbr_entry x0b x08 x40 ++ repeat x00 16
  ++ sample_mbr_entry x07 x50 x20 ++ repeat x00 16
  ++ [x55; xaa].

Definition gpt_header_with (numberOfEntries : list byte) : list byte :=
  Raw.of_string "EFI PART" ++ repeat x00 64
  ++ [x02; x00; x00; x00; x00; x00; x00; x00]
  ++ numberOfEntries
  ++ [x80; x00; x00; x00]
  ++ repeat x00 424.

Definition sample_gpt_header : list byte := gpt_header_with [x08; x00; x00; x00].

Definition sample_gpt_entry (guid0 : byte) (startLBA : byte) : list byte :=
  guid0 :: repeat x00 31 ++ startLBA :: repeat x00 95.

Definition sample_gpt_entries : list byte :=
  sample_gpt_entry xa2 x28 ++ repeat x00 128
  ++ sample_gpt_entry x28 x30 ++ repeat x00 128.

Definition sample_gpt_disk : SectorReader.t :=
  {| SectorReader.readSector := fun sector size =>
       if sector =? 0 then Some sample_protective_mbr
       else if sector =? 1 then Some sample_gpt_header
       else if sector =? 2 then Some sample_gpt_entries
       else Some (repeat x00 (Z.to_nat size));
     SectorReader.getBytesPerSector := Some 512 |}.

Definition sample_mbr_disk : SectorReader.t :=
  {| SectorReader.readSector := fun sector size =>
       if sector =? 0 then Some sample_mbr_sector
       else Some (repeat x00 (Z.to_nat size));
     SectorReader.getBytesPerSector := Some 512 |}.

(** A FAT32 boot sector with 32 reserved sectors, two FATs of the given
    size, root cluster 2 and the given eight-byte label; the sample has FATs
    of 1009 sectors. *)
Definition boot_sector_with (fatSize32 label : list byte) : list byte :=
  repeat x00 14 ++ [x20; x00] ++ [x02] ++ repeat x00 19
  ++ fatSize32 ++ repeat x00 4 ++ [x02; x00; x00; x00]
  ++ repeat x00 34 ++ label ++ repeat x00 422.

Definition sample_boot_sector (label : list byte) : list byte :=
  boot_sector_with [xf1; x03; x00; x00] label.

(** A volume whose boot sector declares two FATs of 2147483648 sectors. *)
Definition oversized_fat_volume : SectorReader.t :=
  {| SectorReader.readSector := fun sector size =>
       Some (boot_sector_with [x00; x00; x00; x80] (Raw.of_string "FAT32   "));
     SectorReader.getBytesPerSector := Some 512 |}.

Definition sample_volume (label : list byte) : SectorReader.t :=
  {| SectorReader.readSector := fun sector size =>
       if sector =? 0 then Some (sample_boot_sector label)
       else Some (repeat x00 (Z.to_nat size));
     SectorReader.getBytesPerSector := Some 512 |}.

Definition with_reader (r : SectorReader.t) : DriveHandler :=
  set_sectorReader (Some r) raw_storage.

(** Filesystem identification as the specification words it: the label is
    cut at its first space or NUL and matched against the four names. *)
Fixpoint spec_trim_label (label : list byte) : list byte :=
  match label with
  | [] => []
  | b :: rest =>
      if Raw.byte_eqb b x20 || Raw.byte_eqb b x00 then []
      else b :: spec_trim_label rest
  end.

Definition spec_identify (label : list byte) : FilesystemType :=
  let name := spec_trim_label label in
  if Raw.bytes_eqb name (Raw.of_string "FAT32") then FAT32_TYPE
  else if Raw.bytes_eqb name (Raw.of_string "NTFS") then NTFS_TYPE
  else if Raw.bytes_eqb name (Raw.of_string "exFAT") then EXFAT_TYPE
  else if Raw.bytes_eqb name (Raw.of_string "EXT4") then EXT4_TYPE
  else UNKNOWN_TYPE.

(** A label cut at its first space. *)
Fixpoint cut_at_space (label : list byte) : list byte :=
  match label with
  | [] => []
  | b :: rest => if Raw.byte_eqb b x20 then [] else b :: cut_at_space rest
  end.

(** What the code does with the label. *)
Definition code_trim_label (label : list byte) : list byte :=
  Str.substr0 label (Str.find_first_of label (Str.c_str [x20; x00])).

Definition code_identify (label : list byte) : FilesystemType :=
  let fsType := code_trim_label label in
  if Str.eq_lit fsType "FAT32" then FAT32_TYPE
  else if Str.eq_lit fsType "NTFS" then NTFS_TYPE
  else if Str.eq_lit fsType "exFAT" then EXFAT_TYPE
  else if Str.eq_lit fsType "EXT4" then EXT4_TYPE
  else UNKNOWN_TYPE.

(** The handler after a boot-sector parse that read the image [bs]. *)
Definition after_boot_sector (h : DriveHandler) (sector : Z) (bs : list byte)
  : DriveHandler :=
  set_geometry
    (BootSector.ReservedSectorCount bs)
    (wrap32 (BootSector.ReservedSectorCount bs
             + wrap32 (BootSector.NumFATs bs * BootSector.FATSize32 bs)))
    (BootSector.RootCluster bs)
    (set_bootSector bs (set_io (io h ++ [EvReadSector sector 512]) h)).

(** Which partitions the recovery pass takes for FAT32: an MBR entry whose
    type byte is the value of the [FAT32_TYPE] enumerator, a GPT entry whose
    type GUID is [GUID_FAT32_TYPE]. *)
Definition MBR_is_FAT32 (FAT32_value : Z) (e : MBRPartitionEntry) : bool :=
  Type_ e =? FAT32_value.

Definition GPT_is_FAT32 (GUID_FAT32_TYPE : list byte) (e : GPTPartitionEntry) : bool :=
  Raw.bytes_eqb (Raw.bytes_at (PartitionTypeGUID e) 0 16)
                (Raw.bytes_at GUID_FAT32_TYPE 0 16).

(** The log entries of one recovery run over a reader. *)
Definition recovery_events (r : ReaderSpec) : list Event :=
  [EvOpen r; EvFAT32Recovery r].

(** Sample values for the constants of DriveHandler.h and sample partition
    lists: FAT32, NTFS, FAT32 (MBR) and basic-data, Linux, basic-data (GPT). *)
Definition sample_FilesystemType_value (t : FilesystemType) : Z :=
  match t with
  | FAT32_TYPE => 0x0B
  | NTFS_TYPE => 0x07
  | EXFAT_TYPE => 0x07
  | EXT4_TYPE => 0x83
  | UNKNOWN_TYPE => 0x00
  end.

Definition sample_GUID_FAT32_TYPE : list byte :=
  [xa2; xa0; xd0; xeb; xe5; xb9; x33; x44; x87; xc0; x68; xb6; xb7; x26; x99; xc7].

Definition sample_GUID_linux : list byte :=
  [xaf; x3d; xc6; x0f; x83; x84; x72; x47; x8e; x79; x3d; x69; xd8; x47; x7d; xe4].

Definition sample_MBR_partition (type startLBA totalSectors : Z) : MBRPartitionEntry :=
  {| BootIndicator := 0; StartHead := 0; StartSector := 0; StartCylinder := 0;
     Type_ := type; EndHead := 0; EndSector := 0; EndCylinder := 0;
     StartLBA := startLBA; TotalSectors := totalSectors |}.

Definition sample_GPT_partition (guid : list byte) (startLBA endLBA : Z)
  : GPTPartitionEntry :=
  {| PartitionTypeGUID := guid; UniquePartitionGUID := repeat x00 16;
     StartingLBA := startLBA; EndingLBA := endLBA; Attributes := 0;
     PartitionName := repeat 0 36 |}.

Definition sample_partitioned : DriveHandler :=
  set_partitionsGPT
    [sample_GPT_partition sample_GUID_FAT32_TYPE 2048 4095;
     sample_GPT_partition sample_GUID_linux 4096 8191;
     sample_GPT_partition sample_GUID_FAT32_TYPE 8192 9000]
    (set_partitionsMBR
       [sample_MBR_partition 0x0B 8 64;
        sample_MBR_partition 0x07 80 32;
        sample_MBR_partition 0x0B 200 100]
       raw_storage).

Definition always_returns (_ : Config) (_ : ReaderSpec) : option string := None.

(** ** GPT partition-entry array *)

(** The handler after a scan that appended [found] and performed [reads]. *)
Definition after_scan (found : list GPTPartitionEntry) (reads : list Event)
           (h : DriveHandler) : DriveHandler :=
  set_partitionsGPT (partitionsGPT h ++ found) (set_io (io h ++ reads) h).

(** What one pass of the loop body keeps of an entry image. *)
Definition entry_if_present (img : list byte) : list GPTPartitionEntry :=
  let partitionEntry := parse_GPTPartitionEntry img in
  if negb (isEmptyGUID partitionEntry) then [partitionEntry] else [].

(** The entries the inner loop appends, as a function of the sector buffer. *)
Fixpoint entries_in_sector (n : nat) (i j sizeOfEntry : Z) (sectorBuffer : list byte)
         (numberOfEntries : Z) : list GPTPartitionEntry :=
  match n with
  | O => []
  | S n' =>
      if wrap32 (i + j) <? numberOfEntries then
        entry_if_present
          (Raw.slice sectorBuffer (wrap32 (j * sizeOfEntry)) sizeOfEntry)
        ++ entries_in_sector n' i (j + 1) sizeOfEntry sectorBuffer numberOfEntries
      else []
  end.

(** The sector the outer loop reads in its iteration number [t]. *)
Definition sector_of_iteration (gptHeader : list byte) (bps : Z) (t : nat) : Z :=
  let i := Z.of_nat t * (bps / GPTHeader.SizeOfEntry gptHeader) in
  wrap64 (GPTHeader.PartitionEntryLBA gptHeader
          + wrap32 (i * GPTHeader.SizeOfEntry gptHeader) / bps).

(** An entry slot is in use when its 16-byte type GUID has a nonzero byte. *)
Definition slot_in_use (img : list byte) : bool :=
  existsb (fun b => negb (Raw.byte_eqb b x00)) (firstn 16 img).

Fixpoint count_in_use (slots : list (list byte)) : nat :=
  match slots with
  | [] => 0%nat
  | img :: rest =>
      if slot_in_use img then S (count_in_use rest) else count_in_use rest
  end.

(** The on-disk entry array: the sectors from [PartitionEntryLBA], laid end
    to end, cut into [numberOfEntries] records of [sizeOfEntry] bytes. *)
Definition entry_array (sect : nat -> list byte) (nsect : nat) : list byte :=
  List.concat (map sect (seq 0 nsect)).

Definition entry_slots (array : list byte) (sizeOfEntry : Z) (numberOfEntries : nat)
  : list (list byte) :=
  map (fun k => Raw.slice array (Z.of_nat k * sizeOfEntry) sizeOfEntry)
      (seq 0 numberOfEntries).

(** Number of sector reads for [n] entries packed [eps] to a sector. *)
Definition sectors_needed (n eps : Z) : Z := (n + eps - 1) / eps.

(** What the scan loops keep fixed: the reader, the header and the sector
    size. *)
Definition scanning (reader : SectorReader.t) (gptHeader : list byte) (bps : Z)
           (h : DriveHandler) : Prop :=
  sectorReader h = Some reader /\ gpt h = gptHeader /\ bytesPerSector h = bps.

(** A header announcing 4294967295 entries of 128 bytes from LBA 2, on a
    device with 512-byte sectors whose every read succeeds. *)
Definition endless_header : list byte := gpt_header_with [xff; xff; xff; xff].

Definition endless_handler : DriveHandler :=
  set_bytesPerSector 512 (set_gpt endless_header (with_reader zero_reader)).

Definition sample_gpt_handler : DriveHandler :=
  set_bytesPerSector 512 (set_gpt sample_gpt_header (with_reader sample_gpt_disk)).

Definition sample_gpt_sectors (t : nat) : list byte :=
  match t with
  | O => sample_gpt_entries
  | S _ => repeat x00 512
  end.

(** A header announcing 33554433 entries of 128 bytes from LBA 2, on a
    device with 512-byte sectors that are all zero except the one holding
    entry number 33554432 (sector 2 + 8388608), whose type GUID starts with
    a nonzero byte. *)
Definition wrapping_header : list byte := gpt_header_with [x01; x00; x00; x02].

Definition wrapping_sector : list byte := xff :: repeat x00 511.

Definition wrapping_disk : SectorReader.t :=
  {| SectorReader.readSector := fun sector size =>
       if sector =? 8388610 then Some wrapping_sector
       else Some (repeat x00 (Z.to_nat size));
     SectorReader.getBytesPerSector := Some 512 |}.

Definition wrapping_handler : DriveHandler :=
  set_bytesPerSector 512 (set_gpt wrapping_header (with_reader wrapping_disk)).

(** ** Vocabulary for the further properties *)

(** The value of a hexadecimal digit character, [None] for any other
    character. *)
Definition hex_value (c : byte) : option Z :=
  let v := Raw.byte_val c in
  if (48 <=? v) && (v <=? 57) then Some (v - 48)
  else if (97 <=? v) && (v <=? 102) then Some (v - 87)
  else None.

(** Reading a printed GUID back: two hexadecimal digits per byte, dashes
    skipped. *)
Fixpoint read_guid (fuel : nat) (s : list byte) : option (list byte) :=
  match fuel with
  | O => match s with [] => Some [] | _ => None end
  | S fuel' =>
      match s with
      | [] => Some []
      | c :: rest =>
          if Raw.byte_eqb c x2d then read_guid fuel' rest
          else match rest with
               | [] => None
               | d :: rest' =>
                   match hex_value c, hex_value d, read_guid fuel' rest' with
                   | Some hi, Some lo, Some bytes =>
                       match Byte.of_N (Z.to_N (16 * hi + lo)) with
                       | Some b => Some (b :: bytes)
                       | None => None
                       end
                   | _, _, _ => None
                   end
               end
      end
  end.

(** The reader a recovery run over a partition uses. *)
Definition MBR_partition_reader (path : wstring) (p : MBRPartitionEntry) : ReaderSpec :=
  PhysicalDriveReader path (StartLBA p).

Definition GPT_partition_reader (path : wstring) (p : GPTPartitionEntry) : ReaderSpec :=
  PhysicalDriveReader path (StartingLBA p).

(** A label field [begins] with a name when the name is followed by a
    space. *)
Definition label_begins (label : list byte) (name : string) : Prop :=
  firstn (S (List.length (Raw.of_string name))) label = Raw.of_string name ++ [x20].

(** Fixtures: a GPT disk whose sector size cannot be queried, a type GUID
    matching the first sample entry, engines that throw on one partition,
    and handlers of a given drive type. *)
Definition sample_gpt_disk_no_geometry : SectorReader.t :=
  {| SectorReader.readSector := SectorReader.readSector sample_gpt_disk;
     SectorReader.getBytesPerSector := None |}.

Definition sample_entry_GUID : list byte := xa2 :: repeat x00 15.

Definition throws_at (startSector : Z) (_ : Config) (r : ReaderSpec) : option string :=
  match r with
  | PhysicalDriveReader _ s => if s =? startSector then Some "engine failed"%string else None
  | LogicalDriveReader _ => None
  end.

Definition logical_on (r : SectorReader.t) : DriveHandler :=
  set_driveType LOGICAL_DRIVE (with_reader r).

Definition physical_on (r : SectorReader.t) : DriveHandler :=
  set_driveType PHYSICAL_DRIVE (with_reader r).

(** The sample GPT disk with the second sector of its entry array
    unreadable. *)
Definition sample_gpt_disk_bad_sector : SectorReader.t :=
  {| SectorReader.readSector := fun sector size =>
       if sector =? 3 then None else SectorReader.readSector sample_gpt_disk sector size;
     SectorReader.getBytesPerSector := Some 512 |}.

Definition sample_gpt_handler_bad_sector : DriveHandler :=
  set_bytesPerSector 512
    (set_gpt sample_gpt_header (with_reader sample_gpt_disk_bad_sector)).

(** A header announcing eight entries of 256 bytes from LBA 2, on a device
    with 512-byte sectors whose every read succeeds. *)
Definition oversized_entry_header : list byte :=
  firstn 84 sample_gpt_header ++ [x00; x01; x00; x00] ++ repeat x00 424.

Definition oversized_entry_handler : DriveHandler :=
  set_bytesPerSector 512 (set_gpt oversized_entry_header (with_reader zero_reader)).
(** * Properties *)

(** ** Drive classification *)

Lemma starts_with_spec pat : forall s,
  starts_with pat s = true <-> exists post, s = pat ++ post.
Proof.
  induction pat as [|p pat IH]; intros s; simpl.
  - split; [intros _; now exists s | reflexivity].
  - destruct s as [|c s].
    + split; [discriminate | intros [post E]; discriminate].
    + rewrite andb_true_iff, Z.eqb_eq, IH. split.
      * intros [-> [post ->]]. now exists post.
      * intros [post E]. inversion E; subst. split; [reflexivity | now exists post].
Qed.

Lemma find_spec pat : forall s,
  is_npos (find s pat) = false <-> mentions pat s.
Proof.
  induction s as [|c s IH].
  - simpl. destruct (starts_with pat []) eqn:E.
    + split; [intros _ | reflexivity].
      apply starts_with_spec in E as [post E]. now exists [], post.
    + split; [discriminate |].
      intros (pre & post & E'). exfalso.
      destruct pre; simpl in E'.
      * assert (starts_with pat [] = true) by (apply starts_with_spec; now exists post).
        congruence.
      * discriminate.
  - simpl. destruct (starts_with pat (c :: s)) eqn:E.
    + split; [intros _ | reflexivity].
      apply starts_with_spec in E as [post E]. now exists [], post.
    + split.
      * intros H. destruct (find s pat) eqn:F; [|discriminate].
        destruct (proj1 IH eq_refl) as (pre & post & ->).
        now exists (c :: pre), post.
      * intros (pre & post & E'). destruct pre as [|c' pre]; simpl in E'.
        -- assert (starts_with pat (c :: s) = true)
             by (apply starts_with_spec; now exists post).
           congruence.
        -- inversion E'; subst.
           assert (M : mentions pat (pre ++ pat ++ post)) by now exists pre, post.
           apply IH in M. now destruct (find (pre ++ pat ++ post) pat).
Qed.

Lemma mentions_length pat u : mentions pat u -> (List.length pat <= List.length u)%nat.
Proof. intros (pre & post & ->). rewrite !length_app. lia. Qed.

Lemma single_digit_test p :
  (size p =? 1)%nat && isdigit (at_ p 0) = true <-> single_digit p.
Proof.
  unfold single_digit, size, at_. rewrite andb_true_iff, Nat.eqb_eq. split.
  - intros [Hl Hd]. destruct p as [|d [|? ?]]; try discriminate.
    now exists d.
  - intros (d & -> & Hd). now split.
Qed.

Lemma last_char pre (d : wchar_t) :
  at_ (pre ++ [d]) (size (pre ++ [d]) - 1) = d.
Proof.
  unfold at_, size. rewrite length_app. simpl.
  replace (List.length pre + 1 - 1)%nat with (List.length pre) by lia.
  rewrite app_nth2 by lia. now rewrite Nat.sub_diag.
Qed.

Lemma ends_in_digit_test u :
  isdigit (at_ u (size u - 1)) = true <-> ends_in_digit u.
Proof.
  split.
  - intros H. destruct (@exists_last _ u) as (pre & d & ->).
    + intros ->. discriminate.
    + rewrite last_char in H. now exists pre, d.
  - intros (pre & d & -> & H). now rewrite last_char.
Qed.

Lemma letter_test iswalpha u :
  ((size u =? 1)%nat && iswalpha (at_ u 0))
  || ((size u =? 2)%nat && iswalpha (at_ u 0) && (at_ u 1 =? 58)) = true
  <-> letter_or_letter_colon iswalpha u.
Proof.
  unfold letter_or_letter_colon, size, at_. split.
  - intros H. apply orb_true_iff in H as [H|H].
    + apply andb_true_iff in H as [Hl Ha]. apply Nat.eqb_eq in Hl.
      destruct u as [|c [|? ?]]; try discriminate. exists c. auto.
    + apply andb_true_iff in H as [H Hc]. apply andb_true_iff in H as [Hl Ha].
      apply Nat.eqb_eq in Hl. apply Z.eqb_eq in Hc.
      destruct u as [|c [|c' [|? ?]]]; try discriminate. simpl in *. subst c'.
      exists c. auto.
  - intros (c & Ha & [-> | ->]); simpl; rewrite Ha; reflexivity.
Qed.


Section ClassifyProperties.

Variable towupper : wchar_t -> wchar_t.
Variable iswalpha : wchar_t -> bool.
Variable device : ReaderSpec -> SectorReader.t.

Lemma short_never_mentions (u : wstring) :
  (List.length u <= 2)%nat ->
  negb (is_npos (find u (L "PHYSICALDRIVE"))) = false.
Proof.
  intros Hl. destruct (is_npos (find u (L "PHYSICALDRIVE"))) eqn:E; [reflexivity|].
  apply find_spec, mentions_length in E. simpl in E. lia.
Qed.

Lemma DriveHandler_new_unknown (cfg : Config) (raw : DriveHandler) h0 :
  determineDriveType towupper iswalpha (drivePath cfg) h0 = (Returned UNKNOWN_DRIVE, h0) ->
  h0 = set_io [] (set_partitionsGPT [] (set_partitionsMBR []
         (set_sectorReader None (set_driveType UNKNOWN_DRIVE (set_config cfg raw))))) ->
  DriveHandler_new towupper iswalpha device cfg raw
  = (Thrown unknown_drive_message, h0).
Proof.
  intros E ->. unfold DriveHandler_new.
  unfold bind at 1. unfold get at 1. cbv beta iota.
  change (drivePath (config _)) with (drivePath cfg).
  unfold bind at 1. rewrite E. reflexivity.
Qed.

(** C1 (as the code has it). [determineDriveType] normalizes three input
    shapes: (a) a single decimal digit [d] becomes [\\.\PhysicalDrive<d>];
    (b) any other input whose upper-cased form contains [PHYSICALDRIVE] and
    ends in a digit [d] becomes [\\.\PhysicalDrive<d>]; (c) an input whose
    upper-cased form is a single letter [c], or [c] followed by a colon,
    becomes the logical volume [\\.\<c>:]. (d) Every other input is
    [UNKNOWN_DRIVE] with the configuration untouched, and the constructor
    then throws before any reader is constructed or used. *)
Theorem determineDriveType_shapes (p : wstring) (h : DriveHandler) :
  let u := map towupper p in
  let classify := determineDriveType towupper iswalpha p h in
  (forall d, p = [d] -> isdigit d = true ->
     classify = (Returned PHYSICAL_DRIVE, with_path (L "\\.\PhysicalDrive" ++ [d]) h))
  /\ (forall pre d, ~ single_digit p -> mentions (L "PHYSICALDRIVE") u ->
        u = pre ++ [d] -> isdigit d = true ->
        classify = (Returned PHYSICAL_DRIVE, with_path (L "\\.\PhysicalDrive" ++ [d]) h))
  /\ (forall c, ~ single_digit p -> iswalpha c = true -> u = [c] \/ u = [c; 58] ->
        classify = (Returned LOGICAL_DRIVE, with_path (L "\\.\" ++ [c; 58]) h))
  /\ (~ single_digit p -> ~ (mentions (L "PHYSICALDRIVE") u /\ ends_in_digit u) ->
      ~ letter_or_letter_colon iswalpha u ->
        classify = (Returned UNKNOWN_DRIVE, h)
        /\ forall cfg raw, drivePath cfg = p ->
             exists h', DriveHandler_new towupper iswalpha device cfg raw
                        = (Thrown unknown_drive_message, h')
                        /\ io h' = [] /\ sectorReader h' = None).
Proof.
  intros u classify.
  assert (T1 : ~ single_digit p -> (size p =? 1)%nat && isdigit (at_ p 0) = false).
  { intros N. destruct ((size p =? 1)%nat && isdigit (at_ p 0)) eqn:E; [|reflexivity].
    apply single_digit_test in E. contradiction. }
  repeat split.
  - intros d -> Hd. subst classify. unfold determineDriveType.
    assert (T : (size [d] =? 1)%nat && isdigit (at_ [d] 0) = true)
      by (apply single_digit_test; now exists d).
    rewrite T. reflexivity.
  - intros pre d N Hm Hu Hd. subst classify. unfold determineDriveType.
    rewrite (T1 N). fold u.
    assert (T2 : negb (is_npos (find u (L "PHYSICALDRIVE"))) = true)
      by (apply negb_true_iff, find_spec, Hm).
    rewrite T2, Hu, last_char, Hd. reflexivity.
  - intros c N Hc Hu. subst classify. unfold determineDriveType.
    rewrite (T1 N). fold u.
    rewrite short_never_mentions by (destruct Hu as [-> | ->]; simpl; lia).
    cbv beta iota. rewrite andb_false_l.
    assert (T3 : ((size u =? 1)%nat && iswalpha (at_ u 0))
                 || ((size u =? 2)%nat && iswalpha (at_ u 0) && (at_ u 1 =? 58)) = true)
      by (apply letter_test; exists c; auto).
    rewrite T3. destruct Hu as [-> | ->]; reflexivity.
  - subst classify. unfold determineDriveType. rewrite (T1 H). fold u.
    destruct (negb (is_npos (find u (L "PHYSICALDRIVE")))
              && isdigit (at_ u (size u - 1))) eqn:E2.
    { exfalso. apply H0. apply andb_true_iff in E2 as [A B]. split.
      - now apply find_spec, negb_true_iff.
      - now apply ends_in_digit_test. }
    destruct (((size u =? 1)%nat && iswalpha (at_ u 0))
              || ((size u =? 2)%nat && iswalpha (at_ u 0) && (at_ u 1 =? 58))) eqn:E3.
    { exfalso. apply H1. now apply letter_test. }
    reflexivity.
  - intros cfg raw Hp. eexists. split; [|split].
    + apply DriveHandler_new_unknown; [|reflexivity].
      rewrite Hp. unfold determineDriveType. rewrite (T1 H). fold u.
      destruct (negb (is_npos (find u (L "PHYSICALDRIVE")))
                && isdigit (at_ u (size u - 1))) eqn:E2.
      { exfalso. apply H0. apply andb_true_iff in E2 as [A B]. split.
        - now apply find_spec, negb_true_iff.
        - now apply ends_in_digit_test. }
      destruct (((size u =? 1)%nat && iswalpha (at_ u 0))
                || ((size u =? 2)%nat && iswalpha (at_ u 0) && (at_ u 1 =? 58))) eqn:E3.
      { exfalso. apply H1. now apply letter_test. }
      reflexivity.
    + reflexivity.
    + reflexivity.
Qed.

End ClassifyProperties.

Lemma determineDriveType_shapes_witness :
  determineDriveType towupper_C iswalpha_C (L "7") raw_storage
  = (Returned PHYSICAL_DRIVE, with_path (L "\\.\PhysicalDrive7") raw_storage)
  /\ determineDriveType towupper_C iswalpha_C (L "\\.\physicaldrive3") raw_storage
     = (Returned PHYSICAL_DRIVE, with_path (L "\\.\PhysicalDrive3") raw_storage)
  /\ determineDriveType towupper_C iswalpha_C (L "e:") raw_storage
     = (Returned LOGICAL_DRIVE, with_path (L "\\.\E:") raw_storage)
  /\ determineDriveType towupper_C iswalpha_C (L "disk") raw_storage
     = (Returned UNKNOWN_DRIVE, raw_storage).
Proof.
  split; [|split; [|split]].
  - apply (proj1 (determineDriveType_shapes towupper_C iswalpha_C zero_device
                    (L "7") raw_storage) 55); reflexivity.
  - apply (proj1 (proj2 (determineDriveType_shapes towupper_C iswalpha_C zero_device
                    (L "\\.\physicaldrive3") raw_storage))
             (L "\\.\PHYSICALDRIVE") 51).
    + intros (d & E & _). discriminate E.
    + exists (L "\\.\"), (L "3"). reflexivity.
    + reflexivity.
    + reflexivity.
  - apply (proj1 (proj2 (proj2 (determineDriveType_shapes towupper_C iswalpha_C
                    zero_device (L "e:") raw_storage))) 69).
    + intros (d & E & _). discriminate E.
    + reflexivity.
    + right. reflexivity.
  - apply (proj2 (proj2 (proj2 (determineDriveType_shapes towupper_C iswalpha_C
                    zero_device (L "disk") raw_storage)))).
    + intros (d & E & _). discriminate E.
    + intros [M _]. apply mentions_length in M. simpl in M. lia.
    + intros (c & _ & [E | E]); discriminate E.
Defined.

(** C1 as stated does not hold: [PhysicalDrive1] is neither a bare number
    nor a letter (with or without colon), yet it is accepted as a physical
    drive; and the bare number [12] is rejected. *)
Lemma determineDriveType_not_two_shapes :
  (~ bare_number (L "PhysicalDrive1")
   /\ ~ letter_or_letter_colon iswalpha_C (L "PhysicalDrive1")
   /\ exists h,
        DriveHandler_new towupper_C iswalpha_C zero_device
                         (config_for (L "PhysicalDrive1")) raw_storage
        = (Returned tt, h)
        /\ driveType h = PHYSICAL_DRIVE
        /\ drivePath (config h) = L "\\.\PhysicalDrive1")
  /\ (bare_number (L "12")
      /\ fst (DriveHandler_new towupper_C iswalpha_C zero_device
                               (config_for (L "12")) raw_storage)
         = Thrown unknown_drive_message).
Proof.
  split; [split; [|split]|split].
  - intros [_ D]. specialize (D 80). discriminate D. left. reflexivity.
  - intros (c & _ & [E | E]); discriminate E.
  - eexists. split; [vm_compute; reflexivity|]. split; reflexivity.
  - split; [discriminate|]. intros c [<- | [<- | []]]; reflexivity.
  - vm_compute. reflexivity.
Qed.

(** ** Raw bytes *)

Lemma byte_val_range b : 0 <= Raw.byte_val b < 256.
Proof.
  unfold Raw.byte_val. pose proof (Byte.to_N_bounded b). lia.
Qed.

Lemma byte_val_inj a b : Raw.byte_val a = Raw.byte_val b -> a = b.
Proof.
  unfold Raw.byte_val. intros E. apply N2Z.inj in E.
  pose proof (Byte.of_to_N a) as Ha. rewrite E, Byte.of_to_N in Ha. congruence.
Qed.

Lemma byte_eqb_eq a b : Raw.byte_eqb a b = true <-> a = b.
Proof.
  split; [apply Byte.byte_dec_bl | apply Byte.byte_dec_lb].
Qed.

Lemma bytes_eqb_eq : forall a b, Raw.bytes_eqb a b = true <-> a = b.
Proof.
  induction a as [|x a IH]; destruct b as [|y b]; simpl; try (split; congruence).
  rewrite andb_true_iff, byte_eqb_eq, IH. split.
  - intros [-> ->]. reflexivity.
  - intros E. inversion E. auto.
Qed.

Lemma bytes_at_length img off n : List.length (Raw.bytes_at img off n) = n.
Proof. unfold Raw.bytes_at. now rewrite length_map, length_seq. Qed.

Lemma le_uint_range : forall bs, 0 <= Raw.le_uint bs < 256 ^ Z.of_nat (List.length bs).
Proof.
  induction bs as [|b bs IH].
  - simpl. lia.
  - cbn [Raw.le_uint List.length]. rewrite Nat2Z.inj_succ, Z.pow_succ_r by lia.
    pose proof (byte_val_range b). lia.
Qed.

Lemma u8_range img off : 0 <= Raw.u8 img off < 2 ^ 8.
Proof.
  unfold Raw.u8. pose proof (le_uint_range (Raw.bytes_at img off 1)) as R.
  rewrite bytes_at_length in R. exact R.
Qed.

Lemma u16_range img off : 0 <= Raw.u16 img off < 2 ^ 16.
Proof.
  unfold Raw.u16. pose proof (le_uint_range (Raw.bytes_at img off 2)) as R.
  rewrite bytes_at_length in R. exact R.
Qed.

Lemma u32_range img off : 0 <= Raw.u32 img off < 2 ^ 32.
Proof.
  unfold Raw.u32. pose proof (le_uint_range (Raw.bytes_at img off 4)) as R.
  rewrite bytes_at_length in R. exact R.
Qed.

Lemma u64_range img off : 0 <= Raw.u64 img off < 2 ^ 64.
Proof.
  unfold Raw.u64. pose proof (le_uint_range (Raw.bytes_at img off 8)) as R.
  rewrite bytes_at_length in R. exact R.
Qed.

(** Reduce projections of updated states. *)
Ltac state_simpl :=
  cbn [config driveType sectorReader bytesPerSector mbr gpt bootSector
       fatStartSector dataStartSector rootDirCluster partitionsMBR partitionsGPT io
       uninitialized
       set_config set_driveType set_sectorReader set_bytesPerSector set_mbr set_gpt
       set_bootSector set_geometry set_partitionsMBR set_partitionsGPT set_io
       fst snd] in *.

(** Unfold the monad's primitives. *)
Ltac monad_unfold :=
  unfold emit, throw, fault, bind, ret, get, modify in *.

(** ** The sector-read wrapper *)

Section ReadSector.

Variables (h : DriveHandler) (reader : SectorReader.t) (sector size : Z).
Hypothesis reader_set : sectorReader h = Some reader.

Lemma readSector_ok buffer :
  SectorReader.readSector reader sector size = Some buffer ->
  readSector sector size h
  = (Returned buffer, set_io (io h ++ [EvReadSector sector size]) h).
Proof.
  intros E. unfold readSector, bind, get, emit, modify, ret. cbn.
  rewrite reader_set. cbn. now rewrite E.
Qed.

Lemma readSector_fail :
  SectorReader.readSector reader sector size = None ->
  readSector sector size h
  = (Thrown "Cannot read sector.", set_io (io h ++ [EvReadSector sector size]) h).
Proof.
  intros E. unfold readSector, bind, get, emit, modify, throw. cbn.
  rewrite reader_set. cbn. now rewrite E.
Qed.

(** C9. With a reader in place, the wrapper throws exactly when the reader's
    [readSector] reports failure, handing no buffer contents to its caller;
    when the reader reports success the wrapper returns normally with the
    bytes the reader stored. Either way the object is left as it was, apart
    from the record of the read. *)
Theorem readSector_throws_iff_reader_fails :
  let h' := set_io (io h ++ [EvReadSector sector size]) h in
  (SectorReader.readSector reader sector size = None ->
     readSector sector size h = (Thrown "Cannot read sector.", h'))
  /\ (forall buffer, SectorReader.readSector reader sector size = Some buffer ->
        readSector sector size h = (Returned buffer, h'))
  /\ (forall what h1, readSector sector size h = (Thrown what, h1) ->
        SectorReader.readSector reader sector size = None)
  /\ (forall buffer h1, readSector sector size h = (Returned buffer, h1) ->
        SectorReader.readSector reader sector size = Some buffer).
Proof.
  intros h'. repeat split.
  - apply readSector_fail.
  - apply readSector_ok.
  - intros what h1 E.
    destruct (SectorReader.readSector reader sector size) as [b|] eqn:R; [|reflexivity].
    rewrite (readSector_ok b R) in E. discriminate.
  - intros buffer h1 E.
    destruct (SectorReader.readSector reader sector size) as [b|] eqn:R.
    + rewrite (readSector_ok b R) in E. congruence.
    + rewrite (readSector_fail R) in E. discriminate.
Qed.

End ReadSector.


Lemma readSector_throws_iff_reader_fails_witness :
  readSector 7 512 (set_sectorReader (Some failing_reader) raw_storage)
  = (Thrown "Cannot read sector.",
     set_io [EvReadSector 7 512] (set_sectorReader (Some failing_reader) raw_storage))
  /\ readSector 7 2 (set_sectorReader (Some zero_reader) raw_storage)
     = (Returned [x00; x00],
        set_io [EvReadSector 7 2] (set_sectorReader (Some zero_reader) raw_storage)).
Proof.
  split.
  - apply (proj1 (readSector_throws_iff_reader_fails
                    (set_sectorReader (Some failing_reader) raw_storage)
                    failing_reader 7 512 eq_refl)).
    reflexivity.
  - apply (proj1 (proj2 (readSector_throws_iff_reader_fails
                    (set_sectorReader (Some zero_reader) raw_storage)
                    zero_reader 7 2 eq_refl))).
    reflexivity.
Defined.

(** ** Partition-scheme detection *)

Lemma isMBR_test sector0 :
  (MBRHeader.signature sector0 =? 0xAA55) = true <-> MBR_signature_valid sector0.
Proof.
  unfold MBRHeader.signature, MBR_signature_valid, Raw.u16, Raw.bytes_at.
  cbn [seq map Raw.le_uint]. rewrite Z.eqb_eq.
  replace (510 + 0)%nat with 510%nat by lia.
  replace (510 + 1)%nat with 511%nat by lia.
  pose proof (byte_val_range (nth 510 sector0 x00)) as R0.
  pose proof (byte_val_range (nth 511 sector0 x00)) as R1.
  split.
  - intros E. split; apply byte_val_inj.
    + change (Raw.byte_val x55) with 85. lia.
    + change (Raw.byte_val xaa) with 170. lia.
  - intros [-> ->]. reflexivity.
Qed.

Lemma isGPT_test sector1 :
  Raw.bytes_eqb (GPTHeader.Signature sector1) (firstn 8 (Raw.of_string "EFI PART")) = true
  <-> GPT_signature_valid sector1.
Proof.
  rewrite bytes_eqb_eq. unfold GPT_signature_valid, GPTHeader.Signature, Raw.bytes_at.
  change (firstn 8 (Raw.of_string "EFI PART")) with (Raw.of_string "EFI PART").
  destruct sector1 as [|a0 [|a1 [|a2 [|a3 [|a4 [|a5 [|a6 [|a7 rest]]]]]]]];
    cbn; split; intros E; inversion E; reflexivity.
Qed.

Section Scheme.

Variables (h : DriveHandler) (reader : SectorReader.t) (sector0 sector1 : list byte).
Hypothesis reader_set : sectorReader h = Some reader.
Hypothesis read0 : SectorReader.readSector reader 0 MBRHeader.sizeof = Some sector0.
Hypothesis read1 : SectorReader.readSector reader 1 GPTHeader.sizeof = Some sector1.

Lemma getPartitionScheme_run :
  getPartitionScheme h
  = (Returned
       (if Raw.bytes_eqb (GPTHeader.Signature sector1)
                         (firstn 8 (Raw.of_string "EFI PART"))
        then GPT_SCHEME
        else if MBRHeader.signature sector0 =? 0xAA55 then MBR_SCHEME
             else UNKNOWN_SCHEME),
     (after_probe h sector0 sector1)).
Proof.
  unfold getPartitionScheme, readMBR, readGPT.
  unfold bind at 1. unfold bind at 1.
  rewrite (readSector_ok h reader 0 MBRHeader.sizeof reader_set sector0 read0).
  unfold modify at 1.
  unfold bind at 1. unfold bind at 1.
  erewrite readSector_ok; [| exact reader_set | exact read1].
  unfold isGPT, isMBR. monad_unfold. unfold after_probe. state_simpl.
  change MBRHeader.sizeof with 512. change GPTHeader.sizeof with 512.
  rewrite <- app_assoc. cbn [app].
  destruct (Raw.bytes_eqb _ _); [reflexivity|]. state_simpl.
  destruct (MBRHeader.signature sector0 =? 43605); reflexivity.
Qed.

(** C2. When sectors 0 and 1 can be read, scheme detection reads exactly
    those two sectors, sector 0 then sector 1, and answers GPT when sector 1
    starts with the eight ASCII bytes EFI PART (whatever sector 0 holds),
    MBR when it does not and sector 0 ends with the bytes 55 AA, and Unknown
    when neither signature is there. *)
Theorem getPartitionScheme_spec :
  exists scheme h',
    getPartitionScheme h = (Returned scheme, h')
    /\ io h' = io h ++ [EvReadSector 0 MBRHeader.sizeof; EvReadSector 1 GPTHeader.sizeof]
    /\ sectors_read (io h') = sectors_read (io h) ++ [0; 1]
    /\ mbr h' = sector0 /\ gpt h' = sector1
    /\ (GPT_signature_valid sector1 -> scheme = GPT_SCHEME)
    /\ (~ GPT_signature_valid sector1 -> MBR_signature_valid sector0 ->
        scheme = MBR_SCHEME)
    /\ (~ GPT_signature_valid sector1 -> ~ MBR_signature_valid sector0 ->
        scheme = UNKNOWN_SCHEME).
Proof.
  eexists. exists (after_probe h sector0 sector1). split; [apply getPartitionScheme_run|].
  split; [reflexivity|].
  split.
  { unfold after_probe, sectors_read. state_simpl.
    now rewrite flat_map_app. }
  split; [reflexivity|]. split; [reflexivity|].
  destruct (Raw.bytes_eqb _ _) eqn:G.
  - apply isGPT_test in G. repeat split; intros; try reflexivity; contradiction.
  - assert (NG : ~ GPT_signature_valid sector1).
    { intros V. apply isGPT_test in V. congruence. }
    destruct (MBRHeader.signature sector0 =? 0xAA55) eqn:Mb.
    + apply isMBR_test in Mb. repeat split; intros; try reflexivity; contradiction.
    + assert (NM : ~ MBR_signature_valid sector0).
      { intros V. apply isMBR_test in V. congruence. }
      repeat split; intros; try reflexivity; contradiction.
Qed.

End Scheme.

Lemma getPartitionScheme_spec_witness :
  exists h',
    getPartitionScheme (with_reader sample_gpt_disk) = (Returned GPT_SCHEME, h')
    /\ MBR_signature_valid sample_protective_mbr
    /\ sectors_read (io h') = [0; 1].
Proof.
  destruct (getPartitionScheme_spec (with_reader sample_gpt_disk) sample_gpt_disk
              sample_protective_mbr sample_gpt_header eq_refl eq_refl eq_refl)
    as (scheme & h' & Run & _ & Reads & _ & _ & G & _).
  exists h'. rewrite Run, (G eq_refl). repeat split. exact Reads.
Defined.

(** ** MBR partition table *)

Lemma for_each_MBR_slots : forall (l : list nat) (h : DriveHandler),
  for_each l (fun i =>
    entry <- get (fun h => MBRHeader.PartitionTable (mbr h) i) ;;
    if negb (TotalSectors entry =? 0) then
      modify (fun h => set_partitionsMBR (partitionsMBR h ++ [entry]) h)
    else ret tt) h
  = (Returned tt,
     set_partitionsMBR
       (partitionsMBR h
        ++ filter MBR_slot_present (map (MBRHeader.PartitionTable (mbr h)) l)) h).
Proof.
  induction l as [|i l IH]; intros h.
  - cbn. rewrite app_nil_r. destruct h; reflexivity.
  - cbn [for_each map filter]. unfold bind at 1. unfold bind at 1. unfold get at 1.
    unfold MBR_slot_present at 1.
    destruct (negb (TotalSectors (MBRHeader.PartitionTable (mbr h) i) =? 0)).
    + unfold modify at 1. rewrite IH. state_simpl.
      rewrite <- app_assoc. reflexivity.
    + unfold ret at 1. apply IH.
Qed.

Lemma count_present_filter slots :
  List.length (filter MBR_slot_present slots) = count_present slots.
Proof.
  induction slots as [|e slots IH]; [reflexivity|].
  cbn [filter count_present]. unfold MBR_slot_present at 1.
  destruct (Z.eq_dec (TotalSectors e) 0) as [E|N].
  - rewrite E. cbn. exact IH.
  - apply Z.eqb_neq in N. rewrite N. cbn. now rewrite IH.
Qed.

Lemma count_present_absent slots :
  (count_present slots + count_absent slots = List.length slots)%nat.
Proof.
  induction slots as [|e slots IH]; [reflexivity|].
  cbn [count_present count_absent List.length].
  destruct (Z.eq_dec (TotalSectors e) 0); lia.
Qed.

(** C5. [getMBRPartitions] appends to [partitionsMBR] exactly the slots of
    the four-slot table whose total-sector field is nonzero, in table order:
    with N such slots and 4 - N slots whose field is zero it adds N entries,
    none of them with a zero sector count, and leaves out no slot with a
    nonzero one. *)
Theorem getMBRPartitions_spec (h : DriveHandler) :
  let slots := MBR_slots (mbr h) in
  let found := filter MBR_slot_present slots in
  getMBRPartitions h = (Returned tt, set_partitionsMBR (partitionsMBR h ++ found) h)
  /\ List.length slots = 4%nat
  /\ List.length found = count_present slots
  /\ count_absent slots = (4 - count_present slots)%nat
  /\ Forall (fun e => TotalSectors e <> 0) found
  /\ (forall e, In e slots -> TotalSectors e <> 0 -> In e found).
Proof.
  intros slots found. split; [apply for_each_MBR_slots|].
  split; [reflexivity|].
  split; [apply count_present_filter|].
  split.
  { pose proof (count_present_absent slots) as E.
    change (List.length slots) with 4%nat in E. lia. }
  split.
  - apply Forall_forall. intros e He. apply filter_In in He as [_ P].
    unfold MBR_slot_present in P. apply negb_true_iff, Z.eqb_neq in P. exact P.
  - intros e He Ne. apply filter_In. split; [exact He|].
    unfold MBR_slot_present. now apply negb_true_iff, Z.eqb_neq.
Qed.

(** ** Boot-sector geometry *)

Section BootSectorGeometry.

Variables (h : DriveHandler) (reader : SectorReader.t) (sector : Z) (bs : list byte).
Hypothesis reader_set : sectorReader h = Some reader.
Hypothesis read_ok : SectorReader.readSector reader sector 512 = Some bs.

Lemma readBootSector_run :
  readBootSector sector h = (Returned tt, after_boot_sector h sector bs).
Proof.
  unfold readBootSector. unfold bind at 1.
  rewrite (readSector_ok h reader sector 512 reader_set bs read_ok).
  reflexivity.
Qed.

Lemma getFSTypeFromBootSector_run :
  getFSTypeFromBootSector sector h
  = (Returned (code_identify (BootSector.FileSystemType bs)),
     after_boot_sector h sector bs).
Proof.
  unfold getFSTypeFromBootSector. unfold bind at 1. rewrite readBootSector_run.
  unfold bind at 1, get at 1. state_simpl.
  unfold code_identify, code_trim_label.
  destruct (Str.eq_lit _ "FAT32"); [reflexivity|].
  destruct (Str.eq_lit _ "NTFS"); [reflexivity|].
  destruct (Str.eq_lit _ "exFAT"); [reflexivity|].
  destruct (Str.eq_lit _ "EXT4"); reflexivity.
Qed.

End BootSectorGeometry.

(** C6 (as the code has it). A boot-sector parse whose read succeeds ends with
    [fatStartSector = ReservedSectorCount] and
    [dataStartSector = fatStartSector + NumFATs * FATSize32] in the 32-bit
    unsigned arithmetic of these members (as integers whenever the sum fits
    32 bits). Both values are functions of the bytes just read alone: a
    parse of the same bytes from any other handler state, whatever geometry
    it held before, ends with the same two values. *)
Theorem readBootSector_geometry
  (h : DriveHandler) (reader : SectorReader.t) (sector : Z) (bs : list byte) :
  sectorReader h = Some reader ->
  SectorReader.readSector reader sector 512 = Some bs ->
  exists h',
    readBootSector sector h = (Returned tt, h')
    /\ bootSector h' = bs
    /\ fatStartSector h' = BootSector.ReservedSectorCount bs
    /\ dataStartSector h'
       = wrap32 (fatStartSector h' + BootSector.NumFATs bs * BootSector.FATSize32 bs)
    /\ (fatStartSector h' + BootSector.NumFATs bs * BootSector.FATSize32 bs < 2 ^ 32 ->
        dataStartSector h'
        = fatStartSector h' + BootSector.NumFATs bs * BootSector.FATSize32 bs)
    /\ (forall h2 reader2 sector2,
          sectorReader h2 = Some reader2 ->
          SectorReader.readSector reader2 sector2 512 = Some bs ->
          exists h2',
            readBootSector sector2 h2 = (Returned tt, h2')
            /\ fatStartSector h2' = fatStartSector h'
            /\ dataStartSector h2' = dataStartSector h').
Proof.
  intros Hr Hb. exists (after_boot_sector h sector bs).
  split; [now apply readBootSector_run with (reader := reader)|].
  unfold after_boot_sector. state_simpl.
  split; [reflexivity|]. split; [reflexivity|].
  assert (W : wrap32 (BootSector.ReservedSectorCount bs
                      + wrap32 (BootSector.NumFATs bs * BootSector.FATSize32 bs))
              = wrap32 (BootSector.ReservedSectorCount bs
                        + BootSector.NumFATs bs * BootSector.FATSize32 bs)).
  { unfold wrap32. now rewrite Zplus_mod_idemp_r. }
  split; [exact W|].
  split.
  - intros Fit. rewrite W. unfold wrap32. apply Z.mod_small.
    pose proof (u16_range bs 14) as R1. pose proof (u8_range bs 16) as R2.
    pose proof (u32_range bs 36) as R3.
    unfold BootSector.ReservedSectorCount, BootSector.NumFATs, BootSector.FATSize32 in *.
    split; [nia | exact Fit].
  - intros h2 reader2 sector2 Hr2 Hb2. exists (after_boot_sector h2 sector2 bs).
    split; [now apply readBootSector_run with (reader := reader2)|].
    unfold after_boot_sector. state_simpl. split; reflexivity.
Qed.

Lemma readBootSector_geometry_witness :
  exists h',
    readBootSector 0 (with_reader (sample_volume (Raw.of_string "FAT32   ")))
    = (Returned tt, h')
    /\ fatStartSector h' = 32 /\ dataStartSector h' = 32 + 2 * 1009.
Proof.
  destruct (readBootSector_geometry
              (with_reader (sample_volume (Raw.of_string "FAT32   ")))
              (sample_volume (Raw.of_string "FAT32   ")) 0
              (sample_boot_sector (Raw.of_string "FAT32   ")) eq_refl eq_refl)
    as (h' & Run & _ & Fat & _ & Data & _).
  exists h'. split; [exact Run|]. split.
  - rewrite Fat. reflexivity.
  - rewrite Data; [rewrite Fat; reflexivity|]. rewrite Fat. vm_compute. reflexivity.
Defined.

(** C6 as stated does not hold: with two FATs of 2147483648 sectors the
    32-bit product wraps to zero, and the parse ends with [dataStartSector]
    equal to [fatStartSector], not to the sum. *)
Lemma readBootSector_sum_wraps :
  exists h',
    readBootSector 0 (with_reader oversized_fat_volume) = (Returned tt, h')
    /\ fatStartSector h' = 32
    /\ BootSector.NumFATs (bootSector h') = 2
    /\ BootSector.FATSize32 (bootSector h') = 2147483648
    /\ dataStartSector h' = 32
    /\ dataStartSector h'
       <> fatStartSector h'
          + BootSector.NumFATs (bootSector h') * BootSector.FATSize32 (bootSector h').
Proof.
  eexists. split.
  - apply readBootSector_run with (reader := oversized_fat_volume); reflexivity.
  - repeat split; try (vm_compute; reflexivity). vm_compute. discriminate.
Qed.

(** ** Filesystem identification *)

Lemma c_str_space_NUL : Str.c_str [x20; x00] = [x20].
Proof. reflexivity. Qed.

Lemma code_trim_label_spaces_only : forall label,
  code_trim_label label = cut_at_space label.
Proof.
  unfold code_trim_label. rewrite c_str_space_NUL.
  induction label as [|b rest IH]; [reflexivity|].
  cbn [Str.find_first_of existsb cut_at_space]. rewrite orb_false_r.
  destruct (Raw.byte_eqb b x20); [reflexivity|].
  rewrite <- IH. destruct (Str.find_first_of rest [x20]) as [n|]; reflexivity.
Qed.

(** On labels without a NUL byte the code and the specification agree. *)
Lemma code_identify_NUL_free label :
  Forall (fun b => b <> x00) label -> code_identify label = spec_identify label.
Proof.
  intros NF. unfold code_identify, spec_identify.
  assert (T : code_trim_label label = spec_trim_label label).
  { rewrite code_trim_label_spaces_only.
    induction NF as [|b rest Hb _ IH]; [reflexivity|].
    cbn [spec_trim_label cut_at_space].
    assert (Z0 : Raw.byte_eqb b x00 = false).
    { destruct (Raw.byte_eqb b x00) eqn:E; [|reflexivity].
      apply byte_eqb_eq in E. contradiction. }
    rewrite Z0, orb_false_r. destruct (Raw.byte_eqb b x20); [reflexivity|].
    now rewrite IH. }
  rewrite T. reflexivity.
Qed.

(** C3 at a NUL-padded label. For a boot sector whose label field holds NTFS
    followed by four NUL bytes, the specification's trimming (first space or
    NUL) gives NTFS, but [getFSTypeFromBootSector] returns [UNKNOWN_TYPE]:
    the search set passed to [find_first_of] is the C string before the
    literal's NUL, that is the space alone, so the label is not cut and
    compares unequal to every name. The same label padded with spaces is
    identified. *)
Theorem getFSTypeFromBootSector_NUL_padded_label :
  let label := Raw.of_string "NTFS" ++ [x00; x00; x00; x00] in
  spec_identify label = NTFS_TYPE
  /\ fst (getFSTypeFromBootSector 0 (with_reader (sample_volume label)))
     = Returned UNKNOWN_TYPE
  /\ fst (getFSTypeFromBootSector 0
            (with_reader (sample_volume (Raw.of_string "NTFS    "))))
     = Returned NTFS_TYPE.
Proof.
  cbv zeta. split; [reflexivity|]. split.
  - erewrite getFSTypeFromBootSector_run; [| reflexivity | reflexivity].
    reflexivity.
  - erewrite getFSTypeFromBootSector_run; [| reflexivity | reflexivity].
    reflexivity.
Qed.

(** ** Recovery pass over a partition list *)

Lemma for_each_ext {A} (f g : A -> M unit) :
  (forall x h, f x h = g x h) ->
  forall l h, for_each l f h = for_each l g h.
Proof.
  intros E. induction l as [|x l IH]; intros h; [reflexivity|].
  cbn [for_each]. unfold bind. rewrite E.
  destruct (g x h) as [[[]| | |] h1]; [apply IH | reflexivity | reflexivity | reflexivity].
Qed.

Section RecoveryPass.

Variable FAT32Recovery_run : Config -> ReaderSpec -> option string.
Variable FilesystemType_value : FilesystemType -> Z.
Variable GUID_FAT32_TYPE : list byte.

Lemma runFAT32Recovery_returns (r : ReaderSpec) (h : DriveHandler) :
  FAT32Recovery_run (config h) r = None ->
  runFAT32Recovery FAT32Recovery_run r h
  = (Returned tt, set_io (io h ++ recovery_events r) h).
Proof.
  intros E. unfold runFAT32Recovery. monad_unfold. state_simpl.
  rewrite E. unfold recovery_events. now rewrite <- app_assoc.
Qed.

(** A pass that recovers the selected partitions and skips the others. *)
Lemma for_each_recovery {A} (sel : A -> bool) (lba : A -> Z) :
  forall (parts : list A) (h : DriveHandler),
    (forall p, In p parts -> sel p = true ->
       FAT32Recovery_run (config h)
         (PhysicalDriveReader (drivePath (config h)) (lba p)) = None) ->
    for_each parts (fun partition =>
      if sel partition then
        p <- get (fun h => drivePath (config h)) ;;
        runFAT32Recovery FAT32Recovery_run (PhysicalDriveReader p (lba partition))
      else ret tt) h
    = (Returned tt,
       set_io (io h ++ flat_map (fun p =>
                 if sel p
                 then recovery_events (PhysicalDriveReader (drivePath (config h)) (lba p))
                 else []) parts) h).
Proof.
  induction parts as [|x parts IH]; intros h Ok.
  - cbn. rewrite app_nil_r. destruct h; reflexivity.
  - cbn [for_each flat_map]. unfold bind at 1.
    destruct (sel x) eqn:S.
    + unfold bind at 1, get at 1.
      rewrite runFAT32Recovery_returns by (apply Ok; [now left | exact S]).
      rewrite IH.
      * state_simpl. now rewrite <- app_assoc.
      * intros p Hp Sp. state_simpl. apply Ok; [now right | exact Sp].
    + unfold ret at 1. rewrite IH.
      * reflexivity.
      * intros p Hp Sp. apply Ok; [now right | exact Sp].
Qed.

Lemma recovery_runs_pass {A} (sel : A -> bool) (rd : A -> ReaderSpec) :
  forall parts : list A,
    recovery_runs (flat_map (fun p => if sel p then recovery_events (rd p) else []) parts)
    = map rd (filter sel parts).
Proof.
  induction parts as [|x parts IH]; [reflexivity|].
  cbn [flat_map filter]. unfold recovery_runs in *. rewrite flat_map_app, IH.
  destruct (sel x); reflexivity.
Qed.

(** C7. In a recovery pass where every run of the recovery engine returns,
    the engine is run exactly on the partitions that resolve to FAT32 (MBR:
    the type byte is the [FAT32_TYPE] value; GPT: the type GUID is
    [GUID_FAT32_TYPE]), in list order and each at its start LBA; every other
    partition is passed over, the pass goes on to the partitions after it,
    and the pass returns normally. *)
Theorem recoverFromPhysicalDriveFAT32_only_FAT32 (h : DriveHandler) :
  let path := drivePath (config h) in
  let run scheme :=
    recoverFromPhysicalDriveFAT32 FAT32Recovery_run FilesystemType_value
                                  GUID_FAT32_TYPE scheme h in
  ((forall p, In p (partitionsMBR h) ->
      MBR_is_FAT32 (FilesystemType_value FAT32_TYPE) p = true ->
      FAT32Recovery_run (config h) (PhysicalDriveReader path (StartLBA p)) = None) ->
   exists h',
     run MBR_SCHEME = (Returned tt, h')
     /\ recovery_runs (io h')
        = recovery_runs (io h)
          ++ map (fun p => PhysicalDriveReader path (StartLBA p))
                 (filter (MBR_is_FAT32 (FilesystemType_value FAT32_TYPE))
                         (partitionsMBR h)))
  /\ ((forall p, In p (partitionsGPT h) ->
         GPT_is_FAT32 GUID_FAT32_TYPE p = true ->
         FAT32Recovery_run (config h) (PhysicalDriveReader path (StartingLBA p)) = None) ->
      exists h',
        run GPT_SCHEME = (Returned tt, h')
        /\ recovery_runs (io h')
           = recovery_runs (io h)
             ++ map (fun p => PhysicalDriveReader path (StartingLBA p))
                    (filter (GPT_is_FAT32 GUID_FAT32_TYPE) (partitionsGPT h))).
Proof.
  intros path run. split; intros Ok; subst run; cbv beta.
  - eexists. split.
    + unfold recoverFromPhysicalDriveFAT32. unfold bind at 1, get at 1.
      apply (for_each_recovery (MBR_is_FAT32 (FilesystemType_value FAT32_TYPE))
                               StartLBA (partitionsMBR h) h Ok).
    + state_simpl. unfold recovery_runs at 1. rewrite flat_map_app.
      fold (recovery_runs (io h)). f_equal.
      apply (recovery_runs_pass (MBR_is_FAT32 (FilesystemType_value FAT32_TYPE))
               (fun p => PhysicalDriveReader path (StartLBA p))).
  - eexists. split.
    + unfold recoverFromPhysicalDriveFAT32. unfold bind at 1, get at 1.
      assert (Sel : forall p,
                 FilesystemType_eqb
                   (getFSTypeFromGPTPartition GUID_FAT32_TYPE (PartitionTypeGUID p))
                   FAT32_TYPE
                 = GPT_is_FAT32 GUID_FAT32_TYPE p).
      { intros p. unfold getFSTypeFromGPTPartition, GPT_is_FAT32.
        destruct (Raw.bytes_eqb _ _); reflexivity. }
      rewrite <- (for_each_recovery (GPT_is_FAT32 GUID_FAT32_TYPE)
                    StartingLBA (partitionsGPT h) h Ok).
      apply for_each_ext. intros x h0. rewrite Sel. reflexivity.
    + state_simpl. unfold recovery_runs at 1. rewrite flat_map_app.
      fold (recovery_runs (io h)). f_equal.
      apply (recovery_runs_pass (GPT_is_FAT32 GUID_FAT32_TYPE)
               (fun p => PhysicalDriveReader path (StartingLBA p))).
Qed.

End RecoveryPass.

Lemma recoverFromPhysicalDriveFAT32_only_FAT32_witness :
  (exists h',
     recoverFromPhysicalDriveFAT32 always_returns sample_FilesystemType_value
       sample_GUID_FAT32_TYPE MBR_SCHEME sample_partitioned = (Returned tt, h')
     /\ recovery_runs (io h') = [PhysicalDriveReader [] 8; PhysicalDriveReader [] 200])
  /\ (exists h',
        recoverFromPhysicalDriveFAT32 always_returns sample_FilesystemType_value
          sample_GUID_FAT32_TYPE GPT_SCHEME sample_partitioned = (Returned tt, h')
        /\ recovery_runs (io h')
           = [PhysicalDriveReader [] 2048; PhysicalDriveReader [] 8192]).
Proof.
  pose proof (recoverFromPhysicalDriveFAT32_only_FAT32 always_returns
                sample_FilesystemType_value sample_GUID_FAT32_TYPE sample_partitioned)
    as [Mbr Gpt].
  split.
  - destruct Mbr as (h' & Run & Runs); [reflexivity|].
    exists h'. split; [exact Run | exact Runs].
  - destruct Gpt as (h' & Run & Runs); [reflexivity|].
    exists h'. split; [exact Run | exact Runs].
Defined.

(** ** Unknown partition scheme *)

Section UnknownScheme.

Variable FAT32Recovery_run : Config -> ReaderSpec -> option string.
Variable FilesystemType_value : FilesystemType -> Z.
Variable GUID_FAT32_TYPE : list byte.

(** C8. On a physical drive whose sectors 0 and 1 can be read and carry
    neither the MBR nor the GPT signature, [recoverDrive] returns normally
    after the two probe reads: both partition lists are as they were, no
    reader is constructed, no recovery run is started, and nothing is
    thrown. *)
Theorem recoverDrive_unknown_scheme
  (h : DriveHandler) (reader : SectorReader.t) (sector0 sector1 : list byte)
  (fuel : nat) :
  driveType h = PHYSICAL_DRIVE ->
  sectorReader h = Some reader ->
  SectorReader.readSector reader 0 MBRHeader.sizeof = Some sector0 ->
  SectorReader.readSector reader 1 GPTHeader.sizeof = Some sector1 ->
  ~ MBR_signature_valid sector0 ->
  ~ GPT_signature_valid sector1 ->
  exists h',
    recoverDrive FAT32Recovery_run FilesystemType_value GUID_FAT32_TYPE fuel h
    = (Returned tt, h')
    /\ partitionsMBR h' = partitionsMBR h
    /\ partitionsGPT h' = partitionsGPT h
    /\ io h' = io h ++ [EvReadSector 0 MBRHeader.sizeof; EvReadSector 1 GPTHeader.sizeof]
    /\ recovery_runs (io h') = recovery_runs (io h)
    /\ readers_opened (io h') = readers_opened (io h).
Proof.
  intros Dt Hr R0 R1 NM NG. exists (after_probe h sector0 sector1).
  split.
  - unfold recoverDrive. unfold bind at 1, get at 1. rewrite Dt.
    unfold bind at 1.
    rewrite (getPartitionScheme_run h reader sector0 sector1 Hr R0 R1).
    destruct (Raw.bytes_eqb _ _) eqn:G.
    { apply isGPT_test in G. contradiction. }
    destruct (MBRHeader.signature sector0 =? 0xAA55) eqn:Mb.
    { apply isMBR_test in Mb. contradiction. }
    reflexivity.
  - unfold after_probe. state_simpl. repeat split.
    + unfold recovery_runs. rewrite flat_map_app. cbn. now rewrite app_nil_r.
    + unfold readers_opened. rewrite flat_map_app. cbn. now rewrite app_nil_r.
Qed.

End UnknownScheme.

Lemma recoverDrive_unknown_scheme_witness :
  exists h',
    recoverDrive always_returns sample_FilesystemType_value sample_GUID_FAT32_TYPE 0
                 (set_driveType PHYSICAL_DRIVE (with_reader zero_reader))
    = (Returned tt, h')
    /\ partitionsMBR h' = [] /\ partitionsGPT h' = []
    /\ io h' = [EvReadSector 0 512; EvReadSector 1 512].
Proof.
  destruct (recoverDrive_unknown_scheme always_returns sample_FilesystemType_value
              sample_GUID_FAT32_TYPE
              (set_driveType PHYSICAL_DRIVE (with_reader zero_reader)) zero_reader
              (repeat x00 512) (repeat x00 512) 0%nat
              eq_refl eq_refl eq_refl eq_refl)
    as (h' & Run & Pm & Pg & Io & _).
  - intros [E _]. discriminate E.
  - intros E. discriminate E.
  - exists h'. repeat split; assumption.
Defined.

(** ** GPT partition entries *)

Lemma after_scan_nil h : after_scan [] [] h = h.
Proof. unfold after_scan. destruct h; cbn. now rewrite !app_nil_r. Qed.

Lemma after_scan_compose f1 r1 f2 r2 h :
  after_scan f2 r2 (after_scan f1 r1 h) = after_scan (f1 ++ f2) (r1 ++ r2) h.
Proof. unfold after_scan. state_simpl. now rewrite !app_assoc. Qed.

Lemma bind_get {A B} (f : DriveHandler -> A) (k : A -> M B) h :
  bind (get f) k h = k (f h) h.
Proof. reflexivity. Qed.

(** A copy of exactly the size of the object replaces all of it. *)
Lemma memcpy_partitionEntry_whole before src :
  memcpy_partitionEntry before src sizeof_GPTPartitionEntry = src.
Proof.
  unfold memcpy_partitionEntry.
  rewrite skipn_all2 by (rewrite bytes_at_length; apply Nat.le_refl).
  apply app_nil_r.
Qed.

(** With entries of the size of the entry object, the inner loop returns
    and appends the in-use entries of the sector buffer. *)
Lemma getGPTPartitions_entries_run : forall n i j sizeOfEntry sectorBuffer h,
  sizeOfEntry = sizeof_GPTPartitionEntry ->
  getGPTPartitions_entries n i j sizeOfEntry sectorBuffer h
  = (Returned tt,
     after_scan (entries_in_sector n i j sizeOfEntry sectorBuffer
                   (GPTHeader.NumberOfEntries (gpt h))) [] h).
Proof.
  induction n as [|n IH]; intros i j sizeOfEntry sectorBuffer h Size.
  - cbn. now rewrite after_scan_nil.
  - subst sizeOfEntry. cbn [getGPTPartitions_entries entries_in_sector].
    rewrite bind_get.
    destruct (wrap32 (i + j) <? GPTHeader.NumberOfEntries (gpt h)).
    + rewrite Z.ltb_irrefl, bind_get, memcpy_partitionEntry_whole.
      unfold bind at 1. unfold entry_if_present.
      destruct (negb (isEmptyGUID _)).
      * unfold modify at 1. rewrite IH by reflexivity. state_simpl.
        unfold after_scan. state_simpl. rewrite !app_nil_r, <- app_assoc. reflexivity.
      * unfold ret at 1. rewrite IH by reflexivity. reflexivity.
    + unfold ret. now rewrite after_scan_nil.
Qed.

(** With entries no larger than the entry object, the inner loop returns,
    having only appended entries that passed the type-GUID test. *)
Lemma getGPTPartitions_entries_returns : forall n i j sizeOfEntry sectorBuffer h,
  sizeOfEntry <= sizeof_GPTPartitionEntry ->
  exists added,
    getGPTPartitions_entries n i j sizeOfEntry sectorBuffer h
    = (Returned tt, after_scan added [] h)
    /\ Forall (fun e => isEmptyGUID e = false) added.
Proof.
  induction n as [|n IH]; intros i j sizeOfEntry sectorBuffer h Size.
  - exists []. cbn. now rewrite after_scan_nil.
  - cbn [getGPTPartitions_entries].
    rewrite bind_get.
    destruct (wrap32 (i + j) <? GPTHeader.NumberOfEntries (gpt h)).
    + replace (sizeof_GPTPartitionEntry <? sizeOfEntry) with false
        by (symmetry; apply Z.ltb_ge; exact Size).
      rewrite bind_get. unfold bind at 1.
      destruct (isEmptyGUID _) eqn:Empty; cbn [negb].
      * unfold ret at 1. apply IH. exact Size.
      * unfold modify at 1.
        match goal with |- context [getGPTPartitions_entries n _ _ _ _ ?h1] =>
          destruct (IH i (j + 1) sizeOfEntry sectorBuffer h1 Size) as (added & Run & All)
        end.
        eexists (_ :: added). rewrite Run. split.
        -- unfold after_scan. state_simpl.
           rewrite !app_nil_r, <- app_assoc. reflexivity.
        -- constructor; [exact Empty | exact All].
    + exists []. unfold ret. now rewrite after_scan_nil.
Qed.

(** With entries larger than the entry object, the first copy runs past
    the object. *)
Lemma getGPTPartitions_entries_overrun n i j sizeOfEntry sectorBuffer h :
  sizeof_GPTPartitionEntry < sizeOfEntry ->
  wrap32 (i + j) < GPTHeader.NumberOfEntries (gpt h) ->
  getGPTPartitions_entries (S n) i j sizeOfEntry sectorBuffer h = (Fault, h).
Proof.
  intros Size Lt. cbn [getGPTPartitions_entries]. rewrite bind_get.
  replace (wrap32 (i + j) <? GPTHeader.NumberOfEntries (gpt h)) with true
    by (symmetry; apply Z.ltb_lt; exact Lt).
  replace (sizeof_GPTPartitionEntry <? sizeOfEntry) with true
    by (symmetry; apply Z.ltb_lt; exact Size).
  reflexivity.
Qed.

Lemma sectors_read_app a b : sectors_read (a ++ b) = sectors_read a ++ sectors_read b.
Proof. unfold sectors_read. apply flat_map_app. Qed.

Section GPTScan.

Variables (reader : SectorReader.t) (gptHeader : list byte) (bps : Z).
Variable bufs : nat -> list byte.

Let sizeOfEntry := GPTHeader.SizeOfEntry gptHeader.
Let numberOfEntries := GPTHeader.NumberOfEntries gptHeader.
Let entriesPerSector := bps / sizeOfEntry.

Let scanning := scanning reader gptHeader bps.

Lemma scanning_after_scan found reads h :
  scanning h -> scanning (after_scan found reads h).
Proof. intros S. exact S. Qed.

Hypothesis eps_pos : 0 < entriesPerSector.
Hypothesis index_fits : numberOfEntries + entriesPerSector <= 2 ^ 32.
Hypothesis reads_ok : forall t : nat,
  Z.of_nat t * entriesPerSector < numberOfEntries ->
  SectorReader.readSector reader (sector_of_iteration gptHeader bps t) bps
  = Some (bufs t).

Lemma bps_nonzero : bps <> 0.
Proof using eps_pos.
  intros E. assert (Z0 : entriesPerSector = 0).
  { unfold entriesPerSector. rewrite E. apply Zdiv_0_l. }
  pose proof eps_pos as P. rewrite Z0 in P. lia.
Qed.

(** The outer loop from iteration [t0], with [m] iterations to go. *)
Lemma getGPTPartitions_sectors_run : forall (m t0 fuel : nat) (h : DriveHandler),
  sizeOfEntry = sizeof_GPTPartitionEntry ->
  scanning h ->
  (m < fuel)%nat ->
  numberOfEntries <= Z.of_nat (t0 + m) * entriesPerSector ->
  (forall t, (t0 <= t < t0 + m)%nat -> Z.of_nat t * entriesPerSector < numberOfEntries) ->
  getGPTPartitions_sectors fuel (Z.of_nat t0 * entriesPerSector)
                           sizeOfEntry entriesPerSector h
  = (Returned tt,
     after_scan
       (flat_map (fun t =>
          entries_in_sector (Z.to_nat entriesPerSector)
                            (Z.of_nat t * entriesPerSector) 0 sizeOfEntry (bufs t)
                            numberOfEntries) (seq t0 m))
       (map (fun t => EvReadSector (sector_of_iteration gptHeader bps t) bps)
            (seq t0 m))
       h).
Proof.
  induction m as [|m IH]; intros t0 fuel h Size Sc Fuel Done Going.
  - destruct fuel as [|fuel]; [lia|].
    cbn [getGPTPartitions_sectors seq flat_map map].
    rewrite bind_get. destruct Sc as (_ & -> & _). fold numberOfEntries.
    replace (Z.of_nat t0 * entriesPerSector <? numberOfEntries) with false
      by (symmetry; apply Z.ltb_ge; rewrite Nat.add_0_r in Done; exact Done).
    unfold ret. now rewrite after_scan_nil.
  - destruct fuel as [|fuel]; [lia|].
    pose proof (Going t0 ltac:(lia)) as Lt.
    cbn [getGPTPartitions_sectors seq flat_map map].
    rewrite bind_get. pose proof Sc as (Hr & Hg & Hb). rewrite Hg. fold numberOfEntries.
    replace (Z.of_nat t0 * entriesPerSector <? numberOfEntries) with true
      by (symmetry; apply Z.ltb_lt; exact Lt).
    rewrite !bind_get, Hb, Hg.
    replace (bps =? 0) with false by (symmetry; apply Z.eqb_neq, bps_nonzero).
    fold (sector_of_iteration gptHeader bps t0) in *.
    unfold bind at 1.
    change (wrap64 _) with (sector_of_iteration gptHeader bps t0).
    rewrite (readSector_ok h reader _ bps Hr (bufs t0) (reads_ok t0 Lt)).
    unfold bind at 1. rewrite getGPTPartitions_entries_run by exact Size. state_simpl.
    rewrite Hg. fold numberOfEntries.
    replace (wrap32 (Z.of_nat t0 * entriesPerSector + entriesPerSector))
      with (Z.of_nat (S t0) * entriesPerSector).
    2:{ unfold wrap32. rewrite Z.mod_small; lia. }
    rewrite IH.
    + unfold after_scan. state_simpl. rewrite app_nil_r, <- !app_assoc. reflexivity.
    + exact Size.
    + exact Sc.
    + lia.
    + replace (S t0 + m)%nat with (t0 + S m)%nat by lia. exact Done.
    + intros t Ht. apply Going. lia.
Qed.

(** Whatever the reads do, the outer loop finishes within [m] iterations:
    it returns after [m] reads, or throws at the first read that fails. *)
Lemma getGPTPartitions_sectors_terminates : forall (m t0 fuel : nat) (h : DriveHandler),
  sizeOfEntry <= sizeof_GPTPartitionEntry ->
  scanning h ->
  (m < fuel)%nat ->
  numberOfEntries <= Z.of_nat (t0 + m) * entriesPerSector ->
  (forall t, (t0 <= t < t0 + m)%nat -> Z.of_nat t * entriesPerSector < numberOfEntries) ->
  exists o h',
    getGPTPartitions_sectors fuel (Z.of_nat t0 * entriesPerSector)
                             sizeOfEntry entriesPerSector h = (o, h')
    /\ (o = Returned tt \/ o = Thrown "Cannot read sector.")
    /\ (List.length (sectors_read (io h')) <= List.length (sectors_read (io h)) + m)%nat
    /\ (o = Returned tt ->
        List.length (sectors_read (io h')) = (List.length (sectors_read (io h)) + m)%nat)
    /\ ((forall s, SectorReader.readSector reader s bps <> None) -> o = Returned tt).
Proof using eps_pos index_fits.
  induction m as [|m IH]; intros t0 fuel h Size Sc Fuel Done Going.
  - destruct fuel as [|fuel]; [lia|].
    exists (Returned tt), h. cbn [getGPTPartitions_sectors].
    rewrite bind_get. destruct Sc as (_ & -> & _). fold numberOfEntries.
    replace (Z.of_nat t0 * entriesPerSector <? numberOfEntries) with false
      by (symmetry; apply Z.ltb_ge; rewrite Nat.add_0_r in Done; exact Done).
    repeat split; auto with arith; lia.
  - destruct fuel as [|fuel]; [lia|].
    pose proof (Going t0 ltac:(lia)) as Lt.
    cbn [getGPTPartitions_sectors].
    rewrite bind_get. pose proof Sc as (Hr & Hg & Hb). rewrite Hg. fold numberOfEntries.
    replace (Z.of_nat t0 * entriesPerSector <? numberOfEntries) with true
      by (symmetry; apply Z.ltb_lt; exact Lt).
    rewrite !bind_get, Hb, Hg.
    replace (bps =? 0) with false by (symmetry; apply Z.eqb_neq, bps_nonzero).
    unfold bind at 1.
    change (wrap64 _) with (sector_of_iteration gptHeader bps t0).
    destruct (SectorReader.readSector reader (sector_of_iteration gptHeader bps t0) bps)
      as [buffer|] eqn:R.
    + rewrite (readSector_ok h reader _ bps Hr buffer R).
      unfold bind at 1.
      match goal with |- context [getGPTPartitions_entries ?n ?i ?j ?s ?b ?h0] =>
        destruct (getGPTPartitions_entries_returns n i j s b h0 Size)
          as (added & Inner & _)
      end.
      rewrite Inner. state_simpl.
      replace (wrap32 (Z.of_nat t0 * entriesPerSector + entriesPerSector))
        with (Z.of_nat (S t0) * entriesPerSector).
      2:{ unfold wrap32. rewrite Z.mod_small; lia. }
      match goal with |- context [getGPTPartitions_sectors fuel _ _ _ ?h1] =>
        destruct (IH (S t0) fuel h1) as (o & h' & Run & Shape & Le & Eq & All)
      end.
      * exact Size.
      * exact Sc.
      * lia.
      * replace (S t0 + m)%nat with (t0 + S m)%nat by lia. exact Done.
      * intros t Ht. apply Going. lia.
      * exists o, h'. split; [exact Run|]. split; [exact Shape|].
        unfold after_scan in Le, Eq. state_simpl.
        rewrite !sectors_read_app, !length_app in Le, Eq.
        cbn [sectors_read flat_map List.length app] in Le, Eq.
        repeat split; [lia | intros E; specialize (Eq E); lia | exact All].
    + rewrite (readSector_fail h reader _ bps Hr R).
      eexists _, _. split; [reflexivity|]. state_simpl.
      split; [now right|].
      rewrite sectors_read_app, length_app. cbn [sectors_read flat_map List.length app].
      repeat split; [lia | discriminate |].
      intros All. exfalso. exact (All _ R).
Qed.

End GPTScan.

Lemma sectors_needed_spec (n eps : Z) :
  0 < eps -> 0 <= n ->
  0 <= sectors_needed n eps
  /\ n <= sectors_needed n eps * eps
  /\ (sectors_needed n eps - 1) * eps < n.
Proof.
  intros He Hn. unfold sectors_needed.
  pose proof (Z.div_mod (n + eps - 1) eps ltac:(lia)) as D.
  pose proof (Z.mod_pos_bound (n + eps - 1) eps He) as B.
  assert (0 <= (n + eps - 1) / eps) by (apply Z.div_pos; lia).
  nia.
Qed.


Lemma sample_gpt_disk_reads s size :
  SectorReader.readSector sample_gpt_disk s size <> None.
Proof.
  cbn. destruct (s =? 0); [discriminate|]. destruct (s =? 1); [discriminate|].
  destruct (s =? 2); discriminate.
Qed.


(** The loop index never reaches [NumberOfEntries = 4294967295] in steps
    of four: from 4294967292 it wraps to zero. *)
Lemma endless_header_fields :
  GPTHeader.NumberOfEntries endless_header = 4294967295
  /\ GPTHeader.SizeOfEntry endless_header = 128
  /\ GPTHeader.PartitionEntryLBA endless_header = 2.
Proof. repeat split; vm_compute; reflexivity. Qed.

Lemma getGPTPartitions_sectors_endless : forall (fuel : nat) (i : Z) (h : DriveHandler),
  scanning zero_reader endless_header 512 h ->
  0 <= i < 2 ^ 32 -> i mod 4 = 0 ->
  fst (getGPTPartitions_sectors fuel i 128 4 h) = OutOfFuel.
Proof.
  induction fuel as [|fuel IH]; intros i h Sc Ri Mi; [reflexivity|].
  destruct endless_header_fields as (HN & HS & HL).
  cbn [getGPTPartitions_sectors]. rewrite bind_get.
  pose proof Sc as (Hr & Hg & Hb). rewrite Hg, HN.
  replace (i <? 4294967295) with true
    by (symmetry; apply Z.ltb_lt; Z.div_mod_to_equations; lia).
  rewrite !bind_get, Hb. change (512 =? 0) with false. cbv iota.
  unfold bind at 1.
  erewrite readSector_ok; [| exact Hr | reflexivity].
  unfold bind at 1. rewrite getGPTPartitions_entries_run by reflexivity.
  apply IH.
  - exact Sc.
  - unfold wrap32. apply Z.mod_pos_bound. lia.
  - unfold wrap32. Z.div_mod_to_equations. lia.
Qed.


(** ** The entry array on disk *)

Lemma skipn_sectors (sect : nat -> list byte) (bpsn : nat) :
  forall (t n s off : nat),
    (forall u, (s <= u < s + n)%nat -> List.length (sect u) = bpsn) ->
    (t < n)%nat -> (off <= bpsn)%nat ->
    skipn (t * bpsn + off) (List.concat (map sect (seq s n)))
    = skipn off (sect (s + t)%nat)
      ++ List.concat (map sect (seq (s + S t) (n - S t))).
Proof.
  induction t as [|t IH]; intros n s off Len Lt Off.
  - destruct n as [|n]; [lia|]. cbn [seq map List.concat].
    rewrite skipn_app, Nat.add_0_r, Nat.mul_0_l, Nat.add_0_l.
    rewrite (Len s) by lia.
    replace (off - bpsn)%nat with 0%nat by lia. cbn [skipn].
    replace (s + 1)%nat with (S s) by lia.
    replace (S n - 1)%nat with n by lia. reflexivity.
  - destruct n as [|n]; [lia|]. cbn [seq map List.concat].
    rewrite skipn_app, (Len s) by lia.
    rewrite skipn_all2 by (rewrite (Len s) by lia; nia).
    cbn [app].
    replace (S t * bpsn + off - bpsn)%nat with (t * bpsn + off)%nat by nia.
    rewrite IH.
    + replace (S s + t)%nat with (s + S t)%nat by lia.
      replace (S s + S t)%nat with (s + S (S t))%nat by lia.
      reflexivity.
    + intros u Hu. apply Len. lia.
    + lia.
    + exact Off.
Qed.

Lemma slice_entry_array (sect : nat -> list byte) (bps : Z) (nsect t : nat) (off len : Z) :
  0 < bps ->
  (forall u, (u < nsect)%nat -> List.length (sect u) = Z.to_nat bps) ->
  (t < nsect)%nat -> 0 <= off -> 0 <= len -> off + len <= bps ->
  Raw.slice (entry_array sect nsect) (Z.of_nat t * bps + off) len
  = Raw.slice (sect t) off len.
Proof.
  intros Hb Len Lt Ho Hl Fit. unfold Raw.slice, entry_array.
  replace (Z.to_nat (Z.of_nat t * bps + off))
    with (t * Z.to_nat bps + Z.to_nat off)%nat by nia.
  rewrite (skipn_sectors sect (Z.to_nat bps) t nsect 0 (Z.to_nat off)).
  - rewrite firstn_app, Nat.add_0_l.
    replace (Z.to_nat len - List.length (skipn (Z.to_nat off) (sect t)))%nat
      with 0%nat by (rewrite length_skipn, (Len t) by exact Lt; lia).
    cbn [firstn]. now rewrite app_nil_r.
  - intros u Hu. apply Len. lia.
  - exact Lt.
  - lia.
Qed.

(** ** Which entries the loop body keeps *)

Lemma forallb_bytes_at (p : byte -> bool) : p x00 = true ->
  forall (n : nat) (img : list byte),
    forallb p (Raw.bytes_at img 0 n) = forallb p (firstn n img).
Proof.
  intros P0. unfold Raw.bytes_at. induction n as [|n IH]; intros img; [reflexivity|].
  destruct img as [|b img].
  - cbn [firstn forallb]. clear IH.
    induction (seq 0 (S n)) as [|k l IHl]; [reflexivity|].
    cbn [map forallb]. rewrite IHl.
    replace (nth (0 + k) [] x00) with x00 by (destruct (0 + k)%nat; reflexivity).
    now rewrite P0.
  - cbn [seq map firstn forallb nth Nat.add]. f_equal.
    rewrite <- seq_shift, map_map. apply IH.
Qed.

Lemma isEmptyGUID_parse (img : list byte) :
  isEmptyGUID (parse_GPTPartitionEntry img) = negb (slot_in_use img).
Proof.
  unfold isEmptyGUID, slot_in_use. cbn [PartitionTypeGUID parse_GPTPartitionEntry].
  rewrite forallb_bytes_at by reflexivity.
  induction (firstn 16 img) as [|b l IH]; [reflexivity|].
  cbn [forallb existsb]. rewrite IH, negb_orb, negb_involutive. reflexivity.
Qed.

Lemma entry_if_present_in_use (img : list byte) :
  entry_if_present img
  = if slot_in_use img then [parse_GPTPartitionEntry img] else [].
Proof.
  unfold entry_if_present. rewrite isEmptyGUID_parse, negb_involutive. reflexivity.
Qed.

Lemma flat_map_entry_if_present (slots : list (list byte)) :
  flat_map entry_if_present slots
  = map parse_GPTPartitionEntry (filter slot_in_use slots).
Proof.
  induction slots as [|img slots IH]; [reflexivity|].
  cbn [flat_map filter]. rewrite entry_if_present_in_use, IH.
  destruct (slot_in_use img); reflexivity.
Qed.

Lemma count_in_use_filter (slots : list (list byte)) :
  List.length (filter slot_in_use slots) = count_in_use slots.
Proof.
  induction slots as [|img slots IH]; [reflexivity|].
  cbn [filter count_in_use]. destruct (slot_in_use img); cbn; now rewrite IH.
Qed.

(** The inner loop, when neither [i + j] nor [j * sizeOfEntry] wraps. *)
Lemma entries_in_sector_nowrap (sizeOfEntry numberOfEntries : Z) (buf : list byte) :
  0 <= sizeOfEntry ->
  forall (n j : nat) (i : Z),
    0 <= i ->
    i + Z.of_nat j + Z.of_nat n <= 2 ^ 32 ->
    (Z.of_nat j + Z.of_nat n) * sizeOfEntry <= 2 ^ 32 ->
    entries_in_sector n i (Z.of_nat j) sizeOfEntry buf numberOfEntries
    = flat_map (fun j' => entry_if_present
                            (Raw.slice buf (Z.of_nat j' * sizeOfEntry) sizeOfEntry))
               (seq j (Nat.min n (Z.to_nat (numberOfEntries - i - Z.of_nat j)))).
Proof.
  intros Hs. induction n as [|n IH]; intros j i Hi Fit1 Fit2; [reflexivity|].
  cbn [entries_in_sector].
  replace (wrap32 (i + Z.of_nat j)) with (i + Z.of_nat j)
    by (unfold wrap32; rewrite Z.mod_small; lia).
  destruct (i + Z.of_nat j <? numberOfEntries) eqn:T.
  - apply Z.ltb_lt in T.
    replace (Nat.min (S n) (Z.to_nat (numberOfEntries - i - Z.of_nat j)))
      with (S (Nat.min n (Z.to_nat (numberOfEntries - i - Z.of_nat (S j))))) by lia.
    cbn [seq flat_map].
    replace (wrap32 (Z.of_nat j * sizeOfEntry)) with (Z.of_nat j * sizeOfEntry)
      by (unfold wrap32; rewrite Z.mod_small; nia).
    f_equal.
    replace (Z.of_nat j + 1) with (Z.of_nat (S j)) by lia.
    apply IH; [exact Hi | lia | nia].
  - apply Z.ltb_ge in T.
    replace (Nat.min (S n) (Z.to_nat (numberOfEntries - i - Z.of_nat j)))
      with 0%nat by lia.
    reflexivity.
Qed.

(** Sector-sized runs of indices, laid end to end, are the whole range. *)
Lemma flat_map_chunks {B} (g : nat -> list B) (eps total : nat) :
  (0 < eps)%nat ->
  forall (m t0 : nat),
    (total <= (t0 + m) * eps)%nat ->
    flat_map (fun t => flat_map g (seq (t * eps) (Nat.min eps (total - t * eps))))
             (seq t0 m)
    = flat_map g (seq (t0 * eps) (total - t0 * eps)).
Proof.
  intros He. induction m as [|m IH]; intros t0 Done.
  - replace (total - t0 * eps)%nat with 0%nat by nia. reflexivity.
  - cbn [seq flat_map]. rewrite IH by nia.
    rewrite <- flat_map_app. f_equal.
    destruct (Nat.le_gt_cases eps (total - t0 * eps)) as [Full|Part].
    + replace (Nat.min eps (total - t0 * eps)) with eps by lia.
      replace (total - t0 * eps)%nat with (eps + (total - S t0 * eps))%nat by nia.
      rewrite seq_app. f_equal. f_equal; nia.
    + replace (Nat.min eps (total - t0 * eps)) with (total - t0 * eps)%nat by lia.
      replace (total - S t0 * eps)%nat with 0%nat by nia.
      cbn [seq]. now rewrite app_nil_r.
Qed.

Lemma flat_map_ext_in {A B} (f g : A -> list B) (l : list A) :
  (forall a, In a l -> f a = g a) -> flat_map f l = flat_map g l.
Proof.
  induction l as [|a l IH]; intros E; [reflexivity|].
  cbn [flat_map]. rewrite (E a) by now left.
  rewrite IH; [reflexivity|]. intros b Hb. apply E. now right.
Qed.

Lemma flat_map_seq_shift {B} (g : nat -> list B) (a c : nat) :
  flat_map (fun j => g (a + j)%nat) (seq 0 c) = flat_map g (seq a c).
Proof.
  revert a. induction c as [|c IH]; intros a; [reflexivity|].
  cbn [seq flat_map]. rewrite Nat.add_0_r. f_equal.
  rewrite <- seq_shift, flat_map_concat_map, map_map, <- flat_map_concat_map.
  rewrite <- (IH (S a)). apply flat_map_ext. intros j. f_equal. lia.
Qed.

Section GPTWellFormed.

Variables (reader : SectorReader.t) (gptHeader : list byte) (bps : Z).
Variable sect : nat -> list byte.

Let sizeOfEntry := GPTHeader.SizeOfEntry gptHeader.
Let numberOfEntries := GPTHeader.NumberOfEntries gptHeader.
Let lba := GPTHeader.PartitionEntryLBA gptHeader.
Let entriesPerSector := bps / sizeOfEntry.
Let reads := sectors_needed numberOfEntries entriesPerSector.
Let array := entry_array sect (Z.to_nat reads).
Let slots := entry_slots array sizeOfEntry (Z.to_nat numberOfEntries).

Hypothesis entry_size : sizeOfEntry = sizeof_GPTPartitionEntry.
Hypothesis sector_size : 0 < bps < 2 ^ 32.
Hypothesis entries_fill_sector : bps mod sizeOfEntry = 0.
Hypothesis offsets_fit : numberOfEntries * sizeOfEntry <= 2 ^ 32.
Hypothesis sectors_fit : lba + reads <= 2 ^ 64.
Hypothesis sectors_readable : forall t : nat,
  (t < Z.to_nat reads)%nat ->
  SectorReader.readSector reader (lba + Z.of_nat t) bps = Some (sect t)
  /\ List.length (sect t) = Z.to_nat bps.

Lemma wf_size : sizeOfEntry = 128.
Proof. exact entry_size. Qed.

Lemma wf_bps : bps = entriesPerSector * 128.
Proof.
  pose proof entries_fill_sector as E. unfold entriesPerSector.
  rewrite wf_size in *. Z.div_mod_to_equations. lia.
Qed.

Lemma wf_eps_pos : 0 < entriesPerSector.
Proof.
  pose proof wf_bps. lia.
Qed.

Lemma wf_N : 0 <= numberOfEntries <= 2 ^ 25.
Proof.
  pose proof (u32_range gptHeader 80) as R. fold (GPTHeader.NumberOfEntries gptHeader) in R.
  fold numberOfEntries in R. pose proof offsets_fit as F. rewrite wf_size in F. lia.
Qed.

Lemma wf_index_fits : numberOfEntries + entriesPerSector <= 2 ^ 32.
Proof.
  pose proof wf_bps. pose proof wf_N. lia.
Qed.

Lemma wf_reads :
  0 <= reads /\ numberOfEntries <= reads * entriesPerSector
  /\ (reads - 1) * entriesPerSector < numberOfEntries.
Proof.
  apply sectors_needed_spec; [apply wf_eps_pos | apply wf_N].
Qed.

Lemma wf_iteration_in_range (t : nat) :
  Z.of_nat t * entriesPerSector < numberOfEntries -> (t < Z.to_nat reads)%nat.
Proof.
  intros Lt. pose proof wf_reads as (R0 & R1 & R2). pose proof wf_eps_pos.
  assert (Z.of_nat t < reads) by nia. lia.
Qed.

Lemma wf_sector_of_iteration (t : nat) :
  (t < Z.to_nat reads)%nat ->
  sector_of_iteration gptHeader bps t = lba + Z.of_nat t.
Proof.
  intros Lt. unfold sector_of_iteration. fold sizeOfEntry lba entriesPerSector.
  pose proof wf_reads as (R0 & R1 & R2). pose proof wf_eps_pos as Ep.
  pose proof wf_bps as Hb. pose proof wf_N as HN. rewrite wf_size.
  assert (T : Z.of_nat t * entriesPerSector < numberOfEntries) by nia.
  replace (Z.of_nat t * entriesPerSector * 128) with (Z.of_nat t * bps) by lia.
  unfold wrap32. rewrite Z.mod_small by nia.
  rewrite Z.div_mul by lia.
  pose proof (u64_range gptHeader 72) as RL. fold (GPTHeader.PartitionEntryLBA gptHeader) in RL.
  fold lba in RL. pose proof sectors_fit.
  unfold wrap64. rewrite Z.mod_small; lia.
Qed.

Lemma wf_reads_ok (t : nat) :
  Z.of_nat t * entriesPerSector < numberOfEntries ->
  SectorReader.readSector reader (sector_of_iteration gptHeader bps t) bps
  = Some (sect t).
Proof.
  intros Lt. apply wf_iteration_in_range in Lt.
  rewrite wf_sector_of_iteration by exact Lt. now apply sectors_readable.
Qed.

(** The entries one iteration keeps are those of its run of slots. *)
Lemma wf_sector_entries (t : nat) :
  (t < Z.to_nat reads)%nat ->
  entries_in_sector (Z.to_nat entriesPerSector) (Z.of_nat t * entriesPerSector) 0
                    sizeOfEntry (sect t) numberOfEntries
  = flat_map (fun k => entry_if_present
                         (Raw.slice array (Z.of_nat k * sizeOfEntry) sizeOfEntry))
             (seq (t * Z.to_nat entriesPerSector)
                  (Nat.min (Z.to_nat entriesPerSector)
                           (Z.to_nat numberOfEntries - t * Z.to_nat entriesPerSector))).
Proof.
  intros Lt. pose proof wf_eps_pos as Ep. pose proof wf_bps as Hb.
  pose proof wf_N as HN. pose proof wf_reads as (R0 & R1 & R2).
  assert (T : Z.of_nat t * entriesPerSector < numberOfEntries) by nia.
  change 0 with (Z.of_nat 0) at 1.
  rewrite entries_in_sector_nowrap; [| rewrite wf_size; lia | lia | lia | rewrite wf_size; lia].
  rewrite <- (flat_map_seq_shift
                (fun k => entry_if_present
                            (Raw.slice array (Z.of_nat k * sizeOfEntry) sizeOfEntry))
                (t * Z.to_nat entriesPerSector)).
  replace (Z.to_nat (numberOfEntries - Z.of_nat t * entriesPerSector - Z.of_nat 0))
    with (Z.to_nat numberOfEntries - t * Z.to_nat entriesPerSector)%nat by nia.
  apply flat_map_ext_in. intros j Hj. apply in_seq in Hj. f_equal.
  replace (Z.of_nat (t * Z.to_nat entriesPerSector + j) * sizeOfEntry)
    with (Z.of_nat t * bps + Z.of_nat j * sizeOfEntry)
    by (rewrite wf_size; nia).
  symmetry. apply slice_entry_array.
  - lia.
  - intros u Hu. now apply sectors_readable.
  - exact Lt.
  - rewrite wf_size; lia.
  - rewrite wf_size; lia.
  - rewrite wf_size. nia.
Qed.

Lemma wf_found :
  flat_map (fun t =>
      entries_in_sector (Z.to_nat entriesPerSector) (Z.of_nat t * entriesPerSector) 0
                        sizeOfEntry (sect t) numberOfEntries)
    (seq 0 (Z.to_nat reads))
  = map parse_GPTPartitionEntry (filter slot_in_use slots).
Proof.
  pose proof wf_eps_pos as Ep. pose proof wf_reads as (R0 & R1 & R2).
  pose proof wf_N as HN.
  erewrite flat_map_ext_in.
  2:{ intros t Ht. apply in_seq in Ht. apply wf_sector_entries. lia. }
  rewrite (flat_map_chunks _ (Z.to_nat entriesPerSector) (Z.to_nat numberOfEntries))
    by nia.
  rewrite Nat.mul_0_l, Nat.sub_0_r.
  rewrite <- flat_map_entry_if_present. unfold slots, entry_slots.
  rewrite !flat_map_concat_map, map_map. reflexivity.
Qed.

Lemma getGPTPartitions_wf_run (h : DriveHandler) (fuel : nat) :
  scanning reader gptHeader bps h ->
  reads < Z.of_nat fuel ->
  getGPTPartitions fuel h
  = (Returned tt,
     after_scan (map parse_GPTPartitionEntry (filter slot_in_use slots))
                (map (fun t => EvReadSector (lba + Z.of_nat t) bps)
                     (seq 0 (Z.to_nat reads)))
                h).
Proof.
  intros Sc Fuel. pose proof wf_reads as (R0 & R1 & R2).
  unfold getGPTPartitions. rewrite !bind_get.
  pose proof Sc as (Hr & Hg & Hb). rewrite Hg, Hb. fold sizeOfEntry.
  replace (sizeOfEntry =? 0) with false by (rewrite wf_size; reflexivity).
  fold entriesPerSector.
  assert (Run := getGPTPartitions_sectors_run reader gptHeader bps sect
                   wf_eps_pos wf_index_fits wf_reads_ok (Z.to_nat reads) 0%nat fuel h
                   entry_size Sc).
  fold sizeOfEntry numberOfEntries entriesPerSector in Run.
  change (Z.of_nat 0 * entriesPerSector) with 0 in Run.
  rewrite Run.
  - rewrite wf_found.
    f_equal. f_equal. apply map_ext_in. intros t Ht. apply in_seq in Ht.
    rewrite wf_sector_of_iteration by lia. reflexivity.
  - lia.
  - rewrite Nat.add_0_l, Z2Nat.id by lia. exact R1.
  - intros t Ht. nia.
Qed.

End GPTWellFormed.

(** C4 (as the code has it). Let the header give 128-byte entries (the size
    of the entry record), let the sector size be a multiple of 128 below
    2^32, let [NumberOfEntries * 128] be at most 2^32 (so that the 32-bit
    byte offset of an entry cannot wrap), and let the sectors of the entry
    array be readable in full. Then, given fuel for the loop, extraction
    returns having appended exactly the K entries, among the M =
    [NumberOfEntries] slots of the on-disk array, whose 16-byte type GUID is
    not all-zero, in array order; and it reads the array one whole sector at
    a time: ceiling(M / entriesPerSector) reads of [bytesPerSector] bytes at
    consecutive sectors from [PartitionEntryLBA]. *)
Theorem getGPTPartitions_spec
  (h : DriveHandler) (reader : SectorReader.t) (sect : nat -> list byte) :
  let sizeOfEntry := GPTHeader.SizeOfEntry (gpt h) in
  let numberOfEntries := GPTHeader.NumberOfEntries (gpt h) in
  let lba := GPTHeader.PartitionEntryLBA (gpt h) in
  let bps := bytesPerSector h in
  let entriesPerSector := bps / sizeOfEntry in
  let reads := sectors_needed numberOfEntries entriesPerSector in
  let slots := entry_slots (entry_array sect (Z.to_nat reads)) sizeOfEntry
                           (Z.to_nat numberOfEntries) in
  sectorReader h = Some reader ->
  sizeOfEntry = sizeof_GPTPartitionEntry ->
  0 < bps < 2 ^ 32 ->
  bps mod sizeOfEntry = 0 ->
  numberOfEntries * sizeOfEntry <= 2 ^ 32 ->
  lba + reads <= 2 ^ 64 ->
  (forall t : nat, (t < Z.to_nat reads)%nat ->
     SectorReader.readSector reader (lba + Z.of_nat t) bps = Some (sect t)
     /\ List.length (sect t) = Z.to_nat bps) ->
  forall fuel : nat, reads < Z.of_nat fuel ->
  exists h',
    getGPTPartitions fuel h = (Returned tt, h')
    /\ partitionsGPT h'
       = partitionsGPT h ++ map parse_GPTPartitionEntry (filter slot_in_use slots)
    /\ List.length (filter slot_in_use slots) = count_in_use slots
    /\ List.length slots = Z.to_nat numberOfEntries
    /\ io h' = io h ++ map (fun t => EvReadSector (lba + Z.of_nat t) bps)
                           (seq 0 (Z.to_nat reads)).
Proof.
  intros sizeOfEntry numberOfEntries lba bps entriesPerSector reads slots
         Hr Hsize Hbps Hdiv Hoff Hlba Hread fuel Hfuel.
  eexists. split.
  - apply (getGPTPartitions_wf_run reader (gpt h) bps sect
             Hsize Hbps Hdiv Hoff Hlba Hread h fuel); [|exact Hfuel].
    repeat split. exact Hr.
  - unfold after_scan. state_simpl. split; [reflexivity|].
    split; [apply count_in_use_filter|].
    split; [|reflexivity].
    unfold slots, entry_slots. now rewrite length_map, length_seq.
Qed.

Lemma getGPTPartitions_spec_witness :
  exists h',
    getGPTPartitions 3 sample_gpt_handler = (Returned tt, h')
    /\ map StartingLBA (partitionsGPT h') = [40; 48]
    /\ io h' = [EvReadSector 2 512; EvReadSector 3 512].
Proof.
  destruct (getGPTPartitions_spec sample_gpt_handler sample_gpt_disk sample_gpt_sectors
              eq_refl eq_refl) with (fuel := 3%nat)
    as (h' & Run & Parts & _ & _ & Io).
  - vm_compute. split; reflexivity.
  - reflexivity.
  - vm_compute. discriminate.
  - vm_compute. discriminate.
  - intros t Ht. change (Z.to_nat _) with 2%nat in Ht.
    destruct t as [|[|t]]; [split; reflexivity | split; reflexivity | lia].
  - reflexivity.
  - exists h'. split; [exact Run|]. split.
    + rewrite Parts. vm_compute. reflexivity.
    + rewrite Io. reflexivity.
Defined.

(** *** A byte offset that wraps *)

Lemma in_firstn_in {A} (n : nat) (l : list A) (x : A) : In x (firstn n l) -> In x l.
Proof.
  intros H. rewrite <- (firstn_skipn n l). apply in_or_app. now left.
Qed.

Lemma in_skipn_in {A} (n : nat) (l : list A) (x : A) : In x (skipn n l) -> In x l.
Proof.
  intros H. rewrite <- (firstn_skipn n l). apply in_or_app. now right.
Qed.

Lemma slot_in_use_zero (img : list byte) :
  (forall b, In b img -> b = x00) -> slot_in_use img = false.
Proof.
  intros Z0. unfold slot_in_use.
  assert (Z16 : forall b, In b (firstn 16 img) -> b = x00).
  { intros b Hb. apply Z0. eapply in_firstn_in. exact Hb. }
  induction (firstn 16 img) as [|b l IH]; [reflexivity|].
  cbn [existsb]. rewrite (Z16 b) by now left.
  rewrite IH; [reflexivity|]. intros c Hc. apply Z16. now right.
Qed.

Lemma entries_in_sector_zero (len : nat) (sizeOfEntry numberOfEntries : Z) :
  forall (n : nat) (i j : Z),
    entries_in_sector n i j sizeOfEntry (repeat x00 len) numberOfEntries = [].
Proof.
  induction n as [|n IH]; intros i j; [reflexivity|].
  cbn [entries_in_sector]. destruct (wrap32 (i + j) <? numberOfEntries); [|reflexivity].
  rewrite IH, app_nil_r, entry_if_present_in_use, slot_in_use_zero; [reflexivity|].
  intros b Hb. unfold Raw.slice in Hb.
  apply in_firstn_in, in_skipn_in in Hb. now apply repeat_spec in Hb.
Qed.

Lemma flat_map_nil {A B} (f : A -> list B) (l : list A) :
  (forall a, f a = []) -> flat_map f l = [].
Proof.
  intros E. induction l as [|a l IH]; [reflexivity|].
  cbn [flat_map]. now rewrite E, IH.
Qed.

Lemma wrapping_header_fields :
  GPTHeader.NumberOfEntries wrapping_header = 33554433
  /\ GPTHeader.SizeOfEntry wrapping_header = 128
  /\ GPTHeader.PartitionEntryLBA wrapping_header = 2.
Proof. repeat split; vm_compute; reflexivity. Qed.

(** Iteration 8388608 computes the byte offset 2^32, which wraps to zero:
    the loop reads sector 2 again and never reads sector 2 + 8388608. *)
Lemma wrapping_disk_reads (t : nat) :
  Z.of_nat t * 4 < 33554433 ->
  SectorReader.readSector wrapping_disk (sector_of_iteration wrapping_header 512 t) 512
  = Some (repeat x00 512).
Proof.
  intros Lt. unfold sector_of_iteration.
  destruct wrapping_header_fields as (HN & HS & HL). rewrite HS, HL.
  change (512 / 128) with 4. cbn [wrapping_disk SectorReader.readSector].
  replace (wrap64 (2 + wrap32 (Z.of_nat t * 4 * 128) / 512) =? 8388610) with false.
  - reflexivity.
  - symmetry. apply Z.eqb_neq. unfold wrap64, wrap32.
    Z.div_mod_to_equations. lia.
Qed.

(** C4 as stated does not hold: on this well-formed array (128-byte
    entries, 512-byte sectors) the slot number 33554432, first in sector
    2 + 8388608, is in use, yet extraction returns without any entry. *)
Lemma getGPTPartitions_wrapping_offset :
  GPTHeader.SizeOfEntry (gpt wrapping_handler) = sizeof_GPTPartitionEntry
  /\ bytesPerSector wrapping_handler mod sizeof_GPTPartitionEntry = 0
  /\ 33554432 < GPTHeader.NumberOfEntries (gpt wrapping_handler)
  /\ (exists s,
        SectorReader.readSector wrapping_disk
          (GPTHeader.PartitionEntryLBA (gpt wrapping_handler) + 33554432 * 128 / 512) 512
        = Some s
        /\ slot_in_use (Raw.slice s (33554432 * 128 mod 512) 128) = true)
  /\ forall fuel : nat, 8388609 < Z.of_nat fuel ->
       exists h', getGPTPartitions fuel wrapping_handler = (Returned tt, h')
                  /\ partitionsGPT h' = [].
Proof.
  destruct wrapping_header_fields as (HN & HS & HL).
  split; [exact HS|]. split; [reflexivity|]. split; [change (gpt wrapping_handler) with wrapping_header; rewrite HN; lia|].
  split.
  { exists wrapping_sector. split; reflexivity. }
  intros fuel Hfuel.
  remember (Z.to_nat 8388609) as m eqn:Em.
  assert (Hm : Z.of_nat m = 8388609) by (subst m; apply Z2Nat.id; lia).
  clear Em.
  assert (Sc : scanning wrapping_disk wrapping_header 512 wrapping_handler)
    by (repeat split).
  assert (Run := getGPTPartitions_sectors_run wrapping_disk wrapping_header 512
                   (fun _ => repeat x00 512)).
  rewrite HN, HS in Run. change (512 / 128) with 4 in Run.
  specialize (Run ltac:(lia) ltac:(lia) wrapping_disk_reads m 0%nat fuel
                  wrapping_handler eq_refl Sc ltac:(lia) ltac:(lia) ltac:(intros; lia)).
  change (Z.of_nat 0 * 4) with 0 in Run.
  rewrite flat_map_nil in Run by (intros; apply entries_in_sector_zero).
  eexists. split.
  - unfold getGPTPartitions. rewrite !bind_get.
    change (gpt wrapping_handler) with wrapping_header. rewrite HS.
    change (bytesPerSector wrapping_handler) with 512.
    change (128 =? 0) with false. cbv iota. change (512 / 128) with 4.
    exact Run.
  - reflexivity.
Qed.

(** * Further properties *)

(** ** Classification and construction *)

Section ClassifyMore.

Variable towupper : wchar_t -> wchar_t.
Variable iswalpha : wchar_t -> bool.
Variable device : ReaderSpec -> SectorReader.t.

Lemma not_single_digit_test p :
  ~ single_digit p -> (size p =? 1)%nat && isdigit (at_ p 0) = false.
Proof.
  intros N. destruct ((size p =? 1)%nat && isdigit (at_ p 0)) eqn:E; [|reflexivity].
  apply single_digit_test in E. contradiction.
Qed.

(** X1. Classification is case-insensitive: two inputs with the same
    upper-cased form, neither of them a single digit, are classified alike
    and leave the same path in the configuration. *)
Theorem determineDriveType_case_insensitive (p q : wstring) (h : DriveHandler) :
  map towupper p = map towupper q ->
  ~ single_digit p -> ~ single_digit q ->
  determineDriveType towupper iswalpha p h = determineDriveType towupper iswalpha q h.
Proof.
  intros E Np Nq. unfold determineDriveType.
  rewrite (not_single_digit_test p Np), (not_single_digit_test q Nq), E. reflexivity.
Qed.

Lemma mentions_whole (pat u : wstring) :
  mentions pat u -> List.length u = List.length pat -> u = pat.
Proof.
  intros (pre & post & ->) L. rewrite !length_app in L.
  destruct pre; [|cbn in L; lia]. destruct post; [|cbn in L; lia].
  cbn. now rewrite app_nil_r.
Qed.

(** X2. An input of three to thirteen code units is always rejected: it is
    too long for a digit or a drive letter and too short to hold
    [PhysicalDrive] followed by a digit. The configuration is untouched. *)
Theorem determineDriveType_rejects_mid_length (p : wstring) (h : DriveHandler) :
  (3 <= size p <= 13)%nat ->
  determineDriveType towupper iswalpha p h = (Returned UNKNOWN_DRIVE, h).
Proof.
  intros Len. unfold determineDriveType, size in *.
  set (u := map towupper p). assert (Lu : List.length u = List.length p)
    by (unfold u; apply length_map).
  replace (List.length p =? 1)%nat with false by (symmetry; apply Nat.eqb_neq; lia).
  cbn [andb].
  replace (List.length u =? 1)%nat with false by (symmetry; apply Nat.eqb_neq; lia).
  replace (List.length u =? 2)%nat with false by (symmetry; apply Nat.eqb_neq; lia).
  cbn [andb orb].
  destruct (is_npos (find u (L "PHYSICALDRIVE"))) eqn:F; [reflexivity|].
  apply find_spec in F. pose proof (mentions_length _ _ F) as Ml.
  change (List.length (L "PHYSICALDRIVE")) with 13%nat in Ml.
  rewrite (mentions_whole _ _ F) by (change (List.length (L "PHYSICALDRIVE")) with 13%nat; lia).
  reflexivity.
Qed.

(** Every run of [determineDriveType] returns, in one of three ways. *)
Lemma determineDriveType_cases (p : wstring) (h : DriveHandler) :
  (exists d, isdigit d = true
     /\ determineDriveType towupper iswalpha p h
        = (Returned PHYSICAL_DRIVE, with_path (L "\\.\PhysicalDrive" ++ [d]) h))
  \/ (exists c, determineDriveType towupper iswalpha p h
                = (Returned LOGICAL_DRIVE, with_path (L "\\.\" ++ [c; 58]) h))
  \/ determineDriveType towupper iswalpha p h = (Returned UNKNOWN_DRIVE, h).
Proof.
  unfold determineDriveType. set (u := map towupper p).
  destruct ((size p =? 1)%nat && isdigit (at_ p 0)) eqn:T1.
  { apply single_digit_test in T1 as (d & -> & Hd). left. exists d. split; [exact Hd|].
    reflexivity. }
  destruct (negb (is_npos (find u (L "PHYSICALDRIVE")))
            && isdigit (at_ u (size u - 1))) eqn:T2.
  { apply andb_true_iff in T2 as [_ Hd]. left. exists (at_ u (size u - 1)).
    split; [exact Hd | reflexivity]. }
  destruct (((size u =? 1)%nat && iswalpha (at_ u 0))
            || ((size u =? 2)%nat && iswalpha (at_ u 0) && (at_ u 1 =? 58))) eqn:T3.
  { apply letter_test in T3 as (c & _ & [E | E]); right; left; exists c; rewrite E;
      reflexivity. }
  right. right. reflexivity.
Qed.

Lemma with_path_read (x : wstring) (h : DriveHandler) :
  drivePath (config (with_path x h)) = x.
Proof. reflexivity. Qed.

(** X3. Feeding the function its own output: under a [towupper] that
    upper-cases the ASCII letters of [PhysicalDrive] and leaves digits
    alone, a path produced for a physical drive is accepted again and left
    unchanged, while a path produced for a logical drive (six code units) is
    rejected. *)
Theorem determineDriveType_again (p : wstring) (h h1 : DriveHandler) :
  map towupper (L "\\.\PhysicalDrive") = L "\\.\PHYSICALDRIVE" ->
  (forall d, isdigit d = true -> towupper d = d) ->
  (determineDriveType towupper iswalpha p h = (Returned PHYSICAL_DRIVE, h1) ->
   determineDriveType towupper iswalpha (drivePath (config h1)) h1
   = (Returned PHYSICAL_DRIVE, h1))
  /\ (determineDriveType towupper iswalpha p h = (Returned LOGICAL_DRIVE, h1) ->
      determineDriveType towupper iswalpha (drivePath (config h1)) h1
      = (Returned UNKNOWN_DRIVE, h1)).
Proof.
  intros Hup Hdig.
  destruct (determineDriveType_cases p h) as [(d & Hd & E) | [(c & E) | E]];
    rewrite E; split; intros R; try discriminate R;
    apply (f_equal snd) in R; cbn [snd] in R; subst h1.
  - rewrite with_path_read. unfold determineDriveType.
    rewrite not_single_digit_test by (intros (x & Ex & _); discriminate Ex).
    rewrite map_app, Hup. cbn [map]. rewrite (Hdig d Hd).
    assert (T2 : negb (is_npos (find (L "\\.\PHYSICALDRIVE" ++ [d]) (L "PHYSICALDRIVE")))
                 = true).
    { apply negb_true_iff, find_spec. exists (L "\\.\"), [d]. reflexivity. }
    rewrite T2, last_char, Hd. reflexivity.
  - apply determineDriveType_rejects_mid_length. cbn. lia.
Qed.

(** X4. The constructor has exactly two outcomes. Either the path is not
    recognized and it throws having constructed no reader, or it returns
    with exactly one reader constructed, on the normalized path now stored
    in the configuration: a logical-drive reader, or a physical-drive reader
    at offset 0, in agreement with the stored drive type. It never reports a
    missing sector reader, and both partition lists start empty. *)
Theorem DriveHandler_new_outcomes (cfg : Config) (raw : DriveHandler) :
  exists o h',
    DriveHandler_new towupper iswalpha device cfg raw = (o, h')
    /\ partitionsMBR h' = [] /\ partitionsGPT h' = []
    /\ ((o = Thrown unknown_drive_message
         /\ driveType h' = UNKNOWN_DRIVE /\ sectorReader h' = None /\ io h' = []
         /\ config h' = cfg)
        \/ (o = Returned tt
            /\ exists r, io h' = [EvOpen r] /\ sectorReader h' = Some (device r)
                 /\ ((driveType h' = LOGICAL_DRIVE
                      /\ r = LogicalDriveReader (drivePath (config h')))
                     \/ (driveType h' = PHYSICAL_DRIVE
                         /\ r = PhysicalDriveReader (drivePath (config h')) 0)))).
Proof.
  unfold DriveHandler_new. rewrite bind_get.
  set (h0 := set_io [] _).
  change (drivePath (config h0)) with (drivePath cfg).
  unfold bind at 1.
  destruct (determineDriveType_cases (drivePath cfg) h0) as [(d & Hd & E) | [(c & E) | E]];
    rewrite E.
  - eexists _, _. split; [reflexivity|]. split; [reflexivity|]. split; [reflexivity|].
    right. split; [reflexivity|]. eexists. split; [reflexivity|]. split; [reflexivity|].
    right. split; reflexivity.
  - eexists _, _. split; [reflexivity|]. split; [reflexivity|]. split; [reflexivity|].
    right. split; [reflexivity|]. eexists. split; [reflexivity|]. split; [reflexivity|].
    left. split; reflexivity.
  - eexists _, _. split; [reflexivity|]. split; [reflexivity|]. split; [reflexivity|].
    left. repeat split.
Qed.

End ClassifyMore.

Lemma determineDriveType_case_insensitive_witness :
  determineDriveType towupper_C iswalpha_C (L "physicaldrive2") raw_storage
  = determineDriveType towupper_C iswalpha_C (L "PhysicalDRIVE2") raw_storage.
Proof.
  apply determineDriveType_case_insensitive.
  - reflexivity.
  - intros (d & E & _). discriminate E.
  - intros (d & E & _). discriminate E.
Defined.

Lemma determineDriveType_rejects_mid_length_witness :
  determineDriveType towupper_C iswalpha_C (L "C:\") raw_storage
  = (Returned UNKNOWN_DRIVE, raw_storage)
  /\ determineDriveType towupper_C iswalpha_C (L "\\.\C:") raw_storage
     = (Returned UNKNOWN_DRIVE, raw_storage).
Proof.
  split; apply determineDriveType_rejects_mid_length; cbn; lia.
Defined.

Lemma determineDriveType_again_witness :
  determineDriveType towupper_C iswalpha_C (L "\\.\PhysicalDrive4")
                     (with_path (L "\\.\PhysicalDrive4") raw_storage)
  = (Returned PHYSICAL_DRIVE, with_path (L "\\.\PhysicalDrive4") raw_storage)
  /\ determineDriveType towupper_C iswalpha_C (L "\\.\D:")
                        (with_path (L "\\.\D:") raw_storage)
     = (Returned UNKNOWN_DRIVE, with_path (L "\\.\D:") raw_storage).
Proof.
  assert (Dig : forall d, isdigit d = true -> towupper_C d = d).
  { intros d Hd. unfold isdigit in Hd. unfold towupper_C.
    apply andb_true_iff in Hd as [A B]. apply Z.leb_le in A, B.
    replace (97 <=? d) with false by (symmetry; apply Z.leb_gt; lia). reflexivity. }
  split.
  - exact (proj1 (determineDriveType_again towupper_C iswalpha_C (L "4") raw_storage
                    (with_path (L "\\.\PhysicalDrive4") raw_storage) eq_refl Dig)
                 eq_refl).
  - exact (proj2 (determineDriveType_again towupper_C iswalpha_C (L "d") raw_storage
                    (with_path (L "\\.\D:") raw_storage) eq_refl Dig)
                 eq_refl).
Defined.

(** ** Filesystem label *)

Lemma cut_at_space_begins : forall (name label : list byte),
  (forall b, In b name -> b <> x20) ->
  (List.length name < List.length label)%nat ->
  (cut_at_space label = name
   <-> firstn (S (List.length name)) label = name ++ [x20]).
Proof.
  induction name as [|a name IH]; intros label NoSp Len.
  - destruct label as [|b rest]; [cbn in Len; lia|]. cbn.
    destruct (Raw.byte_eqb b x20) eqn:E.
    + apply byte_eqb_eq in E. subst b. split; reflexivity.
    + split; [discriminate|]. intros F. inversion F. subst b. discriminate E.
  - destruct label as [|b rest]; [cbn in Len; lia|].
    cbn [cut_at_space List.length firstn app]. cbn [List.length] in Len.
    destruct (Raw.byte_eqb b x20) eqn:E.
    + apply byte_eqb_eq in E. subst b. split; [discriminate|].
      intros F. inversion F. exfalso. apply (NoSp a); [now left | congruence].
    + specialize (IH rest (fun c Hc => NoSp c (or_intror Hc)) ltac:(lia)).
      split; intros F; inversion F; subst; f_equal; now apply IH.
Qed.

Lemma eq_lit_FAT32 s : Str.eq_lit s "FAT32" = true <-> s = Raw.of_string "FAT32".
Proof. unfold Str.eq_lit. apply bytes_eqb_eq. Qed.
Lemma eq_lit_NTFS s : Str.eq_lit s "NTFS" = true <-> s = Raw.of_string "NTFS".
Proof. unfold Str.eq_lit. apply bytes_eqb_eq. Qed.
Lemma eq_lit_exFAT s : Str.eq_lit s "exFAT" = true <-> s = Raw.of_string "exFAT".
Proof. unfold Str.eq_lit. apply bytes_eqb_eq. Qed.
Lemma eq_lit_EXT4 s : Str.eq_lit s "EXT4" = true <-> s = Raw.of_string "EXT4".
Proof. unfold Str.eq_lit. apply bytes_eqb_eq. Qed.

Lemma label_begins_cut (label : list byte) (name : string) :
  List.length label = 8%nat ->
  (List.length (Raw.of_string name) < 8)%nat ->
  (forall b, In b (Raw.of_string name) -> b <> x20) ->
  (label_begins label name <-> code_trim_label label = Raw.of_string name).
Proof.
  intros L8 Ln NoSp. rewrite code_trim_label_spaces_only. unfold label_begins.
  symmetry. apply cut_at_space_begins; [exact NoSp | lia].
Qed.

Lemma code_identify_by_prefix (label : list byte) :
  List.length label = 8%nat ->
  (code_identify label = FAT32_TYPE <-> label_begins label "FAT32")
  /\ (code_identify label = NTFS_TYPE <-> label_begins label "NTFS")
  /\ (code_identify label = EXFAT_TYPE <-> label_begins label "exFAT")
  /\ (code_identify label = EXT4_TYPE <-> label_begins label "EXT4").
Proof.
  intros L8.
  assert (NS : forall name, In name ["FAT32"; "NTFS"; "exFAT"; "EXT4"]%string ->
               (List.length (Raw.of_string name) < 8)%nat
               /\ forall b, In b (Raw.of_string name) -> b <> x20).
  { intros name [<- | [<- | [<- | [<- | []]]]]; (split; [cbn; lia|]);
      intros b Hb; cbn in Hb; intuition (subst; discriminate). }
  assert (B : forall name, In name ["FAT32"; "NTFS"; "exFAT"; "EXT4"]%string ->
              (label_begins label name <-> code_trim_label label = Raw.of_string name)).
  { intros name Hn. destruct (NS name Hn). now apply label_begins_cut. }
  rewrite (B "FAT32"%string), (B "NTFS"%string), (B "exFAT"%string), (B "EXT4"%string)
    by (cbn; auto 6).
  unfold code_identify. set (c := code_trim_label label).
  destruct (Str.eq_lit c "FAT32") eqn:E1.
  { apply eq_lit_FAT32 in E1. rewrite E1.
    repeat split; intros; try reflexivity; discriminate. }
  destruct (Str.eq_lit c "NTFS") eqn:E2.
  { apply eq_lit_NTFS in E2. rewrite E2.
    repeat split; intros; try reflexivity; discriminate. }
  destruct (Str.eq_lit c "exFAT") eqn:E3.
  { apply eq_lit_exFAT in E3. rewrite E3.
    repeat split; intros; try reflexivity; discriminate. }
  destruct (Str.eq_lit c "EXT4") eqn:E4.
  { apply eq_lit_EXT4 in E4. rewrite E4.
    repeat split; intros; try reflexivity; discriminate. }
  repeat split; intros F; try discriminate F; exfalso.
  - apply eq_lit_FAT32 in F. congruence.
  - apply eq_lit_NTFS in F. congruence.
  - apply eq_lit_exFAT in F. congruence.
  - apply eq_lit_EXT4 in F. congruence.
Qed.

(** X5. What [getFSTypeFromBootSector] recognizes, on the raw field: when
    the sector can be read it answers FAT32, NTFS, exFAT or EXT4 exactly
    when the eight-byte label field begins with that name followed by a
    space (whatever follows the space), and [UNKNOWN_TYPE] in every other
    case. *)
Theorem getFSTypeFromBootSector_by_prefix
  (h : DriveHandler) (reader : SectorReader.t) (sector : Z) (bs : list byte) :
  sectorReader h = Some reader ->
  SectorReader.readSector reader sector 512 = Some bs ->
  let label := BootSector.FileSystemType bs in
  exists t h',
    getFSTypeFromBootSector sector h = (Returned t, h')
    /\ (t = FAT32_TYPE <-> label_begins label "FAT32")
    /\ (t = NTFS_TYPE <-> label_begins label "NTFS")
    /\ (t = EXFAT_TYPE <-> label_begins label "exFAT")
    /\ (t = EXT4_TYPE <-> label_begins label "EXT4").
Proof.
  intros Hr Hb label. eexists _, _. split.
  - exact (getFSTypeFromBootSector_run h reader sector bs Hr Hb).
  - apply code_identify_by_prefix. apply bytes_at_length.
Qed.

Lemma getFSTypeFromBootSector_by_prefix_witness :
  exists h',
    getFSTypeFromBootSector 0 (with_reader (sample_volume (Raw.of_string "FAT32 v1")))
    = (Returned FAT32_TYPE, h').
Proof.
  destruct (getFSTypeFromBootSector_by_prefix
              (with_reader (sample_volume (Raw.of_string "FAT32 v1")))
              (sample_volume (Raw.of_string "FAT32 v1")) 0
              (sample_boot_sector (Raw.of_string "FAT32 v1")) eq_refl eq_refl)
    as (t & h' & Run & F & _).
  exists h'. rewrite Run. f_equal. f_equal. apply F. reflexivity.
Defined.

(** ** The recovery entry point, end to end *)

Lemma closeDrive_open (h : DriveHandler) (reader : SectorReader.t) :
  sectorReader h = Some reader ->
  closeDrive h = (Returned tt, set_sectorReader None (set_io (io h ++ [EvClose]) h)).
Proof.
  intros Hr. unfold closeDrive. rewrite bind_get, Hr. reflexivity.
Qed.

Lemma flat_map_filter_if {A B} (sel : A -> bool) (f : A -> list B) (l : list A) :
  flat_map (fun x => if sel x then f x else []) l = flat_map f (filter sel l).
Proof.
  induction l as [|x l IH]; [reflexivity|].
  cbn [flat_map filter]. rewrite IH. destruct (sel x); reflexivity.
Qed.

Section RecoverDrive.

Variable FAT32Recovery_run : Config -> ReaderSpec -> option string.
Variable FilesystemType_value : FilesystemType -> Z.
Variable GUID_FAT32_TYPE : list byte.

Lemma runFAT32Recovery_throws (r : ReaderSpec) (h : DriveHandler) (what : string) :
  FAT32Recovery_run (config h) r = Some what ->
  runFAT32Recovery FAT32Recovery_run r h
  = (Thrown what, set_io (io h ++ recovery_events r) h).
Proof.
  intros E. unfold runFAT32Recovery. monad_unfold. state_simpl.
  rewrite E. unfold recovery_events. now rewrite <- app_assoc.
Qed.

(** X6. On a logical drive whose boot sector can be read, [recoverDrive]
    reads sector 0, closes the drive, and only then, if and only if the
    label begins with FAT32 and a space, constructs a logical-drive reader
    on the configured path and runs the recovery engine once. Any other
    label ends the call normally with no recovery; an exception of the
    engine propagates unchanged. *)
Theorem recoverDrive_logical
  (h : DriveHandler) (reader : SectorReader.t) (bs : list byte) (fuel : nat) :
  driveType h = LOGICAL_DRIVE ->
  sectorReader h = Some reader ->
  SectorReader.readSector reader 0 512 = Some bs ->
  let r := LogicalDriveReader (drivePath (config h)) in
  exists o h',
    recoverDrive FAT32Recovery_run FilesystemType_value GUID_FAT32_TYPE fuel h = (o, h')
    /\ sectorReader h' = None
    /\ (~ label_begins (BootSector.FileSystemType bs) "FAT32" ->
        o = Returned tt /\ io h' = io h ++ [EvReadSector 0 512; EvClose])
    /\ (label_begins (BootSector.FileSystemType bs) "FAT32" ->
        io h' = io h ++ [EvReadSector 0 512; EvClose; EvOpen r; EvFAT32Recovery r]
        /\ (FAT32Recovery_run (config h) r = None -> o = Returned tt)
        /\ (forall what, FAT32Recovery_run (config h) r = Some what -> o = Thrown what)).
Proof.
  intros Dt Hr Hb r.
  destruct (code_identify_by_prefix (BootSector.FileSystemType bs)
              (bytes_at_length bs 82 8)) as (F & _).
  unfold recoverDrive. rewrite bind_get, Dt. unfold bind at 1.
  rewrite (getFSTypeFromBootSector_run h reader 0 bs Hr Hb).
  unfold bind at 1. erewrite closeDrive_open by exact Hr.
  destruct (FilesystemType_eqb (code_identify (BootSector.FileSystemType bs)) FAT32_TYPE)
    eqn:Fs.
  - assert (Beg : label_begins (BootSector.FileSystemType bs) "FAT32").
    { apply F. destruct (code_identify _); try discriminate Fs; reflexivity. }
    unfold recoverFromLogicalDriveFAT32. rewrite bind_get.
    change (drivePath (config _)) with (drivePath (config h)). fold r.
    destruct (FAT32Recovery_run (config h) r) as [what|] eqn:Run.
    + erewrite runFAT32Recovery_throws by exact Run.
      eexists _, _. split; [reflexivity|]. state_simpl. split; [reflexivity|].
      split; [intros N; contradiction|]. intros _.
      unfold after_boot_sector, recovery_events. state_simpl.
      rewrite <- !app_assoc. cbn [app].
      split; [reflexivity|]. split; [discriminate|]. intros w E. congruence.
    + erewrite runFAT32Recovery_returns by exact Run.
      eexists _, _. split; [reflexivity|]. state_simpl. split; [reflexivity|].
      split; [intros N; contradiction|]. intros _.
      unfold after_boot_sector, recovery_events. state_simpl.
      rewrite <- !app_assoc. cbn [app].
      split; [reflexivity|]. split; [reflexivity|]. intros w E. discriminate E.
  - assert (NBeg : ~ label_begins (BootSector.FileSystemType bs) "FAT32").
    { intros B. apply F in B. rewrite B in Fs. discriminate Fs. }
    eexists _, _. split; [reflexivity|]. state_simpl. split; [reflexivity|].
    split; [|intros B; contradiction]. intros _.
    unfold after_boot_sector. state_simpl. rewrite <- !app_assoc. cbn [app].
    split; reflexivity.
Qed.

Lemma scheme_tests (sector0 sector1 : list byte) :
  (GPT_signature_valid sector1 ->
   Raw.bytes_eqb (GPTHeader.Signature sector1) (firstn 8 (Raw.of_string "EFI PART")) = true)
  /\ (~ GPT_signature_valid sector1 ->
      Raw.bytes_eqb (GPTHeader.Signature sector1) (firstn 8 (Raw.of_string "EFI PART"))
      = false)
  /\ (MBR_signature_valid sector0 -> (MBRHeader.signature sector0 =? 0xAA55) = true).
Proof.
  split; [apply isGPT_test|]. split; [|apply isMBR_test].
  intros N. destruct (Raw.bytes_eqb _ _) eqn:E; [|reflexivity].
  apply isGPT_test in E. contradiction.
Qed.

(** X7. On a physical drive with an MBR and no GPT signature, [recoverDrive]
    reads sectors 0 and 1, appends the present slots of the partition table
    to [partitionsMBR], closes the drive, and then runs the recovery engine
    on every entry of the list whose type byte is the [FAT32_TYPE] value, in
    order, each through a new physical-drive reader at the entry's start
    LBA. No recovery reader is constructed before the drive is closed. *)
Theorem recoverDrive_MBR
  (h : DriveHandler) (reader : SectorReader.t) (sector0 sector1 : list byte)
  (fuel : nat) :
  let path := drivePath (config h) in
  let parts := partitionsMBR h ++ filter MBR_slot_present (MBR_slots sector0) in
  let is_FAT32 := MBR_is_FAT32 (FilesystemType_value FAT32_TYPE) in
  driveType h = PHYSICAL_DRIVE ->
  sectorReader h = Some reader ->
  SectorReader.readSector reader 0 MBRHeader.sizeof = Some sector0 ->
  SectorReader.readSector reader 1 GPTHeader.sizeof = Some sector1 ->
  MBR_signature_valid sector0 ->
  ~ GPT_signature_valid sector1 ->
  (forall p, In p parts -> is_FAT32 p = true ->
     FAT32Recovery_run (config h) (MBR_partition_reader path p) = None) ->
  exists h',
    recoverDrive FAT32Recovery_run FilesystemType_value GUID_FAT32_TYPE fuel h
    = (Returned tt, h')
    /\ partitionsMBR h' = parts
    /\ partitionsGPT h' = partitionsGPT h
    /\ sectorReader h' = None
    /\ io h' = io h
               ++ [EvReadSector 0 MBRHeader.sizeof; EvReadSector 1 GPTHeader.sizeof;
                   EvClose]
               ++ flat_map (fun p => recovery_events (MBR_partition_reader path p))
                           (filter is_FAT32 parts).
Proof.
  intros path parts is_FAT32 Dt Hr R0 R1 VM NG Ok.
  destruct (scheme_tests sector0 sector1) as (_ & TG & TM).
  unfold recoverDrive. rewrite bind_get, Dt. unfold bind at 1.
  rewrite (getPartitionScheme_run h reader sector0 sector1 Hr R0 R1).
  rewrite (TG NG), (TM VM).
  unfold bind at 1. unfold getMBRPartitions. rewrite for_each_MBR_slots.
  unfold bind at 1. erewrite closeDrive_open by exact Hr.
  unfold recoverFromPhysicalDriveFAT32. rewrite bind_get.
  match goal with |- context [for_each ?l _ ?h3] =>
    pose proof (for_each_recovery FAT32Recovery_run is_FAT32 StartLBA l h3) as Pass
  end.
  state_simpl. unfold after_probe in Pass |- *. state_simpl.
  change (map (MBRHeader.PartitionTable sector0) [0%nat; 1%nat; 2%nat; 3%nat])
    with (MBR_slots sector0) in Pass |- *.
  fold parts in Pass |- *. fold path in Pass.
  specialize (Pass Ok).
  eexists. split; [exact Pass|]. state_simpl.
  split; [reflexivity|]. split; [reflexivity|]. split; [reflexivity|].
  rewrite flat_map_filter_if, <- !app_assoc. reflexivity.
Qed.

(** X8. A probe read that fails aborts [recoverDrive] with the read error:
    on a logical drive at sector 0, on a physical drive at sector 0 or,
    after sector 0 was stored in [mbr], at sector 1. Nothing else has
    happened by then: no partition is extracted, no recovery is started,
    and the drive is left open. *)
Theorem recoverDrive_probe_failure
  (h : DriveHandler) (reader : SectorReader.t) (fuel : nat) :
  sectorReader h = Some reader ->
  let run := recoverDrive FAT32Recovery_run FilesystemType_value GUID_FAT32_TYPE fuel h in
  (driveType h = LOGICAL_DRIVE ->
   SectorReader.readSector reader 0 512 = None ->
   run = (Thrown "Cannot read sector.", set_io (io h ++ [EvReadSector 0 512]) h))
  /\ (driveType h = PHYSICAL_DRIVE ->
      SectorReader.readSector reader 0 MBRHeader.sizeof = None ->
      run = (Thrown "Cannot read sector.",
             set_io (io h ++ [EvReadSector 0 MBRHeader.sizeof]) h))
  /\ (driveType h = PHYSICAL_DRIVE ->
      forall sector0,
        SectorReader.readSector reader 0 MBRHeader.sizeof = Some sector0 ->
        SectorReader.readSector reader 1 GPTHeader.sizeof = None ->
        run = (Thrown "Cannot read sector.",
               set_mbr sector0
                 (set_io (io h ++ [EvReadSector 0 MBRHeader.sizeof;
                                   EvReadSector 1 GPTHeader.sizeof]) h))).
Proof.
  intros Hr run. subst run. repeat split.
  - intros Dt R. unfold recoverDrive. rewrite bind_get, Dt.
    unfold bind at 1. unfold getFSTypeFromBootSector. unfold bind at 1.
    unfold readBootSector. unfold bind at 1.
    rewrite (readSector_fail h reader 0 512 Hr R). reflexivity.
  - intros Dt R. unfold recoverDrive. rewrite bind_get, Dt.
    unfold bind at 1. unfold getPartitionScheme. unfold bind at 1.
    unfold readMBR. unfold bind at 1.
    rewrite (readSector_fail h reader 0 MBRHeader.sizeof Hr R). reflexivity.
  - intros Dt sector0 R0 R1. unfold recoverDrive. rewrite bind_get, Dt.
    unfold bind at 1. unfold getPartitionScheme. unfold bind at 1.
    unfold readMBR. unfold bind at 1.
    rewrite (readSector_ok h reader 0 MBRHeader.sizeof Hr sector0 R0).
    unfold modify at 1. unfold bind at 1. unfold readGPT. unfold bind at 1.
    erewrite readSector_fail; [| exact Hr | exact R1].
    state_simpl. rewrite <- app_assoc. reflexivity.
Qed.

(** X9. On a GPT drive whose sector size cannot be queried, [recoverDrive]
    throws the query error right after the two probe reads: no sector of
    the entry array is read, no entry is appended, no recovery is started,
    and the drive is left open. *)
Theorem recoverDrive_GPT_no_sector_size
  (h : DriveHandler) (reader : SectorReader.t) (sector0 sector1 : list byte)
  (fuel : nat) :
  driveType h = PHYSICAL_DRIVE ->
  sectorReader h = Some reader ->
  SectorReader.readSector reader 0 MBRHeader.sizeof = Some sector0 ->
  SectorReader.readSector reader 1 GPTHeader.sizeof = Some sector1 ->
  GPT_signature_valid sector1 ->
  SectorReader.getBytesPerSector reader = None ->
  recoverDrive FAT32Recovery_run FilesystemType_value GUID_FAT32_TYPE fuel h
  = (Thrown "Failed to read BytesPerSector value using DeviceIoControl",
     set_gpt sector1 (set_mbr sector0
       (set_io (io h ++ [EvReadSector 0 MBRHeader.sizeof;
                         EvReadSector 1 GPTHeader.sizeof;
                         EvGetBytesPerSector]) h))).
Proof.
  intros Dt Hr R0 R1 VG Q.
  destruct (scheme_tests sector0 sector1) as (TG & _ & _).
  unfold recoverDrive. rewrite bind_get, Dt. unfold bind at 1.
  rewrite (getPartitionScheme_run h reader sector0 sector1 Hr R0 R1).
  rewrite (TG VG). unfold bind at 1. unfold getBytesPerSector.
  rewrite bind_get. unfold after_probe. state_simpl. rewrite Hr.
  monad_unfold. state_simpl. rewrite Q. rewrite <- app_assoc. reflexivity.
Qed.

Lemma GPT_pass_body (partition : GPTPartitionEntry) (h : DriveHandler) :
  (if FilesystemType_eqb
        (getFSTypeFromGPTPartition GUID_FAT32_TYPE (PartitionTypeGUID partition))
        FAT32_TYPE
   then recoverFromPhysicalDriveFAT32GPT FAT32Recovery_run partition
   else ret tt) h
  = (if GPT_is_FAT32 GUID_FAT32_TYPE partition
     then
       p <- get (fun h0 => drivePath (config h0)) ;;
       runFAT32Recovery FAT32Recovery_run (PhysicalDriveReader p (StartingLBA partition))
     else ret tt) h.
Proof.
  unfold getFSTypeFromGPTPartition, GPT_is_FAT32.
  destruct (Raw.bytes_eqb _ _); reflexivity.
Qed.

Lemma GPT_pass_run (h : DriveHandler) :
  (forall p, In p (partitionsGPT h) -> GPT_is_FAT32 GUID_FAT32_TYPE p = true ->
     FAT32Recovery_run (config h)
       (GPT_partition_reader (drivePath (config h)) p) = None) ->
  recoverFromPhysicalDriveFAT32 FAT32Recovery_run FilesystemType_value GUID_FAT32_TYPE
                                GPT_SCHEME h
  = (Returned tt,
     set_io (io h ++ flat_map (fun p =>
                        recovery_events (GPT_partition_reader (drivePath (config h)) p))
                      (filter (GPT_is_FAT32 GUID_FAT32_TYPE) (partitionsGPT h))) h).
Proof.
  intros Ok. unfold recoverFromPhysicalDriveFAT32. rewrite bind_get.
  unfold GPT_partition_reader in *. rewrite <- flat_map_filter_if.
  rewrite <- (for_each_recovery FAT32Recovery_run (GPT_is_FAT32 GUID_FAT32_TYPE)
                StartingLBA (partitionsGPT h) h Ok).
  apply for_each_ext. intros x h0. apply GPT_pass_body.
Qed.

(** X10. On a physical drive with a GPT signature and a well-formed entry
    array (128-byte entries, sector size a multiple of 128, offsets within
    32 bits, sectors readable), [recoverDrive] reads sectors 0 and 1,
    queries the sector size, reads the entry array sector by sector,
    appends its in-use entries to [partitionsGPT], closes the drive, and
    then runs the recovery engine on every entry of the list whose type
    GUID is [GUID_FAT32_TYPE], in order, each through a new physical-drive
    reader at the entry's starting LBA. *)
Theorem recoverDrive_GPT
  (h : DriveHandler) (reader : SectorReader.t) (sector0 sector1 : list byte)
  (bps : Z) (sect : nat -> list byte) (fuel : nat) :
  let path := drivePath (config h) in
  let sizeOfEntry := GPTHeader.SizeOfEntry sector1 in
  let numberOfEntries := GPTHeader.NumberOfEntries sector1 in
  let lba := GPTHeader.PartitionEntryLBA sector1 in
  let reads := sectors_needed numberOfEntries (bps / sizeOfEntry) in
  let slots := entry_slots (entry_array sect (Z.to_nat reads)) sizeOfEntry
                           (Z.to_nat numberOfEntries) in
  let parts := partitionsGPT h ++ map parse_GPTPartitionEntry (filter slot_in_use slots) in
  driveType h = PHYSICAL_DRIVE ->
  sectorReader h = Some reader ->
  SectorReader.readSector reader 0 MBRHeader.sizeof = Some sector0 ->
  SectorReader.readSector reader 1 GPTHeader.sizeof = Some sector1 ->
  GPT_signature_valid sector1 ->
  SectorReader.getBytesPerSector reader = Some bps ->
  sizeOfEntry = sizeof_GPTPartitionEntry ->
  0 < bps < 2 ^ 32 ->
  bps mod sizeOfEntry = 0 ->
  numberOfEntries * sizeOfEntry <= 2 ^ 32 ->
  lba + reads <= 2 ^ 64 ->
  (forall t : nat, (t < Z.to_nat reads)%nat ->
     SectorReader.readSector reader (lba + Z.of_nat t) bps = Some (sect t)
     /\ List.length (sect t) = Z.to_nat bps) ->
  reads < Z.of_nat fuel ->
  (forall p, In p parts -> GPT_is_FAT32 GUID_FAT32_TYPE p = true ->
     FAT32Recovery_run (config h) (GPT_partition_reader path p) = None) ->
  exists h',
    recoverDrive FAT32Recovery_run FilesystemType_value GUID_FAT32_TYPE fuel h
    = (Returned tt, h')
    /\ partitionsGPT h' = parts
    /\ partitionsMBR h' = partitionsMBR h
    /\ bytesPerSector h' = bps
    /\ sectorReader h' = None
    /\ io h' = io h
               ++ [EvReadSector 0 MBRHeader.sizeof; EvReadSector 1 GPTHeader.sizeof;
                   EvGetBytesPerSector]
               ++ map (fun t => EvReadSector (lba + Z.of_nat t) bps)
                      (seq 0 (Z.to_nat reads))
               ++ [EvClose]
               ++ flat_map (fun p => recovery_events (GPT_partition_reader path p))
                           (filter (GPT_is_FAT32 GUID_FAT32_TYPE) parts).
Proof.
  intros path sizeOfEntry numberOfEntries lba reads slots parts
         Dt Hr R0 R1 VG Q Hsize Hbps Hdiv Hoff Hlba Hread Hfuel Ok.
  destruct (scheme_tests sector0 sector1) as (TG & _ & _).
  unfold recoverDrive. rewrite bind_get, Dt. unfold bind at 1.
  rewrite (getPartitionScheme_run h reader sector0 sector1 Hr R0 R1).
  rewrite (TG VG). unfold bind at 1. unfold getBytesPerSector at 1.
  rewrite bind_get. unfold after_probe. state_simpl. rewrite Hr.
  unfold bind at 1. unfold emit at 1, modify at 1.
  rewrite Q. unfold modify at 1.
  unfold bind at 1.
  rewrite (getGPTPartitions_wf_run reader sector1 bps sect
             Hsize Hbps Hdiv Hoff Hlba Hread _ fuel) by (repeat split; exact Hr) || exact Hfuel.
  unfold bind at 1. erewrite closeDrive_open by exact Hr.
  rewrite GPT_pass_run.
  - eexists. split; [reflexivity|]. unfold after_scan. state_simpl.
    split; [reflexivity|]. split; [reflexivity|]. split; [reflexivity|].
    split; [reflexivity|].
    rewrite <- !app_assoc. reflexivity.
  - unfold after_scan. state_simpl. exact Ok.
Qed.

(** A pass stops at the first selected partition on which the engine
    throws. *)
Lemma for_each_recovery_throws {A} (sel : A -> bool) (lba : A -> Z) :
  forall (pre : list A) (x : A) (post : list A) (h : DriveHandler) (what : string),
    (forall p, In p pre -> sel p = true ->
       FAT32Recovery_run (config h)
         (PhysicalDriveReader (drivePath (config h)) (lba p)) = None) ->
    sel x = true ->
    FAT32Recovery_run (config h)
      (PhysicalDriveReader (drivePath (config h)) (lba x)) = Some what ->
    for_each (pre ++ x :: post) (fun partition =>
      if sel partition then
        p <- get (fun h => drivePath (config h)) ;;
        runFAT32Recovery FAT32Recovery_run (PhysicalDriveReader p (lba partition))
      else ret tt) h
    = (Thrown what,
       set_io (io h
               ++ flat_map (fun p =>
                    recovery_events (PhysicalDriveReader (drivePath (config h)) (lba p)))
                    (filter sel pre)
               ++ recovery_events (PhysicalDriveReader (drivePath (config h)) (lba x)))
              h).
Proof.
  induction pre as [|y pre IH]; intros x post h what Ok Sx Fx.
  - cbn [app for_each filter flat_map]. unfold bind at 1. rewrite Sx.
    rewrite bind_get. now rewrite (runFAT32Recovery_throws _ _ _ Fx).
  - cbn [app for_each filter]. unfold bind at 1.
    destruct (sel y) eqn:Sy.
    + rewrite bind_get.
      rewrite runFAT32Recovery_returns by (apply Ok; [now left | exact Sy]).
      rewrite (IH x post _ what).
      * state_simpl. cbn [flat_map]. now rewrite <- !app_assoc.
      * intros p Hp Sp. state_simpl. apply Ok; [now right | exact Sp].
      * exact Sx.
      * exact Fx.
    + unfold ret at 1. apply IH; [|exact Sx | exact Fx].
      intros p Hp Sp. apply Ok; [now right | exact Sp].
Qed.

(** X11. A recovery pass has no error handling of its own: when the engine
    throws on a FAT32 partition, the pass ends with that exception, having
    run the engine on the FAT32 partitions up to and including that one
    and on none of the partitions after it. *)
Theorem recoverFromPhysicalDriveFAT32_stops_at_failure
  (h : DriveHandler) (what : string) :
  let path := drivePath (config h) in
  let run scheme :=
    recoverFromPhysicalDriveFAT32 FAT32Recovery_run FilesystemType_value
                                  GUID_FAT32_TYPE scheme h in
  let MBR_FAT32 := MBR_is_FAT32 (FilesystemType_value FAT32_TYPE) in
  let GPT_FAT32 := GPT_is_FAT32 GUID_FAT32_TYPE in
  (forall pre x post,
     partitionsMBR h = pre ++ x :: post ->
     (forall p, In p pre -> MBR_FAT32 p = true ->
        FAT32Recovery_run (config h) (MBR_partition_reader path p) = None) ->
     MBR_FAT32 x = true ->
     FAT32Recovery_run (config h) (MBR_partition_reader path x) = Some what ->
     exists h',
       run MBR_SCHEME = (Thrown what, h')
       /\ recovery_runs (io h')
          = recovery_runs (io h)
            ++ map (MBR_partition_reader path) (filter MBR_FAT32 pre)
            ++ [MBR_partition_reader path x])
  /\ (forall pre x post,
        partitionsGPT h = pre ++ x :: post ->
        (forall p, In p pre -> GPT_FAT32 p = true ->
           FAT32Recovery_run (config h) (GPT_partition_reader path p) = None) ->
        GPT_FAT32 x = true ->
        FAT32Recovery_run (config h) (GPT_partition_reader path x) = Some what ->
        exists h',
          run GPT_SCHEME = (Thrown what, h')
          /\ recovery_runs (io h')
             = recovery_runs (io h)
               ++ map (GPT_partition_reader path) (filter GPT_FAT32 pre)
               ++ [GPT_partition_reader path x]).
Proof.
  intros path run MBR_FAT32 GPT_FAT32.
  assert (Runs : forall {A} (rd : A -> ReaderSpec) (l : list A) (y : A),
             recovery_runs (io h ++ flat_map (fun p => recovery_events (rd p)) l
                            ++ recovery_events (rd y))
             = recovery_runs (io h) ++ map rd l ++ [rd y]).
  { intros A rd l y. unfold recovery_runs. rewrite !flat_map_app. f_equal. f_equal.
    induction l as [|a l IH]; [reflexivity|]. cbn. now rewrite IH. }
  split; intros pre x post Parts Ok Sx Fx; subst run; cbv beta.
  - eexists. split.
    + unfold recoverFromPhysicalDriveFAT32. rewrite bind_get, Parts.
      apply (for_each_recovery_throws MBR_FAT32 StartLBA pre x post h what Ok Sx Fx).
    + state_simpl. apply (Runs _ (MBR_partition_reader path)).
  - eexists. split.
    + unfold recoverFromPhysicalDriveFAT32. rewrite bind_get, Parts.
      rewrite <- (for_each_recovery_throws GPT_FAT32 StartingLBA pre x post h what
                    Ok Sx Fx).
      apply for_each_ext. intros y h0. apply GPT_pass_body.
    + state_simpl. apply (Runs _ (GPT_partition_reader path)).
Qed.

End RecoverDrive.

Lemma recoverDrive_logical_witness :
  exists h',
    recoverDrive always_returns sample_FilesystemType_value sample_GUID_FAT32_TYPE 0
                 (logical_on (sample_volume (Raw.of_string "FAT32   ")))
    = (Returned tt, h')
    /\ io h' = [EvReadSector 0 512; EvClose; EvOpen (LogicalDriveReader []);
                EvFAT32Recovery (LogicalDriveReader [])].
Proof.
  destruct (recoverDrive_logical always_returns sample_FilesystemType_value
              sample_GUID_FAT32_TYPE
              (logical_on (sample_volume (Raw.of_string "FAT32   ")))
              (sample_volume (Raw.of_string "FAT32   "))
              (sample_boot_sector (Raw.of_string "FAT32   ")) 0%nat
              eq_refl eq_refl eq_refl)
    as (o & h' & Run & _ & _ & Fat).
  destruct (Fat eq_refl) as (Io & Ret & _).
  exists h'. rewrite Run, (Ret eq_refl). split; [reflexivity | exact Io].
Defined.

Lemma recoverDrive_MBR_witness :
  exists h',
    recoverDrive always_returns sample_FilesystemType_value sample_GUID_FAT32_TYPE 0
                 (physical_on sample_mbr_disk)
    = (Returned tt, h')
    /\ map StartLBA (partitionsMBR h') = [8; 80]
    /\ io h' = [EvReadSector 0 512; EvReadSector 1 512; EvClose;
                EvOpen (PhysicalDriveReader [] 8);
                EvFAT32Recovery (PhysicalDriveReader [] 8)].
Proof.
  destruct (recoverDrive_MBR always_returns sample_FilesystemType_value
              sample_GUID_FAT32_TYPE (physical_on sample_mbr_disk) sample_mbr_disk
              sample_mbr_sector (repeat x00 512) 0%nat
              eq_refl eq_refl eq_refl eq_refl)
    as (h' & Run & Parts & _ & _ & Io).
  - split; reflexivity.
  - intros E. discriminate E.
  - reflexivity.
  - exists h'. split; [exact Run|]. split.
    + rewrite Parts. reflexivity.
    + rewrite Io. reflexivity.
Defined.

Lemma recoverDrive_probe_failure_witness :
  recoverDrive always_returns sample_FilesystemType_value sample_GUID_FAT32_TYPE 0
               (physical_on failing_reader)
  = (Thrown "Cannot read sector.",
     set_io [EvReadSector 0 512] (physical_on failing_reader))
  /\ recoverDrive always_returns sample_FilesystemType_value sample_GUID_FAT32_TYPE 0
                  (logical_on failing_reader)
     = (Thrown "Cannot read sector.",
        set_io [EvReadSector 0 512] (logical_on failing_reader)).
Proof.
  split.
  - apply (proj1 (proj2 (recoverDrive_probe_failure always_returns
              sample_FilesystemType_value sample_GUID_FAT32_TYPE
              (physical_on failing_reader) failing_reader 0%nat eq_refl)));
      reflexivity.
  - apply (proj1 (recoverDrive_probe_failure always_returns
              sample_FilesystemType_value sample_GUID_FAT32_TYPE
              (logical_on failing_reader) failing_reader 0%nat eq_refl));
      reflexivity.
Defined.

Lemma recoverDrive_GPT_no_sector_size_witness :
  fst (recoverDrive always_returns sample_FilesystemType_value sample_GUID_FAT32_TYPE 0
                    (physical_on sample_gpt_disk_no_geometry))
  = Thrown "Failed to read BytesPerSector value using DeviceIoControl".
Proof.
  rewrite (recoverDrive_GPT_no_sector_size always_returns sample_FilesystemType_value
             sample_GUID_FAT32_TYPE (physical_on sample_gpt_disk_no_geometry)
             sample_gpt_disk_no_geometry sample_protective_mbr sample_gpt_header 0%nat
             eq_refl eq_refl eq_refl eq_refl eq_refl eq_refl).
  reflexivity.
Defined.

Lemma recoverDrive_GPT_witness :
  exists h',
    recoverDrive always_returns sample_FilesystemType_value sample_entry_GUID 3
                 (physical_on sample_gpt_disk)
    = (Returned tt, h')
    /\ map StartingLBA (partitionsGPT h') = [40; 48]
    /\ io h' = [EvReadSector 0 512; EvReadSector 1 512; EvGetBytesPerSector;
                EvReadSector 2 512; EvReadSector 3 512; EvClose;
                EvOpen (PhysicalDriveReader [] 40);
                EvFAT32Recovery (PhysicalDriveReader [] 40)].
Proof.
  destruct (recoverDrive_GPT always_returns sample_FilesystemType_value
              sample_entry_GUID (physical_on sample_gpt_disk) sample_gpt_disk
              sample_protective_mbr sample_gpt_header 512 sample_gpt_sectors 3%nat
              eq_refl eq_refl eq_refl eq_refl eq_refl eq_refl eq_refl)
    as (h' & Run & Parts & _ & _ & _ & Io).
  - vm_compute. split; reflexivity.
  - reflexivity.
  - vm_compute. discriminate.
  - vm_compute. discriminate.
  - intros t Ht. change (Z.to_nat _) with 2%nat in Ht.
    destruct t as [|[|t]]; [split; reflexivity | split; reflexivity | lia].
  - reflexivity.
  - reflexivity.
  - exists h'. split; [exact Run|]. split.
    + rewrite Parts. vm_compute. reflexivity.
    + rewrite Io. vm_compute. reflexivity.
Defined.

Lemma recoverFromPhysicalDriveFAT32_stops_at_failure_witness :
  (exists h',
     recoverFromPhysicalDriveFAT32 (throws_at 8) sample_FilesystemType_value
       sample_GUID_FAT32_TYPE MBR_SCHEME sample_partitioned
     = (Thrown "engine failed", h')
     /\ recovery_runs (io h') = [PhysicalDriveReader [] 8])
  /\ (exists h',
        recoverFromPhysicalDriveFAT32 (throws_at 8192) sample_FilesystemType_value
          sample_GUID_FAT32_TYPE GPT_SCHEME sample_partitioned
        = (Thrown "engine failed", h')
        /\ recovery_runs (io h')
           = [PhysicalDriveReader [] 2048; PhysicalDriveReader [] 8192]).
Proof.
  split.
  - destruct (proj1 (recoverFromPhysicalDriveFAT32_stops_at_failure (throws_at 8)
                sample_FilesystemType_value sample_GUID_FAT32_TYPE sample_partitioned
                "engine failed")
              [] (sample_MBR_partition 0x0B 8 64)
              [sample_MBR_partition 0x07 80 32; sample_MBR_partition 0x0B 200 100]
              eq_refl)
      as (h' & Run & Runs).
    + intros p [].
    + reflexivity.
    + reflexivity.
    + exists h'. split; [exact Run | exact Runs].
  - destruct (proj2 (recoverFromPhysicalDriveFAT32_stops_at_failure (throws_at 8192)
                sample_FilesystemType_value sample_GUID_FAT32_TYPE sample_partitioned
                "engine failed")
              [sample_GPT_partition sample_GUID_FAT32_TYPE 2048 4095;
               sample_GPT_partition sample_GUID_linux 4096 8191]
              (sample_GPT_partition sample_GUID_FAT32_TYPE 8192 9000) []
              eq_refl)
      as (h' & Run & Runs).
    + intros p [<- | [<- | []]] _; reflexivity.
    + reflexivity.
    + reflexivity.
    + exists h'. split; [exact Run | exact Runs].
Defined.

(** ** The GPT scan on degenerate and failing input *)

Lemma after_scan_reads (reads : list Event) (h : DriveHandler) :
  set_io (io h ++ reads) h = after_scan [] reads h.
Proof. unfold after_scan. destruct h; cbn. now rewrite app_nil_r. Qed.

(** X12. Degenerate headers. With [SizeOfEntry = 0] the scan divides by
    zero before doing anything; with a nonzero entry size and
    [NumberOfEntries = 0] it returns at once; with entries announced and a
    zero sector size it divides by zero in its first iteration. In all
    three cases no sector is read and the handler is left as it was. *)
Theorem getGPTPartitions_degenerate (h : DriveHandler) (fuel : nat) :
  (GPTHeader.SizeOfEntry (gpt h) = 0 -> getGPTPartitions fuel h = (Fault, h))
  /\ (GPTHeader.SizeOfEntry (gpt h) <> 0 -> GPTHeader.NumberOfEntries (gpt h) = 0 ->
      getGPTPartitions (S fuel) h = (Returned tt, h))
  /\ (GPTHeader.SizeOfEntry (gpt h) <> 0 -> GPTHeader.NumberOfEntries (gpt h) <> 0 ->
      bytesPerSector h = 0 ->
      getGPTPartitions (S fuel) h = (Fault, h)).
Proof.
  repeat split.
  - intros S0. unfold getGPTPartitions. rewrite !bind_get, S0. reflexivity.
  - intros S0 N0. unfold getGPTPartitions. rewrite !bind_get.
    apply Z.eqb_neq in S0. rewrite S0. cbn [getGPTPartitions_sectors].
    rewrite bind_get, N0. reflexivity.
  - intros S0 N0 B0. unfold getGPTPartitions. rewrite !bind_get.
    apply Z.eqb_neq in S0. rewrite S0. cbn [getGPTPartitions_sectors].
    rewrite bind_get.
    pose proof (u32_range (gpt h) 80) as R. fold (GPTHeader.NumberOfEntries (gpt h)) in R.
    replace (0 <? GPTHeader.NumberOfEntries (gpt h)) with true
      by (symmetry; apply Z.ltb_lt; lia).
    rewrite !bind_get, B0. reflexivity.
Qed.

Lemma getGPTPartitions_degenerate_witness :
  getGPTPartitions 1 raw_storage = (Fault, raw_storage)
  /\ getGPTPartitions 1 (set_gpt (gpt_header_with [x00; x00; x00; x00]) raw_storage)
     = (Returned tt, set_gpt (gpt_header_with [x00; x00; x00; x00]) raw_storage)
  /\ getGPTPartitions 1 (set_gpt sample_gpt_header raw_storage)
     = (Fault, set_gpt sample_gpt_header raw_storage).
Proof.
  split; [|split].
  - apply (proj1 (getGPTPartitions_degenerate raw_storage 1)). reflexivity.
  - apply (proj1 (proj2 (getGPTPartitions_degenerate
                           (set_gpt (gpt_header_with [x00; x00; x00; x00]) raw_storage) 0)));
      [discriminate | reflexivity].
  - apply (proj2 (proj2 (getGPTPartitions_degenerate
                           (set_gpt sample_gpt_header raw_storage) 0)));
      [discriminate | discriminate | reflexivity].
Defined.

Section OversizedEntries.

Variables (reader : SectorReader.t) (gptHeader : list byte) (bps : Z) (buffer : list byte).

Hypothesis entries_announced : 0 < GPTHeader.NumberOfEntries gptHeader.
Hypothesis entry_exceeds_sector : 0 < bps < GPTHeader.SizeOfEntry gptHeader.
Hypothesis first_sector_readable :
  SectorReader.readSector reader (GPTHeader.PartitionEntryLBA gptHeader) bps = Some buffer.

Lemma getGPTPartitions_sectors_stuck : forall (fuel : nat) (h : DriveHandler),
  scanning reader gptHeader bps h ->
  fst (getGPTPartitions_sectors fuel 0 (GPTHeader.SizeOfEntry gptHeader) 0 h) = OutOfFuel.
Proof.
  induction fuel as [|fuel IH]; intros h Sc; [reflexivity|].
  cbn [getGPTPartitions_sectors]. rewrite bind_get.
  pose proof Sc as (Hr & Hg & Hb). rewrite Hg.
  replace (0 <? GPTHeader.NumberOfEntries gptHeader) with true
    by (symmetry; apply Z.ltb_lt; exact entries_announced).
  rewrite !bind_get, Hb, Hg.
  replace (bps =? 0) with false by (symmetry; apply Z.eqb_neq; lia).
  replace (wrap64 (GPTHeader.PartitionEntryLBA gptHeader
                   + wrap32 (0 * GPTHeader.SizeOfEntry gptHeader) / bps))
    with (GPTHeader.PartitionEntryLBA gptHeader).
  2:{ rewrite Z.mul_0_l. unfold wrap32. rewrite Z.mod_0_l by lia.
      rewrite Z.div_0_l by lia. rewrite Z.add_0_r. unfold wrap64.
      symmetry. apply Z.mod_small. apply u64_range. }
  unfold bind at 1.
  rewrite (readSector_ok h reader _ bps Hr buffer first_sector_readable).
  unfold bind at 1. cbn [Z.to_nat getGPTPartitions_entries]. unfold ret at 1.
  change (wrap32 (0 + 0)) with 0. apply IH. exact Sc.
Qed.

End OversizedEntries.

(** X13. When [SizeOfEntry] exceeds the sector size, no entry fits in a
    sector, the loop index never advances, and with at least one entry
    announced and the first sector of the array readable the scan reads
    that sector over and over and never finishes. *)
Theorem getGPTPartitions_oversized_entries_never_ends
  (h : DriveHandler) (reader : SectorReader.t) (buffer : list byte) :
  sectorReader h = Some reader ->
  0 < GPTHeader.NumberOfEntries (gpt h) ->
  0 < bytesPerSector h < GPTHeader.SizeOfEntry (gpt h) ->
  SectorReader.readSector reader (GPTHeader.PartitionEntryLBA (gpt h)) (bytesPerSector h)
  = Some buffer ->
  forall fuel : nat, fst (getGPTPartitions fuel h) = OutOfFuel.
Proof.
  intros Hr HN Hs Hread fuel. unfold getGPTPartitions. rewrite !bind_get.
  replace (GPTHeader.SizeOfEntry (gpt h) =? 0) with false
    by (symmetry; apply Z.eqb_neq; lia).
  rewrite Z.div_small by lia.
  apply (getGPTPartitions_sectors_stuck reader (gpt h) (bytesPerSector h) buffer
           HN Hs Hread).
  repeat split. exact Hr.
Qed.

Lemma getGPTPartitions_oversized_entries_never_ends_witness :
  fst (getGPTPartitions 1000 (set_bytesPerSector 64 (set_gpt sample_gpt_header
                                                       (with_reader zero_reader))))
  = OutOfFuel.
Proof.
  apply (getGPTPartitions_oversized_entries_never_ends
           (set_bytesPerSector 64 (set_gpt sample_gpt_header (with_reader zero_reader)))
           zero_reader (repeat x00 64) eq_refl).
  - reflexivity.
  - split; reflexivity.
  - reflexivity.
Defined.

(** ** What the scan keeps *)

Lemma getGPTPartitions_sectors_frame : forall (fuel : nat) (i sizeOfEntry eps : Z)
    (h : DriveHandler),
  sizeOfEntry <= sizeof_GPTPartitionEntry ->
  exists o added reads,
    getGPTPartitions_sectors fuel i sizeOfEntry eps h = (o, after_scan added reads h)
    /\ Forall (fun e => isEmptyGUID e = false) added
    /\ Forall (fun ev => exists s, ev = EvReadSector s (bytesPerSector h)) reads.
Proof.
  induction fuel as [|fuel IH]; intros i sizeOfEntry eps h Size.
  { exists OutOfFuel, [], []. rewrite after_scan_nil. repeat split; constructor. }
  cbn [getGPTPartitions_sectors]. rewrite bind_get.
  destruct (i <? GPTHeader.NumberOfEntries (gpt h)).
  2:{ exists (Returned tt), [], []. rewrite after_scan_nil. repeat split; constructor. }
  rewrite !bind_get. destruct (bytesPerSector h =? 0).
  { exists Fault, [], []. rewrite after_scan_nil. repeat split; constructor. }
  set (lbaNow := wrap64 _). unfold bind at 1. unfold readSector. rewrite bind_get.
  destruct (sectorReader h) as [reader|] eqn:Hr.
  2:{ exists Fault, [], []. rewrite after_scan_nil. repeat split; constructor. }
  unfold bind at 1. unfold emit at 1, modify at 1.
  destruct (SectorReader.readSector reader lbaNow (bytesPerSector h)) as [buffer|].
  - unfold ret at 1. unfold bind at 1.
    match goal with |- context [getGPTPartitions_entries ?n ?i0 ?j ?s ?b ?h0] =>
      destruct (getGPTPartitions_entries_returns n i0 j s b h0 Size)
        as (kept & Inner & Fk)
    end.
    rewrite Inner, after_scan_reads, after_scan_compose. cbn [app].
    match goal with |- context [getGPTPartitions_sectors fuel ?i' _ _ ?h1] =>
      destruct (IH i' sizeOfEntry eps h1 Size) as (o & added & reads & Run & Fa & Fr)
    end.
    rewrite Run, after_scan_compose.
    eexists o, _, _. split; [reflexivity|]. split.
    + apply Forall_app. split; [exact Fk | exact Fa].
    + constructor; [now exists lbaNow | exact Fr].
  - unfold throw. rewrite after_scan_reads.
    eexists _, [], _. split; [reflexivity|]. split; [constructor|].
    constructor; [now exists lbaNow | constructor].
Qed.

(** X14. For a header whose [SizeOfEntry] is at most the size of the entry
    object the loop copies into, whatever the device and the fuel, and
    however the scan ends (return, read error, division by zero, a missing
    reader, or still running), it has only appended entries to
    [partitionsGPT], each with a type GUID that is not all-zero, and only
    performed sector reads of [bytesPerSector] bytes. Entries already in
    the list, the MBR list, the header, the reader and the configuration
    are untouched. *)
Theorem getGPTPartitions_frame (fuel : nat) (h : DriveHandler) :
  GPTHeader.SizeOfEntry (gpt h) <= sizeof_GPTPartitionEntry ->
  exists o added reads,
    getGPTPartitions fuel h = (o, after_scan added reads h)
    /\ Forall (fun e => isEmptyGUID e = false) added
    /\ Forall (fun ev => exists s, ev = EvReadSector s (bytesPerSector h)) reads.
Proof.
  intros Size. unfold getGPTPartitions. rewrite !bind_get.
  destruct (GPTHeader.SizeOfEntry (gpt h) =? 0).
  - exists Fault, [], []. rewrite after_scan_nil. repeat split; constructor.
  - apply getGPTPartitions_sectors_frame. exact Size.
Qed.

Lemma getGPTPartitions_frame_witness :
  exists o added reads,
    getGPTPartitions 3 sample_gpt_handler = (o, after_scan added reads sample_gpt_handler)
    /\ Forall (fun e => isEmptyGUID e = false) added
    /\ Forall (fun ev => exists s, ev = EvReadSector s 512) reads.
Proof.
  apply (getGPTPartitions_frame 3 sample_gpt_handler). vm_compute. discriminate.
Defined.

(** X19. Entries larger than the entry object. When [SizeOfEntry] exceeds
    the size of [GPTPartitionEntry] and is at most [bytesPerSector], with
    at least one entry announced and the first sector of the array
    readable, the scan reads that sector and the copy of the first entry
    runs past the entry object: undefined behaviour, before anything is
    appended. *)
Theorem getGPTPartitions_entry_overrun
  (h : DriveHandler) (reader : SectorReader.t) (buffer : list byte) (fuel : nat) :
  sectorReader h = Some reader ->
  0 < GPTHeader.NumberOfEntries (gpt h) ->
  sizeof_GPTPartitionEntry < GPTHeader.SizeOfEntry (gpt h) <= bytesPerSector h ->
  SectorReader.readSector reader (GPTHeader.PartitionEntryLBA (gpt h)) (bytesPerSector h)
  = Some buffer ->
  getGPTPartitions (S fuel) h
  = (Fault,
     set_io (io h ++ [EvReadSector (GPTHeader.PartitionEntryLBA (gpt h))
                                   (bytesPerSector h)]) h).
Proof.
  intros Hr HN (Big & Fits) Hread.
  assert (Pos : 0 < sizeof_GPTPartitionEntry) by reflexivity.
  assert (Eps : 0 < bytesPerSector h / GPTHeader.SizeOfEntry (gpt h))
    by (apply Z.div_str_pos; lia).
  unfold getGPTPartitions. rewrite !bind_get.
  replace (GPTHeader.SizeOfEntry (gpt h) =? 0) with false
    by (symmetry; apply Z.eqb_neq; lia).
  cbn [getGPTPartitions_sectors]. rewrite bind_get.
  replace (0 <? GPTHeader.NumberOfEntries (gpt h)) with true
    by (symmetry; apply Z.ltb_lt; exact HN).
  rewrite !bind_get.
  replace (bytesPerSector h =? 0) with false by (symmetry; apply Z.eqb_neq; lia).
  replace (wrap64 (GPTHeader.PartitionEntryLBA (gpt h)
                   + wrap32 (0 * GPTHeader.SizeOfEntry (gpt h)) / bytesPerSector h))
    with (GPTHeader.PartitionEntryLBA (gpt h)).
  2:{ rewrite Z.mul_0_l. unfold wrap32. rewrite Z.mod_0_l by lia.
      rewrite Z.div_0_l by lia. rewrite Z.add_0_r. unfold wrap64.
      symmetry. apply Z.mod_small. apply u64_range. }
  unfold bind at 1.
  rewrite (readSector_ok h reader _ _ Hr buffer Hread).
  unfold bind at 1.
  destruct (Z.to_nat (bytesPerSector h / GPTHeader.SizeOfEntry (gpt h)))
    as [|n] eqn:En; [lia|].
  rewrite getGPTPartitions_entries_overrun; [reflexivity | exact Big |].
  state_simpl. change (wrap32 (0 + 0)) with 0. exact HN.
Qed.

Lemma getGPTPartitions_entry_overrun_witness :
  getGPTPartitions 1 oversized_entry_handler
  = (Fault, set_io [EvReadSector 2 512] oversized_entry_handler).
Proof.
  apply (getGPTPartitions_entry_overrun oversized_entry_handler zero_reader
           (repeat x00 512) 0 eq_refl).
  - reflexivity.
  - split; [reflexivity | discriminate].
  - reflexivity.
Defined.

(** ** A read error in the middle of the entry array *)

Section GPTReadError.

Variables (reader : SectorReader.t) (gptHeader : list byte) (bps : Z).
Variable sect : nat -> list byte.
Variable failing : nat.

Let sizeOfEntry := GPTHeader.SizeOfEntry gptHeader.
Let numberOfEntries := GPTHeader.NumberOfEntries gptHeader.
Let lba := GPTHeader.PartitionEntryLBA gptHeader.
Let entriesPerSector := bps / sizeOfEntry.

Hypothesis entry_size : sizeOfEntry = sizeof_GPTPartitionEntry.
Hypothesis sector_size : 0 < bps < 2 ^ 32.
Hypothesis entries_fill_sector : bps mod sizeOfEntry = 0.
Hypothesis offsets_fit : numberOfEntries * sizeOfEntry <= 2 ^ 32.
Hypothesis sectors_fit : lba + Z.of_nat failing < 2 ^ 64.
Hypothesis failing_in_array : Z.of_nat failing * entriesPerSector < numberOfEntries.
Hypothesis sectors_before : forall t : nat,
  (t < failing)%nat ->
  SectorReader.readSector reader (lba + Z.of_nat t) bps = Some (sect t)
  /\ List.length (sect t) = Z.to_nat bps.
Hypothesis sector_unreadable :
  SectorReader.readSector reader (lba + Z.of_nat failing) bps = None.

Lemma re_bps : bps = entriesPerSector * 128 /\ 0 < entriesPerSector.
Proof.
  pose proof entries_fill_sector as E. pose proof sector_size as B.
  unfold entriesPerSector. rewrite entry_size in *.
  change sizeof_GPTPartitionEntry with 128 in *.
  split; Z.div_mod_to_equations; lia.
Qed.

Lemma re_N : 0 <= numberOfEntries <= 2 ^ 25.
Proof.
  pose proof (u32_range gptHeader 80) as R. fold (GPTHeader.NumberOfEntries gptHeader) in R.
  fold numberOfEntries in R. pose proof offsets_fit as F.
  rewrite entry_size in F.
  change sizeof_GPTPartitionEntry with 128 in F. lia.
Qed.

Lemma re_sector_of_iteration (t : nat) :
  (t <= failing)%nat -> sector_of_iteration gptHeader bps t = lba + Z.of_nat t.
Proof.
  intros Le. unfold sector_of_iteration. fold sizeOfEntry lba entriesPerSector.
  destruct re_bps as (Hb & Ep). pose proof re_N as HN. pose proof failing_in_array as Fa.
  pose proof sector_size as B.
  replace sizeOfEntry with 128 by (symmetry; exact entry_size).
  assert (T : Z.of_nat t * entriesPerSector < numberOfEntries) by nia.
  replace (Z.of_nat t * entriesPerSector * 128) with (Z.of_nat t * bps) by lia.
  unfold wrap32. rewrite Z.mod_small by nia. rewrite Z.div_mul by lia.
  pose proof (u64_range gptHeader 72) as RL.
  fold (GPTHeader.PartitionEntryLBA gptHeader) in RL. fold lba in RL.
  pose proof sectors_fit. unfold wrap64. rewrite Z.mod_small; lia.
Qed.

(** The outer loop from iteration [t0], failing [m] iterations later. *)
Lemma getGPTPartitions_sectors_fails : forall (m t0 fuel : nat) (h : DriveHandler),
  scanning reader gptHeader bps h ->
  (m < fuel)%nat ->
  (t0 + m = failing)%nat ->
  getGPTPartitions_sectors fuel (Z.of_nat t0 * entriesPerSector)
                           sizeOfEntry entriesPerSector h
  = (Thrown "Cannot read sector.",
     after_scan
       (flat_map (fun t =>
          entries_in_sector (Z.to_nat entriesPerSector)
                            (Z.of_nat t * entriesPerSector) 0 sizeOfEntry (sect t)
                            numberOfEntries) (seq t0 m))
       (map (fun t => EvReadSector (lba + Z.of_nat t) bps) (seq t0 (S m)))
       h).
Proof.
  destruct re_bps as (Hbps & Ep). pose proof re_N as HN.
  pose proof failing_in_array as Fa. pose proof sector_size as B.
  induction m as [|m IH]; intros t0 fuel h Sc Fuel Sum;
    (destruct fuel as [|fuel]; [lia|]);
    assert (Lt : Z.of_nat t0 * entriesPerSector < numberOfEntries) by nia;
    cbn [getGPTPartitions_sectors]; rewrite bind_get;
    pose proof Sc as (Hr & Hg & Hb); rewrite Hg; fold numberOfEntries;
    (replace (Z.of_nat t0 * entriesPerSector <? numberOfEntries) with true
      by (symmetry; apply Z.ltb_lt; exact Lt));
    rewrite !bind_get, Hb, Hg;
    (replace (bps =? 0) with false by (symmetry; apply Z.eqb_neq; lia));
    unfold bind at 1;
    change (wrap64 _) with (sector_of_iteration gptHeader bps t0);
    rewrite re_sector_of_iteration by lia.
  - replace t0 with failing by lia.
    rewrite (readSector_fail h reader _ bps Hr sector_unreadable).
    rewrite after_scan_reads. reflexivity.
  - destruct (sectors_before t0 ltac:(lia)) as (Rd & _).
    rewrite (readSector_ok h reader _ bps Hr (sect t0) Rd).
    unfold bind at 1. rewrite getGPTPartitions_entries_run by exact entry_size.
    state_simpl. rewrite Hg. fold numberOfEntries.
    replace (wrap32 (Z.of_nat t0 * entriesPerSector + entriesPerSector))
      with (Z.of_nat (S t0) * entriesPerSector).
    2:{ unfold wrap32. rewrite Z.mod_small; lia. }
    rewrite IH; [| exact Sc | lia | lia].
    cbn [seq flat_map map].
    unfold after_scan. state_simpl. rewrite app_nil_r, <- !app_assoc. reflexivity.
Qed.

(** Every sector before the failing one is full of announced entries. *)
Lemma re_sector_entries (t : nat) :
  (t < failing)%nat ->
  entries_in_sector (Z.to_nat entriesPerSector) (Z.of_nat t * entriesPerSector) 0
                    sizeOfEntry (sect t) numberOfEntries
  = flat_map (fun k => entry_if_present
                         (Raw.slice (entry_array sect failing)
                                    (Z.of_nat k * sizeOfEntry) sizeOfEntry))
             (seq (t * Z.to_nat entriesPerSector)
                  (Nat.min (Z.to_nat entriesPerSector)
                           (failing * Z.to_nat entriesPerSector
                            - t * Z.to_nat entriesPerSector))).
Proof.
  intros Lt. destruct re_bps as (Hbps & Ep). pose proof re_N as HN.
  pose proof failing_in_array as Fa. pose proof sector_size as B.
  assert (Sz : sizeOfEntry = 128) by exact entry_size.
  change 0 with (Z.of_nat 0) at 1.
  rewrite entries_in_sector_nowrap; [| lia | nia | nia | rewrite Sz; lia].
  rewrite <- (flat_map_seq_shift
                (fun k => entry_if_present
                            (Raw.slice (entry_array sect failing)
                                       (Z.of_nat k * sizeOfEntry) sizeOfEntry))
                (t * Z.to_nat entriesPerSector)).
  replace (Nat.min (Z.to_nat entriesPerSector)
             (Z.to_nat (numberOfEntries - Z.of_nat t * entriesPerSector - Z.of_nat 0)))
    with (Z.to_nat entriesPerSector) by nia.
  replace (Nat.min (Z.to_nat entriesPerSector)
             (failing * Z.to_nat entriesPerSector - t * Z.to_nat entriesPerSector))
    with (Z.to_nat entriesPerSector) by nia.
  apply flat_map_ext_in. intros j Hj. apply in_seq in Hj. f_equal.
  replace (Z.of_nat (t * Z.to_nat entriesPerSector + j) * sizeOfEntry)
    with (Z.of_nat t * bps + Z.of_nat j * sizeOfEntry)
    by (rewrite Sz; nia).
  symmetry. apply slice_entry_array.
  - lia.
  - intros u Hu. now apply sectors_before.
  - exact Lt.
  - rewrite Sz; lia.
  - rewrite Sz; lia.
  - rewrite Sz. nia.
Qed.

Lemma getGPTPartitions_read_error_run (h : DriveHandler) (fuel : nat) :
  scanning reader gptHeader bps h ->
  (failing < fuel)%nat ->
  getGPTPartitions fuel h
  = (Thrown "Cannot read sector.",
     after_scan
       (map parse_GPTPartitionEntry
            (filter slot_in_use
                    (entry_slots (entry_array sect failing) sizeOfEntry
                                 (failing * Z.to_nat entriesPerSector))))
       (map (fun t => EvReadSector (lba + Z.of_nat t) bps) (seq 0 (S failing)))
       h).
Proof.
  intros Sc Fuel. destruct re_bps as (Hbps & Ep).
  unfold getGPTPartitions. rewrite !bind_get.
  pose proof Sc as (Hr & Hg & Hb). rewrite Hg, Hb. fold sizeOfEntry.
  replace (sizeOfEntry =? 0) with false by (rewrite entry_size; reflexivity).
  fold entriesPerSector.
  assert (Run := getGPTPartitions_sectors_fails failing 0%nat fuel h Sc Fuel eq_refl).
  change (Z.of_nat 0 * entriesPerSector) with 0 in Run. rewrite Run.
  f_equal. f_equal.
  erewrite flat_map_ext_in.
  2:{ intros t Ht. apply in_seq in Ht. apply re_sector_entries. lia. }
  rewrite (flat_map_chunks _ (Z.to_nat entriesPerSector)
             (failing * Z.to_nat entriesPerSector)) by lia.
  rewrite Nat.mul_0_l, Nat.sub_0_r.
  rewrite <- flat_map_entry_if_present. unfold entry_slots.
  rewrite !flat_map_concat_map, map_map. reflexivity.
Qed.

End GPTReadError.

(** X15. A read error in the middle of a well-formed entry array (128-byte
    entries, sector size a multiple of 128, offsets within 32 bits): when
    the sectors before sector number [failing] of the array are readable
    and that one is not, the scan throws the read error after
    [failing + 1] reads, and [partitionsGPT] keeps what it gained so far,
    exactly the in-use entries of the sectors read before the failure. *)
Theorem getGPTPartitions_read_error
  (h : DriveHandler) (reader : SectorReader.t) (sect : nat -> list byte)
  (failing : nat) :
  let sizeOfEntry := GPTHeader.SizeOfEntry (gpt h) in
  let numberOfEntries := GPTHeader.NumberOfEntries (gpt h) in
  let lba := GPTHeader.PartitionEntryLBA (gpt h) in
  let bps := bytesPerSector h in
  let entriesPerSector := bps / sizeOfEntry in
  let slots := entry_slots (entry_array sect failing) sizeOfEntry
                           (failing * Z.to_nat entriesPerSector) in
  sectorReader h = Some reader ->
  sizeOfEntry = sizeof_GPTPartitionEntry ->
  0 < bps < 2 ^ 32 ->
  bps mod sizeOfEntry = 0 ->
  numberOfEntries * sizeOfEntry <= 2 ^ 32 ->
  lba + Z.of_nat failing < 2 ^ 64 ->
  Z.of_nat failing * entriesPerSector < numberOfEntries ->
  (forall t : nat, (t < failing)%nat ->
     SectorReader.readSector reader (lba + Z.of_nat t) bps = Some (sect t)
     /\ List.length (sect t) = Z.to_nat bps) ->
  SectorReader.readSector reader (lba + Z.of_nat failing) bps = None ->
  forall fuel : nat, (failing < fuel)%nat ->
  exists h',
    getGPTPartitions fuel h = (Thrown "Cannot read sector.", h')
    /\ partitionsGPT h'
       = partitionsGPT h ++ map parse_GPTPartitionEntry (filter slot_in_use slots)
    /\ io h' = io h ++ map (fun t => EvReadSector (lba + Z.of_nat t) bps)
                           (seq 0 (S failing)).
Proof.
  intros sizeOfEntry numberOfEntries lba bps entriesPerSector slots
         Hr Hsize Hbps Hdiv Hoff Hlba Hin Hbefore Hfail fuel Hfuel.
  eexists. split.
  - apply (getGPTPartitions_read_error_run reader (gpt h) bps sect failing
             Hsize Hbps Hdiv Hoff Hlba Hin Hbefore Hfail h fuel); [|exact Hfuel].
    repeat split. exact Hr.
  - unfold after_scan. state_simpl. split; reflexivity.
Qed.

Lemma getGPTPartitions_read_error_witness :
  exists h',
    getGPTPartitions 2 sample_gpt_handler_bad_sector = (Thrown "Cannot read sector.", h')
    /\ map StartingLBA (partitionsGPT h') = [40; 48]
    /\ io h' = [EvReadSector 2 512; EvReadSector 3 512].
Proof.
  destruct (getGPTPartitions_read_error sample_gpt_handler_bad_sector
              sample_gpt_disk_bad_sector sample_gpt_sectors 1%nat
              eq_refl eq_refl) with (fuel := 2%nat)
    as (h' & Run & Parts & Io).
  - vm_compute. split; reflexivity.
  - reflexivity.
  - vm_compute. discriminate.
  - vm_compute. reflexivity.
  - vm_compute. reflexivity.
  - intros t Ht. destruct t as [|t]; [split; reflexivity | lia].
  - reflexivity.
  - lia.
  - exists h'. split; [exact Run|]. split.
    + rewrite Parts. vm_compute. reflexivity.
    + rewrite Io. reflexivity.
Defined.

(** ** Printing a GUID *)

Lemma guid_chunk_length (b : byte) :
  List.length (Fmt.setw 2 x30 (Fmt.hex (Raw.byte_val b))) = 2%nat.
Proof. destruct b; reflexivity. Qed.

Lemma read_guid_chunk (b : byte) (fuel : nat) (rest : list byte) :
  read_guid (S fuel) (Fmt.setw 2 x30 (Fmt.hex (Raw.byte_val b)) ++ rest)
  = option_map (cons b) (read_guid fuel rest).
Proof.
  destruct b; cbn; destruct (read_guid fuel rest); reflexivity.
Qed.

Lemma read_guid_dash (fuel : nat) (rest : list byte) :
  read_guid (S fuel) (Raw.of_string "-" ++ rest) = read_guid fuel rest.
Proof. reflexivity. Qed.

Lemma guidToString_chunks (guid : list byte) :
  let c i := Fmt.setw 2 x30 (Fmt.hex (Raw.byte_val (nth i guid x00))) in
  guidToString guid
  = c 0%nat ++ c 1%nat ++ c 2%nat ++ c 3%nat ++ Raw.of_string "-"
    ++ c 4%nat ++ c 5%nat ++ Raw.of_string "-"
    ++ c 6%nat ++ c 7%nat ++ Raw.of_string "-"
    ++ c 8%nat ++ c 9%nat ++ Raw.of_string "-"
    ++ c 10%nat ++ c 11%nat ++ c 12%nat ++ c 13%nat ++ c 14%nat ++ c 15%nat.
Proof.
  intros c. unfold guidToString. cbn [seq flat_map Nat.eqb orb]. fold c.
  rewrite !app_nil_r, <- !app_assoc. reflexivity.
Qed.

Lemma guid_chunk_shape (b : byte) :
  exists x y, Fmt.setw 2 x30 (Fmt.hex (Raw.byte_val b)) = [x; y].
Proof.
  pose proof (guid_chunk_length b) as L.
  destruct (Fmt.setw 2 x30 (Fmt.hex (Raw.byte_val b))) as [|x [|y [|z l]]];
    try discriminate L.
  now exists x, y.
Qed.

(** X16. [guidToString] prints the 16 bytes in storage order as 32
    lower-case hexadecimal digits with dashes after the fourth, sixth,
    eighth and tenth byte: the result has 36 characters, with the dashes at
    positions 8, 13, 18 and 23, and reading the digits back two by two
    gives the 16 bytes again, so different GUIDs never print alike. *)
Theorem guidToString_reads_back (guid : list byte) :
  List.length (guidToString guid) = 36%nat
  /\ (forall k, In k [8; 13; 18; 23]%nat -> nth k (guidToString guid) x00 = x2d)
  /\ read_guid 36 (guidToString guid) = Some (Raw.bytes_at guid 0 16)
  /\ (forall other, guidToString other = guidToString guid ->
        Raw.bytes_at other 0 16 = Raw.bytes_at guid 0 16).
Proof.
  assert (Back : forall g, read_guid 36 (guidToString g) = Some (Raw.bytes_at g 0 16)).
  { intros g. rewrite guidToString_chunks. cbv zeta.
    rewrite <- (app_nil_r (Fmt.setw 2 x30 (Fmt.hex (Raw.byte_val (nth 15 g x00))))).
    repeat (rewrite read_guid_chunk || rewrite read_guid_dash).
    reflexivity. }
  split; [|split; [|split]].
  - rewrite guidToString_chunks. cbv zeta.
    rewrite !length_app, !guid_chunk_length. reflexivity.
  - intros k Hk. rewrite guidToString_chunks. cbv zeta.
    repeat match goal with
           | |- context [Fmt.setw 2 x30 (Fmt.hex (Raw.byte_val ?b))] =>
               let x := fresh "x" in let y := fresh "y" in let E := fresh "E" in
               destruct (guid_chunk_shape b) as (x & y & E); rewrite E; clear E
           end.
    cbn in Hk. destruct Hk as [<- | [<- | [<- | [<- | []]]]]; reflexivity.
  - apply Back.
  - intros other E. pose proof (Back other) as B. rewrite E, Back in B.
    congruence.
Qed.

(** ** Without a reader *)

Section NoReader.

Variable FAT32Recovery_run : Config -> ReaderSpec -> option string.
Variable FilesystemType_value : FilesystemType -> Z.
Variable GUID_FAT32_TYPE : list byte.

(** X17. The handler never checks its reader before using it: with no
    reader in place, as after [closeDrive] (and so after any pass of
    [recoverDrive] that reached the recovery stage), [readSector],
    [getBytesPerSector] and [recoverDrive] on a logical or physical drive
    go through the null pointer before any I/O, while [closeDrive] itself
    is safe to repeat and does nothing. *)
Theorem no_reader_behaviour (h : DriveHandler) (fuel : nat) :
  sectorReader h = None ->
  (forall sector size, readSector sector size h = (Fault, h))
  /\ getBytesPerSector h = (Fault, h)
  /\ closeDrive h = (Returned tt, h)
  /\ (driveType h <> UNKNOWN_DRIVE ->
      recoverDrive FAT32Recovery_run FilesystemType_value GUID_FAT32_TYPE fuel h
      = (Fault, h)).
Proof.
  intros Hn. repeat split.
  - intros sector size. unfold readSector. rewrite bind_get, Hn. reflexivity.
  - unfold getBytesPerSector. rewrite bind_get, Hn. reflexivity.
  - unfold closeDrive. rewrite bind_get, Hn. reflexivity.
  - intros Dt. unfold recoverDrive. rewrite bind_get.
    destruct (driveType h); [contradiction | |].
    + unfold bind at 1. unfold getFSTypeFromBootSector. unfold bind at 1.
      unfold readBootSector. unfold bind at 1. unfold readSector.
      rewrite bind_get, Hn. reflexivity.
    + unfold bind at 1. unfold getPartitionScheme. unfold bind at 1.
      unfold readMBR. unfold bind at 1. unfold readSector.
      rewrite bind_get, Hn. reflexivity.
Qed.

End NoReader.

Lemma no_reader_behaviour_witness :
  recoverDrive always_returns sample_FilesystemType_value sample_GUID_FAT32_TYPE 0
               (set_driveType PHYSICAL_DRIVE raw_storage)
  = (Fault, set_driveType PHYSICAL_DRIVE raw_storage).
Proof.
  apply (proj2 (proj2 (proj2 (no_reader_behaviour always_returns
           sample_FilesystemType_value sample_GUID_FAT32_TYPE
           (set_driveType PHYSICAL_DRIVE raw_storage) 0 eq_refl)))).
  discriminate.
Defined.

(** ** Drive numbers of several digits *)

Section SeveralDigits.

Variable towupper : wchar_t -> wchar_t.
Variable iswalpha : wchar_t -> bool.

(** X18. Only the last digit of a drive number is kept: under a [towupper]
    that upper-cases the ASCII letters of [PhysicalDrive], an input made of
    [PhysicalDrive], any further characters and a final digit is normalized
    to [\\.\PhysicalDrive] followed by that digit alone. A drive number of
    several digits thus gives the same path as its last digit. *)
Theorem determineDriveType_keeps_last_digit
  (number : wstring) (d : wchar_t) (h : DriveHandler) :
  map towupper (L "PhysicalDrive") = L "PHYSICALDRIVE" ->
  isdigit (towupper d) = true ->
  determineDriveType towupper iswalpha (L "PhysicalDrive" ++ number ++ [d]) h
  = (Returned PHYSICAL_DRIVE, with_path (L "\\.\PhysicalDrive" ++ [towupper d]) h).
Proof.
  intros Hup Hd. unfold determineDriveType.
  rewrite not_single_digit_test by (intros (x & Ex & _); discriminate Ex).
  rewrite !map_app, Hup. cbn [map].
  assert (T2 : negb (is_npos (find (L "PHYSICALDRIVE" ++ map towupper number
                                      ++ [towupper d])
                                   (L "PHYSICALDRIVE"))) = true).
  { apply negb_true_iff, find_spec. exists [], (map towupper number ++ [towupper d]).
    reflexivity. }
  rewrite T2. rewrite (app_assoc (L "PHYSICALDRIVE")), last_char, Hd. reflexivity.
Qed.

End SeveralDigits.

Lemma determineDriveType_keeps_last_digit_witness :
  determineDriveType towupper_C iswalpha_C (L "PhysicalDrive12") raw_storage
  = (Returned PHYSICAL_DRIVE, with_path (L "\\.\PhysicalDrive2") raw_storage).
Proof.
  apply (determineDriveType_keeps_last_digit towupper_C iswalpha_C (L "1") 50
           raw_storage); reflexivity.
Defined.
